(** * eapi: the analysis core, embedded and verified

    A shallow embedding of the parts of the eapi analyzer that its
    specification makes claims about:

    - [GoLib]: the Go standard-library functions the code calls
      ([strings.Trim], [strings.TrimPrefix], [strings.Cut], [path.Clean],
      [path.Join]);
    - [Eapi]: the definitions index ([FuncDefinition.Key], [Definitions.Set],
      [Definitions.Get]) and the command-line entry point
      ([Entrypoint.Run], [Entrypoint.before]);
    - [Gin]: the gin plugin ([normalizePath], [assignStmt], [parseAPI]) and
      its handler analyzer ([primitiveParam], [parseFormData],
      [parseBindUri], [parseBindWith], ...);
    - [Spec]: the schema normalizer ([normalize], [process], [mergeArgs],
      [modelKey]) over an explicit store of schema objects;
    - [GinBindings], [TypeKeys], [OpenAPISettings]: the binding methods
      ([parseBinding], [parseBindWithContentType]), the keys of type
      definitions ([ModelKey], [RefKey]) and [OpenAPIConfig.ApplyToDoc];
    - [Log], [ParamTypes], [GoMod]: the logger, the types of parameters
      ([typeOfIdent]) and the search for [go.mod];
    - [SchemaErrors], [ArrayValidation]: the path of a schema error, the
      check of unique items and the validation of arrays.

    Definitions come first, theorems after them. *)

From Stdlib Require Import Ascii.
From stdpp Require Import gmap strings list.

Set Warnings "-register-all".

(* ===================================================================== *)
(** * Go standard library                                                 *)
(* ===================================================================== *)

Module GoLib.

(** The double quote, the slash and the other bytes the code tests for. *)
Definition dquote : ascii := ascii_of_nat 34.
Definition slash : ascii := "/"%char.
Definition colon : ascii := ":"%char.
Definition comma : ascii := ","%char.

(** The source text of an interpreted Go string literal: [quote "x"] is the
    three bytes of the Go token ["x"], as [ast.BasicLit.Value] holds it. *)
Definition quote (s : string) : string :=
  String dquote (s +:+ String dquote EmptyString).

Definition nonempty (s : string) : bool :=
  match s with EmptyString => false | String _ _ => true end.

(** [strings.TrimLeft(s, string(c))] for a one-byte cutset. *)
Fixpoint TrimLeft (c : ascii) (s : string) : string :=
  match s with
  | EmptyString => EmptyString
  | String a s' => if Ascii.eqb a c then TrimLeft c s' else s
  end.

(** [strings.TrimRight(s, string(c))] for a one-byte cutset. *)
Fixpoint TrimRight (c : ascii) (s : string) : string :=
  match s with
  | EmptyString => EmptyString
  | String a s' =>
      match TrimRight c s' with
      | EmptyString => if Ascii.eqb a c then EmptyString else String a EmptyString
      | r => String a r
      end
  end.

(** [strings.Trim(s, string(c))]: all leading and trailing [c] removed. *)
Definition Trim (c : ascii) (s : string) : string := TrimRight c (TrimLeft c s).

(** [strings.TrimPrefix(s, string(c))]. *)
Definition TrimPrefix (c : ascii) (s : string) : string :=
  match s with
  | String a s' => if Ascii.eqb a c then s' else s
  | EmptyString => EmptyString
  end.

(** [strings.Cut(s, string(c))]: the text before the first [c], the text
    after it, and whether [c] occurs. *)
Fixpoint Cut (c : ascii) (s : string) : string * string * bool :=
  match s with
  | EmptyString => (EmptyString, EmptyString, false)
  | String a s' =>
      if Ascii.eqb a c then (EmptyString, s', true)
      else let '(before, after, found) := Cut c s' in (String a before, after, found)
  end.

(** [strings.Split(s, string(c))]: always at least one piece. *)
Fixpoint Split (c : ascii) (s : string) : list string :=
  match s with
  | EmptyString => [EmptyString]
  | String a s' =>
      if Ascii.eqb a c then EmptyString :: Split c s'
      else match Split c s' with
           | x :: xs => String a x :: xs
           | [] => [String a EmptyString]
           end
  end.

(** [strings.Join(l, string(c))]. *)
Fixpoint JoinWith (c : ascii) (l : list string) : string :=
  match l with
  | [] => EmptyString
  | [x] => x
  | x :: xs => x +:+ String c (JoinWith c xs)
  end.

(** One path element of [path.Clean], on the stack of the elements kept so far
    (innermost first).  Empty and [.] elements vanish; [..] removes the last
    real element, is dropped at the root, and is kept in front of a relative
    path. *)
Definition cleanStep (rooted : bool) (out : list string) (e : string) : list string :=
  if bool_decide (e = EmptyString) || bool_decide (e = ".") then out
  else if bool_decide (e = "..") then
    match out with
    | top :: rest => if bool_decide (top = "..") then e :: out else rest
    | [] => if rooted then [] else [e]
    end
  else e :: out.

(** [path.Clean]. *)
Definition Clean (p : string) : string :=
  match p with
  | EmptyString => "."
  | String a _ =>
      let rooted := Ascii.eqb a slash in
      let body := JoinWith slash (rev (fold_left (cleanStep rooted) (Split slash p) [])) in
      if rooted then String slash body
      else if nonempty body then body else "."
  end.

(** [path.Join]: the non-empty prefix of the elements is joined with slashes
    and cleaned; all elements empty gives the empty string. *)
Definition Join (elem : list string) : string :=
  if bool_decide (Forall (fun e => e = EmptyString) elem) then EmptyString
  else Clean (fold_left (fun buf e =>
                           if nonempty buf then buf +:+ String slash e
                           else e) elem EmptyString).

End GoLib.

(* ===================================================================== *)
(** * Syntax trees ([go/ast]), as far as the analyzer inspects them        *)
(* ===================================================================== *)

Module Ast.

(** [token.Token] of a basic literal and of an assignment. *)
Inductive Token := INT | FLOAT | CHAR | STRING | ASSIGN | DEFINE | OTHER_TOKEN.

(** [ast.Expr].  A basic literal carries its source text in [Value]
    (a string literal with its quotes). *)
Inductive Expr :=
| Ident (Name : string)
| BasicLit (Kind : Token) (Value : string)
| StarExpr (X : Expr)
| UnaryExpr (X : Expr)
| IndexExpr (X : Expr) (Index : Expr)
| SelectorExpr (X : Expr) (Sel : string)
| CallExpr (Fun : Expr) (Args : list Expr)
| OtherExpr.

(** [ast.Field]: [Tag] is the field's tag literal, [None] for a nil tag. *)
Record Field := {
  Names : list string;
  FieldType : Expr;
  Tag : option string;
}.

(** [ast.FieldList.NumFields]; [None] is the nil list. *)
Definition NumFields (fl : option (list Field)) : nat :=
  match fl with
  | None => 0
  | Some l => foldr (fun f n => (match f.(Names) with [] => 1 | ns => length ns end) + n) 0 l
  end.

(** [ast.FuncDecl]. *)
Record FuncDecl := {
  Recv : option (list Field);
  FuncName : string;
}.

(** [ast.TypeSpec]. *)
Record TypeSpec := {
  TypeName : string;
}.

End Ast.

(* ===================================================================== *)
(** * Package eapi: definitions index and entry point                     *)
(* ===================================================================== *)

Module Eapi.
Import GoLib Ast.

(** [packages.Package]. *)
Record Package := {
  PkgPath : string;
  PkgName : string;
}.

Record FuncDefinition := {
  fpkg : Package;
  Decl : FuncDecl;
}.

Record TypeDefinition := {
  tpkg : Package;
  Spec : TypeSpec;
}.

(** [Definition] is the interface implemented by the two records. *)
Inductive Definition_ :=
| Func (f : FuncDefinition)
| Type_ (t : TypeDefinition).

(** [FuncDefinition.Key].  The two [default] branches only log a warning and
    fall through to the key of a free function. *)
Definition FuncDefinition_Key (f : FuncDefinition) : string :=
  let free := f.(fpkg).(PkgPath) +:+ "." +:+ f.(Decl).(FuncName) in
  if bool_decide (NumFields f.(Decl).(Recv) = 1) then
    match f.(Decl).(Recv) with
    | Some (receiver :: _) =>
        match receiver.(FieldType) with
        | Ident t =>
            f.(fpkg).(PkgPath) +:+ "." +:+ t +:+ "." +:+ f.(Decl).(FuncName)
        | StarExpr (Ident i) =>
            "*" +:+ f.(fpkg).(PkgPath) +:+ "." +:+ i +:+ "." +:+ f.(Decl).(FuncName)
        | StarExpr (IndexExpr (Ident _i) _) =>
            "*" +:+ f.(fpkg).(PkgPath) +:+ "." +:+ _i +:+ "." +:+ f.(Decl).(FuncName)
        | StarExpr (IndexExpr _ _) => EmptyString
        | StarExpr _ => free
        | IndexExpr _ _ => EmptyString
        | _ => free
        end
    | _ => free
    end
  else free.

(** [TypeDefinition.Key]. *)
Definition TypeDefinition_Key (t : TypeDefinition) : string :=
  t.(tpkg).(PkgPath) +:+ "." +:+ t.(Spec).(TypeName).

Definition Key (d : Definition_) : string :=
  match d with
  | Func f => FuncDefinition_Key f
  | Type_ t => TypeDefinition_Key t
  end.

(** [type Definitions map[string]Definition]. *)
Abbreviation Definitions := (gmap string Definition_).

(** [Definitions.Set]. *)
Definition Set_ (d : Definitions) (def : Definition_) : Definitions :=
  let k := Key def in
  if nonempty k then <[k := def]> d else d.

(** [Definitions.Get]; [None] is the nil interface value. *)
Definition Get (d : Definitions) (key : string) : option Definition_ := d !! key.

(** What every index built by [Set_] satisfies: entries sit under their own,
    non-empty key. *)
Definition keyed (m : Definitions) : Prop :=
  forall k d, m !! k = Some d -> k <> EmptyString /\ Key d = k.

(** A method on a generic receiver, [func (s Stack[T]) Push()], in package
    [app]. *)
Definition generic_receiver_method : FuncDefinition :=
  {| fpkg := {| PkgPath := "app"; PkgName := "app" |};
     Decl := {| Recv := Some [ {| Names := ["s"];
                                  FieldType := IndexExpr (Ident "Stack") (Ident "T");
                                  Tag := None |} ];
                FuncName := "Push" |} |}.

(** A free function [func Handler()] in package [app]. *)
Definition free_function : FuncDefinition :=
  {| fpkg := {| PkgPath := "app"; PkgName := "app" |};
     Decl := {| Recv := None; FuncName := "Handler" |} |}.

(** ** Entry point *)

(** [Config], without the OpenAPI and generator settings. *)
Record Config := {
  Plugin : string;
  Dir : string;
  Output : string;
  Depends : list string;
  StrictMode : bool;
  LogLevel : string;
}.

(** The command line after flag parsing: [None] for a flag that was not
    given. *)
Record Flags := {
  flag_plugin : option string;
  flag_dir : option string;
  flag_output : option string;
  flag_depends : option (list string);
  flag_config : option string;
  flag_strict : bool;
  flag_log_level : option string;
}.

(** The keys a YAML configuration file sets: [None] for an absent key. *)
Record ConfigFile := {
  yaml_plugin : option string;
  yaml_dir : option string;
  yaml_output : option string;
  yaml_depends : option (list string);
  yaml_strictMode : option bool;
  yaml_logLevel : option string;
}.

(** The working directory: whether [eapi.yaml] is a regular file there, and
    what loading a configuration file by name gives ([None]: the load
    fails). *)
Record FileSystem := {
  has_eapi_yaml : bool;
  load : string -> option ConfigFile;
}.

(** [NewEntrypoint]: the configuration an entry point starts with. *)
Definition NewEntrypoint : Config :=
  {| Plugin := "gin"; Dir := "."; Output := "docs"; Depends := [];
     StrictMode := false; LogLevel := "info" |}.

(** Flag parsing as [Run] sets it up.  A flag with a [Destination] stores its
    default ([Value], empty unless given) there when the flag is registered
    and the command-line value when the flag is given; the [Action] of
    [depends] runs only when that flag is given.  All of it happens before
    the application's [Action], which is [run]. *)
Definition parseFlags (fl : Flags) (cfg : Config) : Config :=
  {| Plugin := default EmptyString fl.(flag_plugin);
     Dir := default EmptyString fl.(flag_dir);
     Output := default EmptyString fl.(flag_output);
     Depends := default cfg.(Depends) fl.(flag_depends);
     StrictMode := fl.(flag_strict);
     LogLevel := default "info" fl.(flag_log_level) |}.

(** [e.k.Unmarshal] of the whole file into [e.cfg]: every key the loaded file has is written
    over the field of the same name; the other fields are left alone. *)
Definition Unmarshal (y : ConfigFile) (cfg : Config) : Config :=
  {| Plugin := default cfg.(Plugin) y.(yaml_plugin);
     Dir := default cfg.(Dir) y.(yaml_dir);
     Output := default cfg.(Output) y.(yaml_output);
     Depends := default cfg.(Depends) y.(yaml_depends);
     StrictMode := default cfg.(StrictMode) y.(yaml_strictMode);
     LogLevel := default cfg.(LogLevel) y.(yaml_logLevel) |}.

Inductive Error := LoadError | PluginNotSet.

(** The file [before] reads: the [--config] flag, else an [eapi.yaml] in the
    working directory, else none. *)
Definition configFileName (fs : FileSystem) (fl : Flags) : string :=
  let cfg := default EmptyString fl.(flag_config) in
  if nonempty cfg then cfg
  else if fs.(has_eapi_yaml) then "eapi.yaml" else EmptyString.

(** The three fall-backs at the end of [before]. *)
Definition fillDefaults (cfg : Config) : Error + Config :=
  if nonempty cfg.(Plugin) then
    inr {| Plugin := cfg.(Plugin);
           Dir := if nonempty cfg.(Dir) then cfg.(Dir) else ".";
           Output := if nonempty cfg.(Output) then cfg.(Output) else "docs";
           Depends := cfg.(Depends);
           StrictMode := cfg.(StrictMode);
           LogLevel := cfg.(LogLevel) |}
  else inl PluginNotSet.

(** [Entrypoint.before], on the configuration the flags have already been
    stored in. *)
Definition before (fs : FileSystem) (fl : Flags) (cfg : Config) : Error + Config :=
  let name := configFileName fs fl in
  if nonempty name then
    match fs.(load) name with
    | None => inl LoadError
    | Some y => fillDefaults (Unmarshal y cfg)
    end
  else fillDefaults cfg.

(** [Entrypoint.Run] up to the point where [run] has called [before]: the
    configuration the rest of the run uses. *)
Definition Run (fs : FileSystem) (fl : Flags) : Error + Config :=
  before fs fl (parseFlags fl NewEntrypoint).

(** The earlier revision of [before] kept in the same source file: it is the
    application's [Before] hook, the flags have no [Destination], and after
    the file is loaded every flag that is set is copied over the field. *)
Definition before_override (fs : FileSystem) (fl : Flags) (cfg : Config) : Error + Config :=
  let override (c : Config) : Config :=
    {| Plugin := default c.(Plugin) fl.(flag_plugin);
       Dir := default c.(Dir) fl.(flag_dir);
       Output := default c.(Output) fl.(flag_output);
       Depends := default c.(Depends) fl.(flag_depends);
       StrictMode := c.(StrictMode);
       LogLevel := c.(LogLevel) |} in
  let name := configFileName fs fl in
  if nonempty name then
    match fs.(load) name with
    | None => inl LoadError
    | Some y => fillDefaults (override (Unmarshal y cfg))
    end
  else fillDefaults (override cfg).

(** A working directory whose [eapi.yaml] sets [plugin: echo], and the
    command line [--plugin gin]. *)
Definition yaml_echo : ConfigFile :=
  {| yaml_plugin := Some "echo"; yaml_dir := None; yaml_output := None;
     yaml_depends := None; yaml_strictMode := None; yaml_logLevel := None |}.
Definition fs_echo : FileSystem :=
  {| has_eapi_yaml := true; load := fun _ => Some yaml_echo |}.
Definition flags_gin : Flags :=
  {| flag_plugin := Some "gin"; flag_dir := None; flag_output := None;
     flag_depends := None; flag_config := None; flag_strict := false;
     flag_log_level := None |}.

End Eapi.

(* ===================================================================== *)
(** * Package plugins/gin: routes                                         *)
(* ===================================================================== *)

Module Gin.
Import GoLib Ast.

(** ** Path templates *)

(** [pathParamPattern.ReplaceAllStringFunc(path, f)] for the pattern
    [:([^\/]+)] and [f s = "{" + strings.TrimPrefix(s, ":") + "}"], as a
    scanner.  Outside a match, a colon followed by a byte other than the slash
    opens a match and is replaced by the opening brace; a match runs to the
    next slash or to the end of the path, where the closing brace is written.
    A colon before a slash or at the end matches nothing and is copied. *)
Fixpoint scanPath (inParam : bool) (p : string) : string :=
  match p with
  | EmptyString => if inParam then "}" else EmptyString
  | String c rest =>
      if inParam then
        if Ascii.eqb c slash then String "}" (String slash (scanPath false rest))
        else String c (scanPath true rest)
      else if Ascii.eqb c colon then
        match rest with
        | EmptyString => String c EmptyString
        | String d _ =>
            if Ascii.eqb d slash then String c (scanPath false rest)
            else String "{" (scanPath true rest)
        end
      else String c (scanPath false rest)
  end.

(** [Plugin.normalizePath] (the echo plugin has the same function). *)
Definition normalizePath (p : string) : string := scanPath false p.

(** What [normalizePath] does to one path element: the first colon that has
    text after it opens a parameter that takes the rest of the element. *)
Fixpoint normalizeElem (e : string) : string :=
  match e with
  | EmptyString => EmptyString
  | String c rest =>
      if Ascii.eqb c colon && nonempty rest then "{" +:+ rest +:+ "}"
      else String c (normalizeElem rest)
  end.

(** The bytes of a string. *)
Fixpoint bytes (s : string) : list ascii :=
  match s with
  | EmptyString => []
  | String c rest => c :: bytes rest
  end.

(** A path element as route paths have them: text without a colon (a literal
    element, or a catch-all [*name]), or a colon followed by a non-empty name
    without a colon. *)
Definition routeElem (e : string) : Prop :=
  colon ∉ bytes e
  \/ exists name, e = String colon name /\ nonempty name = true /\ colon ∉ bytes name.

(** An element in which a parameter was opened: it is closed at its end. *)
Definition closeElems (elems : list string) : list string :=
  match elems with
  | [] => []
  | x :: rest => (x +:+ "}") :: map normalizeElem rest
  end.

(** ** Environment *)

(** What an identifier is bound to. *)
Inductive Value :=
| RouteGroup (Prefix : string)
| OtherValue.

(** Modelled from the spec: the [Environment] type is not under src/.  It is
    the scoped symbol table of section 4.3: a chain of scopes, innermost
    first, with [Lookup] walking outward, [Define] binding in the innermost
    scope, [Resolve] finding the scope that owns a name, and [Assign] writing
    in that scope. *)
Abbreviation Environment := (list (gmap string Value)).

Fixpoint Lookup (env : Environment) (name : string) : option Value :=
  match env with
  | [] => None
  | scope :: parent =>
      match scope !! name with
      | Some v => Some v
      | None => Lookup parent name
      end
  end.

Definition Define (env : Environment) (name : string) (v : Value) : Environment :=
  match env with
  | [] => [ {[ name := v ]} ]
  | scope :: parent => <[name := v]> scope :: parent
  end.

(** The owning scope, as its distance from the innermost one. *)
Fixpoint Resolve (env : Environment) (name : string) : option nat :=
  match env with
  | [] => None
  | scope :: parent =>
      match scope !! name with
      | Some _ => Some 0
      | None => S <$> Resolve parent name
      end
  end.

(** [env.Assign(name, v)] called on the scope at distance [i]. *)
Definition Assign (env : Environment) (i : nat) (name : string) (v : Value) : Environment :=
  alter (fun scope => <[name := v]> scope) i env.

(** The prefix of the route group an identifier is bound to; empty when it is
    bound to something else or not bound. *)
Definition prefixOf (env : Environment) (name : string) : string :=
  match Lookup env name with
  | Some (RouteGroup p) => p
  | _ => EmptyString
  end.

(** ** Route registration *)

Definition routeMethods : list string :=
  ["GET"; "HEAD"; "POST"; "PUT"; "PATCH"; "DELETE"; "CONNECT"; "OPTIONS"; "TRACE"].

Definition ginRouterGroupTypeName : string := "*github.com/gin-gonic/gin.RouterGroup".
Definition ginIRouterTypeName : string := "github.com/gin-gonic/gin.IRouter".
Definition ginIRoutesTypeName : string := "github.com/gin-gonic/gin.IRoutes".
Definition routerGroupMethodName : string := "Group".

(** [analyzer.API], without the operation it carries. *)
Record API := {
  Method : string;
  FullPath : string;
}.

(** What the plugin reads from the analysis context besides the environment:
    the inferred type of a receiver expression, whether the handler of a
    route call resolves to a function definition ([getHandlerFn] followed by
    [GetDefinition]), and whether the heading comment of a call carries the
    ignore marker. *)
Record Oracle := {
  typeOf : Expr -> option string;
  handlerDef : Expr -> option Eapi.Definition_;
  ignored : Expr -> bool;
}.

(** The analysis context as the plugin changes it: the environment and the
    APIs registered so far ([ctx.AddAPI]). *)
Record Context := {
  Env : Environment;
  APIs : list API;
}.

(** A call rule: receiver type names with the methods of interest. *)
Definition CallRule := list (string * list string).

Definition groupRule (routerNames : list string) : CallRule :=
  map (fun t => (t, [routerGroupMethodName]))
      ([ginRouterGroupTypeName; ginIRouterTypeName; ginIRoutesTypeName] ++ routerNames).

Definition verbRule (routerNames : list string) : CallRule :=
  map (fun t => (t, routeMethods))
      ([ginRouterGroupTypeName; ginIRouterTypeName; ginIRoutesTypeName] ++ routerNames).

(** Modelled from the spec: [Context.MatchCall] is not under src/.  By
    section 4.6 it infers the type of the receiver of a call and checks the
    rule; here for a call whose function is a selector on the receiver.  The
    result is the method name the callback is invoked with. *)
Definition MatchCall (o : Oracle) (node : Expr) (rule : CallRule) : option string :=
  match node with
  | CallExpr (SelectorExpr X Sel) _ =>
      match o.(typeOf) X with
      | Some t =>
          if bool_decide (Exists (fun r => r.1 = t /\ Sel ∈ r.2) rule) then Some Sel else None
      | None => None
      end
  | _ => None
  end.

(** The callback of [Plugin.assignStmt], for one left-hand side [lh] and the
    token of the assignment. *)
Definition groupCallback (env : Environment) (lh : Expr) (tok : Token) (callExpr : Expr)
  : Environment :=
  match callExpr with
  | CallExpr (SelectorExpr (Ident xIdent) _) (BasicLit _ arg0 :: _) =>
      let prefix := prefixOf env xIdent in
      let rg := RouteGroup (Join [prefix; normalizePath (Trim dquote arg0)]) in
      match lh with
      | Ident lhIdent =>
          match tok with
          | ASSIGN =>
              match Resolve env lhIdent with
              | None => Define env lhIdent rg
              | Some i => Assign env i lhIdent rg
              end
          | DEFINE => Define env lhIdent rg
          | _ => env
          end
      | _ => env
      end
  | _ => env
  end.

(** [Plugin.assignStmt]. *)
Definition assignStmt (o : Oracle) (routerNames : list string) (ctx : Context)
    (Lhs : list Expr) (tok : Token) (Rhs : list Expr) : Context :=
  match Lhs, Rhs with
  | [lh], [rh] =>
      match MatchCall o rh (groupRule routerNames) with
      | Some _ => {| Env := groupCallback ctx.(Env) lh tok rh; APIs := ctx.(APIs) |}
      | None => ctx
      end
  | _, _ => ctx
  end.

(** [Plugin.parseAPI]; [None] is the nil API. *)
Definition parseAPI (o : Oracle) (env : Environment) (callExpr : Expr) : option API :=
  match callExpr with
  | CallExpr (SelectorExpr X Sel) (BasicLit _ arg0 :: _ :: _) =>
      let prefix := match X with Ident xIdent => prefixOf env xIdent | _ => EmptyString end in
      match o.(handlerDef) callExpr with
      | Some (Eapi.Func _) =>
          Some {| Method := Sel;
                  FullPath := Join [prefix; normalizePath (Trim dquote arg0)] |}
      | _ => None
      end
  | _ => None
  end.

(** [Plugin.callExpr]. *)
Definition callExpr (o : Oracle) (routerNames : list string) (ctx : Context) (call : Expr)
  : Context :=
  match MatchCall o call (verbRule routerNames) with
  | Some _ =>
      if o.(ignored) call then ctx
      else match parseAPI o ctx.(Env) call with
           | Some api => {| Env := ctx.(Env); APIs := ctx.(APIs) ++ [api] |}
           | None => ctx
           end
  | None => ctx
  end.

(** The nodes [Plugin.Analyze] acts on. *)
Inductive Node :=
| AssignStmt (Lhs : list Expr) (Tok : Token) (Rhs : list Expr)
| CallNode (call : Expr).

(** [Plugin.Analyze]. *)
Definition Analyze (o : Oracle) (routerNames : list string) (ctx : Context) (n : Node)
  : Context :=
  match n with
  | AssignStmt Lhs tok Rhs => assignStmt o routerNames ctx Lhs tok Rhs
  | CallNode call => callExpr o routerNames ctx call
  end.

(** The plugin run over the nodes of one block, in source order. *)
Definition AnalyzeAll (o : Oracle) (routerNames : list string) (ctx : Context)
    (nodes : list Node) : Context :=
  fold_left (Analyze o routerNames) nodes ctx.


Definition verbCall (verb recv lit : string) : Expr :=
  CallExpr (SelectorExpr (Ident recv) verb) [BasicLit STRING lit; Ident "h"].





(** An oracle for source in which every identifier is a gin router group and
    every handler is a known function. *)
Definition routerOracle : Oracle :=
  {| typeOf := fun _ => Some ginRouterGroupTypeName;
     handlerDef := fun _ => Some (Eapi.Func Eapi.free_function);
     ignored := fun _ => false |}.

Definition emptyContext : Context := {| Env := [∅]; APIs := [] |}.


(** [r.GET("/files/*filepath", h)]. *)
Definition catchAllRoute : list Node :=
  [CallNode (verbCall "GET" "r" (quote "/files/*filepath"))].

End Gin.

(* ===================================================================== *)
(** * Package spec: schemas and the schema normalizer                     *)
(* ===================================================================== *)

Module Spec.
Import GoLib.

(** ** Schema objects *)

(** A [*Schema] is the address of a schema object in the store; the nil
    pointer is [None : option ptr]. *)
Abbreviation ptr := nat.

(** Modelled from the spec: the declaration of [ExtendedTypeInfo] is not
    under src/.  Its kinds are those of the data model (section 3); the code
    under src/ reads [Type], [Items], [SpecificType.Type],
    [SpecificType.Args] and [TypeParam.Index]. *)
Inductive ExtendedType :=
| ExtendedTypeObject
| ExtendedTypeArray
| ExtendedTypeMap
| ExtendedTypeSpecific
| ExtendedTypeParam
| ExtendedTypeEnum.

Global Instance ExtendedType_eq_dec : EqDecision ExtendedType.
Proof. solve_decision. Defined.

Record SpecificType := {
  SType : option ptr;
  Args : list (option ptr);
}.

Record TypeParam := {
  Index : nat;
}.

Record ExtendedTypeInfo := {
  ExtType : ExtendedType;
  ExtItems : option ptr;
  Specific : option SpecificType;
  Param : option TypeParam;
}.

(** [Schema], with the fields the analyzer and the normalizer use.
    [Properties] is the map of the object, as its entries. *)
Record Schema := {
  Ref : string;
  Type_ : string;
  Title : string;
  Description : string;
  Default : option string;
  Required : list string;
  Items : option ptr;
  AdditionalProperties : option ptr;
  Properties : list (string * option ptr);
  Ext : option ExtendedTypeInfo;
  Key : string;
  SpecializedFromGeneric : bool;
}.

(** [NewSchema]: the zero schema. *)
Definition NewSchema : Schema :=
  {| Ref := EmptyString; Type_ := EmptyString; Title := EmptyString;
     Description := EmptyString; Default := None; Required := [];
     Items := None; AdditionalProperties := None; Properties := [];
     Ext := None; Key := EmptyString; SpecializedFromGeneric := false |}.

Definition withRef (v : string) (o : Schema) : Schema :=
  {| Ref := v; Type_ := o.(Type_); Title := o.(Title); Description := o.(Description);
     Default := o.(Default); Required := o.(Required); Items := o.(Items);
     AdditionalProperties := o.(AdditionalProperties); Properties := o.(Properties);
     Ext := o.(Ext); Key := o.(Key); SpecializedFromGeneric := o.(SpecializedFromGeneric) |}.

Definition withType (v : string) (o : Schema) : Schema :=
  {| Ref := o.(Ref); Type_ := v; Title := o.(Title); Description := o.(Description);
     Default := o.(Default); Required := o.(Required); Items := o.(Items);
     AdditionalProperties := o.(AdditionalProperties); Properties := o.(Properties);
     Ext := o.(Ext); Key := o.(Key); SpecializedFromGeneric := o.(SpecializedFromGeneric) |}.

Definition withTitle (v : string) (o : Schema) : Schema :=
  {| Ref := o.(Ref); Type_ := o.(Type_); Title := v; Description := o.(Description);
     Default := o.(Default); Required := o.(Required); Items := o.(Items);
     AdditionalProperties := o.(AdditionalProperties); Properties := o.(Properties);
     Ext := o.(Ext); Key := o.(Key); SpecializedFromGeneric := o.(SpecializedFromGeneric) |}.

Definition withDescription (v : string) (o : Schema) : Schema :=
  {| Ref := o.(Ref); Type_ := o.(Type_); Title := o.(Title); Description := v;
     Default := o.(Default); Required := o.(Required); Items := o.(Items);
     AdditionalProperties := o.(AdditionalProperties); Properties := o.(Properties);
     Ext := o.(Ext); Key := o.(Key); SpecializedFromGeneric := o.(SpecializedFromGeneric) |}.

Definition withDefault (v : option string) (o : Schema) : Schema :=
  {| Ref := o.(Ref); Type_ := o.(Type_); Title := o.(Title); Description := o.(Description);
     Default := v; Required := o.(Required); Items := o.(Items);
     AdditionalProperties := o.(AdditionalProperties); Properties := o.(Properties);
     Ext := o.(Ext); Key := o.(Key); SpecializedFromGeneric := o.(SpecializedFromGeneric) |}.

Definition withRequired (v : list string) (o : Schema) : Schema :=
  {| Ref := o.(Ref); Type_ := o.(Type_); Title := o.(Title); Description := o.(Description);
     Default := o.(Default); Required := v; Items := o.(Items);
     AdditionalProperties := o.(AdditionalProperties); Properties := o.(Properties);
     Ext := o.(Ext); Key := o.(Key); SpecializedFromGeneric := o.(SpecializedFromGeneric) |}.

Definition withItems (v : option ptr) (o : Schema) : Schema :=
  {| Ref := o.(Ref); Type_ := o.(Type_); Title := o.(Title); Description := o.(Description);
     Default := o.(Default); Required := o.(Required); Items := v;
     AdditionalProperties := o.(AdditionalProperties); Properties := o.(Properties);
     Ext := o.(Ext); Key := o.(Key); SpecializedFromGeneric := o.(SpecializedFromGeneric) |}.

Definition withAdditionalProperties (v : option ptr) (o : Schema) : Schema :=
  {| Ref := o.(Ref); Type_ := o.(Type_); Title := o.(Title); Description := o.(Description);
     Default := o.(Default); Required := o.(Required); Items := o.(Items);
     AdditionalProperties := v; Properties := o.(Properties);
     Ext := o.(Ext); Key := o.(Key); SpecializedFromGeneric := o.(SpecializedFromGeneric) |}.

Definition withProperties (v : list (string * option ptr)) (o : Schema) : Schema :=
  {| Ref := o.(Ref); Type_ := o.(Type_); Title := o.(Title); Description := o.(Description);
     Default := o.(Default); Required := o.(Required); Items := o.(Items);
     AdditionalProperties := o.(AdditionalProperties); Properties := v;
     Ext := o.(Ext); Key := o.(Key); SpecializedFromGeneric := o.(SpecializedFromGeneric) |}.

Definition withExt (v : option ExtendedTypeInfo) (o : Schema) : Schema :=
  {| Ref := o.(Ref); Type_ := o.(Type_); Title := o.(Title); Description := o.(Description);
     Default := o.(Default); Required := o.(Required); Items := o.(Items);
     AdditionalProperties := o.(AdditionalProperties); Properties := o.(Properties);
     Ext := v; Key := o.(Key); SpecializedFromGeneric := o.(SpecializedFromGeneric) |}.

Definition withSpecialized (v : bool) (o : Schema) : Schema :=
  {| Ref := o.(Ref); Type_ := o.(Type_); Title := o.(Title); Description := o.(Description);
     Default := o.(Default); Required := o.(Required); Items := o.(Items);
     AdditionalProperties := o.(AdditionalProperties); Properties := o.(Properties);
     Ext := o.(Ext); Key := o.(Key); SpecializedFromGeneric := v |}.

(** ** Maps as entry lists *)

(** A Go map with string keys, as the list of its entries: reading takes the
    first entry of a key, writing replaces it or adds one at the end, ranging
    follows the list. *)
Fixpoint lookupKey {V : Type} (k : string) (m : list (string * V)) : option V :=
  match m with
  | [] => None
  | (k', v) :: rest => if bool_decide (k' = k) then Some v else lookupKey k rest
  end.

Fixpoint setKey {V : Type} (k : string) (v : V) (m : list (string * V)) : list (string * V) :=
  match m with
  | [] => [(k, v)]
  | (k', v') :: rest =>
      if bool_decide (k' = k) then (k, v) :: rest else (k', v') :: setKey k v rest
  end.

(** ** The document *)

Record MediaType := {
  MediaSchema : option ptr;
}.

Record Response := {
  ResponseContent : list (string * option MediaType);
}.

Record RequestBody := {
  RequestBodyRef : string;
  RequestBodyContent : list (string * option MediaType);
}.

Record Operation := {
  Responses : list (string * option Response);
  OpRequestBody : option RequestBody;
}.

Record PathItem := {
  Connect : option Operation;
  Delete : option Operation;
  Get : option Operation;
  Head : option Operation;
  Options : option Operation;
  Patch : option Operation;
  Post : option Operation;
  Put : option Operation;
  Trace : option Operation;
}.

(** The schema objects of a run and [doc.Components.Schemas]. *)
Record Store := {
  objects : list Schema;
  Schemas : list (string * option ptr);
}.

(** The document [T]: the store and [doc.Paths]. *)
Record T := {
  store : Store;
  Paths : list (string * option PathItem);
}.

(** ** Computations on the store *)

(** A computation reads and writes the store and may stop with a panic (a nil
    dereference, an index out of range) or for lack of fuel: [None]. *)
Definition M (A : Type) : Type := Store -> option (A * Store).

Definition ret {A} (a : A) : M A := fun s => Some (a, s).
Definition bind {A B} (m : M A) (k : A -> M B) : M B :=
  fun s => match m s with
           | Some (a, s') => k a s'
           | None => None
           end.
Definition panic {A} : M A := fun _ => None.

Notation "'let*' x ':=' m 'in' k" := (bind m (fun x => k))
  (at level 10, x pattern, m at level 100, k at level 200).

(** The value of an option that must be present. *)
Definition must {A} (o : option A) : M A :=
  match o with
  | Some a => ret a
  | None => panic
  end.

(** Reading the object a pointer points to. *)
Definition load (p : ptr) : M Schema :=
  fun s => match s.(objects) !! p with
           | Some o => Some (o, s)
           | None => None
           end.

(** Writing the object a pointer points to, field by field. *)
Definition update (p : ptr) (f : Schema -> Schema) : M unit :=
  fun s => match s.(objects) !! p with
           | Some o => Some (tt, {| objects := <[p := f o]> s.(objects); Schemas := s.(Schemas) |})
           | None => None
           end.

(** [&Schema{...}]. *)
Definition alloc (o : Schema) : M ptr :=
  fun s => Some (length s.(objects),
                 {| objects := s.(objects) ++ [o]; Schemas := s.(Schemas) |}).

Definition getSchemas : M (list (string * option ptr)) :=
  fun s => Some (s.(Schemas), s).

(** [doc.Components.Schemas[k] = v]. *)
Definition setSchema (k : string) (v : option ptr) : M unit :=
  fun s => Some (tt, {| objects := s.(objects); Schemas := setKey k v s.(Schemas) |}).

(** A loop over a list, in order. *)
Fixpoint forEach {A} (l : list A) (body : A -> M unit) : M unit :=
  match l with
  | [] => ret tt
  | x :: rest => let* _ := body x in forEach rest body
  end.

(** A loop that rebuilds every element. *)
Fixpoint mapEach {A B} (l : list A) (body : A -> M B) : M (list B) :=
  match l with
  | [] => ret []
  | x :: rest =>
      let* y := body x in
      let* ys := mapEach rest body in
      ret (y :: ys)
  end.

(** The same for a pointer that may be nil. *)
Definition mapPtr (body : ptr -> M ptr) (p : option ptr) : M (option ptr) :=
  match p with
  | None => ret None
  | Some q => let* q' := body q in ret (Some q')
  end.

(** ** Helpers of package spec *)

Definition componentsSchemasPrefix : string := "#/components/schemas/".

(** [s] without the prefix [pre], or [s] itself. *)
Fixpoint stripPrefix (pre s : string) : option string :=
  match pre, s with
  | EmptyString, _ => Some s
  | String a pre', String b s' => if Ascii.eqb a b then stripPrefix pre' s' else None
  | String _ _, EmptyString => None
  end.

(** Modelled from the spec: [Schema.GetKey] is not under src/.  The key of a
    schema is its mangled identity: for a reference the part of
    [#/components/schemas/<key>] after the prefix, otherwise the schema's own
    [Key]. *)
Definition GetKey (o : Schema) : string :=
  if nonempty o.(Ref) then default o.(Ref) (stripPrefix componentsSchemasPrefix o.(Ref))
  else o.(Key).

(** Modelled from the spec: [RefComponentSchemas] is not under src/.  It
    makes the canonical reference [#/components/schemas/<key>]. *)
Definition RefComponentSchemas (key : string) : Schema :=
  withRef (componentsSchemasPrefix +:+ key) NewSchema.

(** Modelled from the spec: [NewSpecificExtendType] is not under src/.  It
    records a generic schema with its argument schemas (kind specific). *)
Definition NewSpecificExtendType (ref : option ptr) (args : list (option ptr))
  : ExtendedTypeInfo :=
  {| ExtType := ExtendedTypeSpecific; ExtItems := None;
     Specific := Some {| SType := ref; Args := args |}; Param := None |}.

(** Modelled from the spec: [Unref] is not under src/.  It resolves a
    reference to the component schema it names; a schema that is not a
    reference is its own value. *)
Definition Unref (ref : ptr) : M (option ptr) :=
  let* o := load ref in
  if nonempty o.(Ref) then
    let* comps := getSchemas in
    ret (default None (lookupKey (GetKey o) comps))
  else ret (Some ref).

(** The copy of an extended-type-info, with [copy] for the schemas it points
    to. *)
Definition copyExt (copy : ptr -> M ptr) (ext : option ExtendedTypeInfo)
  : M (option ExtendedTypeInfo) :=
  match ext with
  | None => ret None
  | Some e =>
      let* extItems := mapPtr copy e.(ExtItems) in
      let* specific :=
        match e.(Specific) with
        | None => ret None
        | Some st =>
            let* t := mapPtr copy st.(SType) in
            let* a := mapEach st.(Args) (mapPtr copy) in
            ret (Some {| SType := t; Args := a |})
        end in
      ret (Some {| ExtType := e.(ExtType); ExtItems := extItems;
                   Specific := specific; Param := e.(Param) |})
  end.

(** [deepcopy.Copy] on what a schema points to: every schema reachable from
    the object is copied to a new object. *)
Fixpoint deepcopy (fuel : nat) (p : ptr) : M ptr :=
  match fuel with
  | 0 => panic
  | S fuel =>
      let* o := load p in
      let* items := mapPtr (deepcopy fuel) o.(Items) in
      let* additional := mapPtr (deepcopy fuel) o.(AdditionalProperties) in
      let* properties :=
        mapEach o.(Properties)
          (fun kv => let* v := mapPtr (deepcopy fuel) kv.2 in ret (kv.1, v)) in
      let* ext := copyExt (deepcopy fuel) o.(Ext) in
      alloc (withExt ext (withProperties properties
               (withAdditionalProperties additional (withItems items o))))
  end.

(** [Schema.Clone]. *)
Definition Clone (fuel : nat) (p : ptr) : M ptr := deepcopy fuel p.

(** ** Kinds of computations *)

(** A computation that only reads the store. *)
Definition reading {A} (m : M A) : Prop :=
  forall s a s', m s = Some (a, s') -> s' = s.

(** ** The normalizer *)

(** The key of an argument; a nil argument has none. *)
Definition argKey (a : option ptr) : M string :=
  let* p := must a in
  let* o := load p in
  ret (GetKey o).

(** [schemaNormalizer.modelKey]. *)
Definition modelKey (key : string) (args : list (option ptr)) : M string :=
  match args with
  | [] => ret key
  | first :: others =>
      let* k0 := argKey first in
      let* ks := mapEach others argKey in
      ret (key +:+ "[" +:+ k0 +:+ String.concat EmptyString (map (fun k => "," +:+ k) ks) +:+ "]")
  end.

(** [schemaNormalizer.mergeArgs]. *)
Definition mergeArgs (args args2 : list (option ptr)) : M (list (option ptr)) :=
  mapEach args (fun _arg =>
    let* p := must _arg in
    let* o := load p in
    match o.(Ext) with
    | Some ext =>
        if bool_decide (ext.(ExtType) = ExtendedTypeParam) then
          let* tp := must ext.(Param) in
          must (args2 !! tp.(Index))
        else ret _arg
    | None => ret _arg
    end).

(** The three loops that end [process], on the clone [schema] and on [res]
    (the clone again, or the argument a type parameter stands for); [rec] is
    [process] itself. *)
Definition processChildren (rec : option ptr -> list (option ptr) -> M (option ptr))
    (schema res : ptr) (args : list (option ptr)) : M unit :=
  let* so := load schema in
  let* _ :=
    match so.(Items) with
    | Some _ =>
        let* ro := load res in
        let* r := rec ro.(Items) args in
        update res (withItems r)
    | None => ret tt
    end in
  let* so := load schema in
  let* _ :=
    match so.(AdditionalProperties) with
    | Some _ =>
        let* ro := load res in
        let* r := rec ro.(AdditionalProperties) args in
        update res (withAdditionalProperties r)
    | None => ret tt
    end in
  let* so := load schema in
  forEach (map fst so.(Properties)) (fun key =>
    let* cur := load schema in
    let* property := must (lookupKey key cur.(Properties)) in
    let* r := rec property args in
    update schema (fun o => withProperties (setKey key r o.(Properties)) o)).

(** [schemaNormalizer.process]. *)
Fixpoint process (fuel : nat) (ref : option ptr) (args : list (option ptr)) : M (option ptr) :=
  match fuel with
  | 0 => panic
  | S fuel =>
      let* refp := must ref in
      let* schemaRef := Unref refp in
      let* unrefd := must schemaRef in
      let* res := Clone fuel unrefd in
      let* _ := update res (withSpecialized true) in
      let schema := res in
      let* so := load schema in
      let ext := so.(Ext) in
      let* refo := load refp in
      let* specificTypeKey := modelKey (GetKey refo) args in
      let* resRef := alloc (RefComponentSchemas specificTypeKey) in
      let finish (res : ptr) : M (option ptr) :=
        let* _ := processChildren (process fuel) schema res args in
        let* refo := load refp in
        if nonempty refo.(Ref) then ret (Some resRef) else ret (Some res) in
      let continue : M (option ptr) :=
        match ext with
        | Some e =>
            match e.(ExtType) with
            | ExtendedTypeSpecific =>
                let* st := must e.(Specific) in
                let* merged := mergeArgs st.(Args) args in
                process fuel st.(SType) merged
            | ExtendedTypeParam =>
                let* tp := must e.(Param) in
                let* arg := must (args !! tp.(Index)) in
                match arg with
                | None => ret None
                | Some a => finish a
                end
            | _ => finish res
            end
        | None => finish res
        end in
      if nonempty refo.(Ref) then
        let* comps := getSchemas in
        match lookupKey specificTypeKey comps with
        | Some _ => ret (Some resRef)
        | None =>
            let* _ := update res (withExt (Some (NewSpecificExtendType ref args))) in
            let* _ := setSchema specificTypeKey (Some res) in
            continue
        end
      else continue
  end.

(** A schema that is a usage-site marker: not a reference, with
    extended-type-info of kind specific. *)
Definition isMarker (o : Schema) : bool :=
  negb (nonempty o.(Ref)) &&
  match o.(Ext) with
  | Some e => bool_decide (e.(ExtType) = ExtendedTypeSpecific)
  | None => false
  end.

(** The call [s.process(ext.SpecificType.Type, ext.SpecificType.Args)] on a
    marker. *)
Definition processMarker (fuel : nat) (o : Schema) : M (option ptr) :=
  let* ext := must o.(Ext) in
  let* st := must ext.(Specific) in
  process fuel st.(SType) st.(Args).

(** [schemaNormalizer.processSchemaRef]. *)
Definition processSchemaRef (fuel : nat) (ref : option ptr) : M (option ptr) :=
  match ref with
  | None => ret ref
  | Some p =>
      let* o := load p in
      if isMarker o then processMarker fuel o else ret ref
  end.

(** The loop over the media types of a content map. *)
Definition processContent (fuel : nat) (content : list (string * option MediaType))
  : M (list (string * option MediaType)) :=
  mapEach content (fun kv =>
    match kv.2 with
    | None => ret kv
    | Some mediaType =>
        let* r := processSchemaRef fuel mediaType.(MediaSchema) in
        ret (kv.1, Some {| MediaSchema := r |})
    end).

(** [schemaNormalizer.processOperation]. *)
Definition processOperation (fuel : nat) (op : option Operation) : M (option Operation) :=
  match op with
  | None => ret None
  | Some op =>
      let* responses :=
        mapEach op.(Responses) (fun kv =>
          match kv.2 with
          | None => ret kv
          | Some ref =>
              let* content := processContent fuel ref.(ResponseContent) in
              ret (kv.1, Some {| ResponseContent := content |})
          end) in
      let* requestBody :=
        match op.(OpRequestBody) with
        | Some requestBody =>
            if nonempty requestBody.(RequestBodyRef) then ret (Some requestBody)
            else
              let* content := processContent fuel requestBody.(RequestBodyContent) in
              ret (Some {| RequestBodyRef := requestBody.(RequestBodyRef);
                           RequestBodyContent := content |})
        | None => ret None
        end in
      ret (Some {| Responses := responses; OpRequestBody := requestBody |})
  end.

(** [schemaNormalizer.processPathItem]. *)
Definition processPathItem (fuel : nat) (item : option PathItem) : M (option PathItem) :=
  match item with
  | None => ret None
  | Some item =>
      let* connect := processOperation fuel item.(Connect) in
      let* delete := processOperation fuel item.(Delete) in
      let* get := processOperation fuel item.(Get) in
      let* head := processOperation fuel item.(Head) in
      let* options := processOperation fuel item.(Options) in
      let* patch := processOperation fuel item.(Patch) in
      let* post := processOperation fuel item.(Post) in
      let* put := processOperation fuel item.(Put) in
      let* trace := processOperation fuel item.(Trace) in
      ret (Some {| Connect := connect; Delete := delete; Get := get; Head := head;
                   Options := options; Patch := patch; Post := post; Put := put;
                   Trace := trace |})
  end.

(** One round of the first loop of [normalize], for the component [key]. *)
Definition normalizeComponent (fuel : nat) (key : string) : M unit :=
  let* comps := getSchemas in
  match lookupKey key comps with
  | Some (Some p) =>
      let* o := load p in
      if isMarker o then
        let* r := processMarker fuel o in
        setSchema key r
      else ret tt
  | _ => ret tt
  end.

(** [schemaNormalizer.normalize].  The first loop ranges over the components
    the document has when the loop starts (of the entries created during a
    range Go may produce any or none; here none). *)
Definition normalize (fuel : nat) (doc : T) : option T :=
  let run : M (list (string * option PathItem)) :=
    let* comps := getSchemas in
    let* _ := forEach (map fst comps) (normalizeComponent fuel) in
    mapEach doc.(Paths) (fun kv =>
      let* item := processPathItem fuel kv.2 in
      ret (kv.1, item)) in
  match run doc.(store) with
  | Some (paths, s) => Some {| store := s; Paths := paths |}
  | None => None
  end.

(** ** What a document shows *)

(** A schema as it appears in the document, pointers followed. *)
Inductive View :=
| VNil
| VCut
| VSchema (ref type title key : string) (kind : option ExtendedType)
    (items additional : View) (properties : list (string * View)).

Fixpoint view (fuel : nat) (objs : list Schema) (p : option ptr) : View :=
  match fuel with
  | 0 => VCut
  | S fuel =>
      match p with
      | None => VNil
      | Some q =>
          match objs !! q with
          | None => VNil
          | Some o =>
              VSchema o.(Ref) o.(Type_) o.(Title) o.(Key)
                (ExtType <$> o.(Ext))
                (view fuel objs o.(Items))
                (view fuel objs o.(AdditionalProperties))
                (map (fun kv => (kv.1, view fuel objs kv.2)) o.(Properties))
          end
      end
  end.

(** The component schemas of a document, as they show. *)
Definition viewComponents (fuel : nat) (doc : T) : list (string * View) :=
  map (fun kv => (kv.1, view fuel doc.(store).(objects) kv.2)) doc.(store).(Schemas).

Definition viewContent (fuel : nat) (objs : list Schema)
    (content : list (string * option MediaType)) : list (string * View) :=
  map (fun kv => (kv.1, view fuel objs (kv.2 ≫= MediaSchema))) content.

(** The media-type schemas of an operation: responses, then request body. *)
Definition viewOperation (fuel : nat) (objs : list Schema) (op : option Operation)
  : list (list (string * View)) :=
  match op with
  | None => []
  | Some op =>
      map (fun kv => match kv.2 with
                     | Some r => viewContent fuel objs r.(ResponseContent)
                     | None => []
                     end) op.(Responses)
      ++ match op.(OpRequestBody) with
         | Some rb => [viewContent fuel objs rb.(RequestBodyContent)]
         | None => []
         end
  end.

Definition operations (item : PathItem) : list (option Operation) :=
  [item.(Connect); item.(Delete); item.(Get); item.(Head); item.(Options);
   item.(Patch); item.(Post); item.(Put); item.(Trace)].

Definition viewPaths (fuel : nat) (doc : T) :=
  map (fun kv => (kv.1, match kv.2 with
                        | Some item => map (viewOperation fuel doc.(store).(objects)) (operations item)
                        | None => []
                        end)) doc.(Paths).

(** The whole document, as it shows. *)
Definition viewDoc (fuel : nat) (doc : T) := (viewComponents fuel doc, viewPaths fuel doc).

(** ** What the claims speak of *)

(** The kind of a schema's extended-type-info. *)
Definition kindOf (o : Schema) : option ExtendedType := ExtType <$> o.(Ext).

(** Two versions of an object that agree on what identifies and classifies
    it: the reference, the key, the extended-type-info and the
    specialization flag. *)
Definition sameCore (o o' : Schema) : Prop :=
  o'.(Ref) = o.(Ref) /\ o'.(Key) = o.(Key) /\ o'.(Ext) = o.(Ext)
  /\ o'.(SpecializedFromGeneric) = o.(SpecializedFromGeneric).

(** Every object of [s] is still there in [s'], with the same core. *)
Definition stable (s s' : Store) : Prop :=
  forall p o, s.(objects) !! p = Some o ->
  exists o', s'.(objects) !! p = Some o' /\ sameCore o o'.

(** Every component of [s] is still bound to the same schema in [s']. *)
Definition kept (s s' : Store) : Prop :=
  forall k v, lookupKey k s.(Schemas) = Some v -> lookupKey k s'.(Schemas) = Some v.

(** A component value that is a specialization: an object with
    extended-type-info of kind specific, flagged as specialized. *)
Definition specialized (s : Store) (v : option ptr) : Prop :=
  exists p o, v = Some p /\ s.(objects) !! p = Some o
    /\ kindOf o = Some ExtendedTypeSpecific /\ o.(SpecializedFromGeneric) = true.

(** Every component of [s'] under a key that [s] does not have is a
    specialization. *)
Definition added (s s' : Store) : Prop :=
  forall k v, lookupKey k s.(Schemas) = None -> lookupKey k s'.(Schemas) = Some v ->
  specialized s' v.

(** What a call of [process] does to the store. *)
Definition grows (s s' : Store) : Prop := stable s s' /\ kept s s' /\ added s s'.

(** What [normalize] does to the store: as [grows], but a component that is
    itself a marker may be bound anew; the others stay. *)
Definition keptPlain (s s' : Store) : Prop :=
  (forall k, is_Some (lookupKey k s.(Schemas)) -> is_Some (lookupKey k s'.(Schemas)))
  /\ forall k p o, lookupKey k s.(Schemas) = Some (Some p) ->
       s.(objects) !! p = Some o -> isMarker o = false ->
       lookupKey k s'.(Schemas) = Some (Some p).

Definition evolves (s s' : Store) : Prop := stable s s' /\ keptPlain s s' /\ added s s'.

(** The objects and components of [s] are as they were; [s'] may have more
    objects. *)
Definition untouched (s s' : Store) : Prop :=
  s'.(Schemas) = s.(Schemas)
  /\ forall p o, s.(objects) !! p = Some o -> s'.(objects) !! p = Some o.

(** A computation every run of which lets the store grow, and one that only
    adds objects. *)
Definition preserving {A} (m : M A) : Prop :=
  forall s a s', m s = Some (a, s') -> grows s s'.

Definition appending {A} (m : M A) : Prop :=
  forall s a s', m s = Some (a, s') -> untouched s s'.

(** A schema at a usage site that is no marker: nil, or an object that is a
    reference or has no extended-type-info of kind specific. *)
Definition settled (s : Store) (r : option ptr) : Prop :=
  match r with
  | None => True
  | Some p => exists o, s.(objects) !! p = Some o /\ isMarker o = false
  end.


(** The media-type schemas [normalize] visits: those of the responses and of
    the request bodies that are not references. *)
Definition mediaSites (kv : string * option MediaType) : list (option ptr) :=
  match kv.2 with
  | Some mediaType => [mediaType.(MediaSchema)]
  | None => []
  end.

Definition contentSchemas (content : list (string * option MediaType)) : list (option ptr) :=
  flat_map mediaSites content.

Definition responseSites (kv : string * option Response) : list (option ptr) :=
  match kv.2 with
  | Some ref => contentSchemas ref.(ResponseContent)
  | None => []
  end.

Definition operationSchemas (op : option Operation) : list (option ptr) :=
  match op with
  | None => []
  | Some op =>
      flat_map responseSites op.(Responses)
      ++ match op.(OpRequestBody) with
         | Some requestBody =>
             if nonempty requestBody.(RequestBodyRef) then []
             else contentSchemas requestBody.(RequestBodyContent)
         | None => []
         end
  end.

Definition pathItemSchemas (item : option PathItem) : list (option ptr) :=
  match item with
  | None => []
  | Some item => flat_map operationSchemas (operations item)
  end.

Definition usageSites (paths : list (string * option PathItem)) : list (option ptr) :=
  flat_map (fun kv => pathItemSchemas kv.2) paths.

(** What [process] promises for a reference to a generic template: when
    [ref] is a reference to a component that is not itself of kind specific,
    the result [r] is no marker. *)
Definition settledFor (s : Store) (ref : option ptr) (s' : Store) (r : option ptr) : Prop :=
  forall t ot c oc,
    ref = Some t -> s.(objects) !! t = Some ot -> nonempty ot.(Ref) = true ->
    lookupKey (GetKey ot) s.(Schemas) = Some (Some c) ->
    s.(objects) !! c = Some oc -> kindOf oc <> Some ExtendedTypeSpecific ->
    settled s' r.



(** ** A document with one generic type *)

(** The document of [type Page[T any] struct { Items []T; Total int }] used
    as [Page[Goods]] in the response of [GET /goods]: the components [Goods]
    and [Page] (the template, whose [items] are an array of the type
    parameter), and the usage-site marker specific([Page], [[Goods]]) as the
    response schema. *)
Definition pageObjects : list Schema :=
  [ (* 0 *) withProperties [("name", Some 1)]
              (withExt (Some {| ExtType := ExtendedTypeObject; ExtItems := None;
                                Specific := None; Param := None |})
                 (withType "object" NewSchema));
    (* 1 *) withType "string" NewSchema;
    (* 2 *) withProperties [("items", Some 3); ("total", Some 5)]
              (withExt (Some {| ExtType := ExtendedTypeObject; ExtItems := None;
                                Specific := None; Param := None |})
                 (withType "object" NewSchema));
    (* 3 *) withItems (Some 4)
              (withExt (Some {| ExtType := ExtendedTypeArray; ExtItems := Some 4;
                                Specific := None; Param := None |})
                 (withType "array" NewSchema));
    (* 4 *) withExt (Some {| ExtType := ExtendedTypeParam; ExtItems := None;
                             Specific := None; Param := Some {| Index := 0 |} |})
              (withType "typeParam" NewSchema);
    (* 5 *) withType "integer" NewSchema;
    (* 6 *) RefComponentSchemas "Page";
    (* 7 *) RefComponentSchemas "Goods";
    (* 8 *) withExt (Some (NewSpecificExtendType (Some 6) [Some 7])) NewSchema ].

Definition operationWith (schema : ptr) : Operation :=
  {| Responses :=
       [("200", Some {| ResponseContent :=
                          [("application/json", Some {| MediaSchema := Some schema |})] |})];
     OpRequestBody := None |}.

Definition getOnly (op : Operation) : PathItem :=
  {| Connect := None; Delete := None; Get := Some op; Head := None; Options := None;
     Patch := None; Post := None; Put := None; Trace := None |}.

Definition pageDoc : T :=
  {| store := {| objects := pageObjects;
                 Schemas := [("Goods", Some 0); ("Page", Some 2)] |};
     Paths := [("/goods", Some (getOnly (operationWith 8)))] |}.

End Spec.

(* ===================================================================== *)
(** * Package plugins/gin: the handler analyzer                           *)
(* ===================================================================== *)

Module GinHandler.
Import GoLib Ast Spec.

(** ** Data *)

(** [spec.Parameter]. *)
Record Parameter_ := {
  Name : string;
  In : string;
  ParamRequired : bool;
  ParamDescription : string;
  ParamSchema : option ptr;
}.

(** The operation under construction ([analyzer.APISpec]). *)
Record APISpec := {
  Parameters_ : list Parameter_;
  RequestBody_ : option RequestBody;
  OperationID : string;
}.

(** A parsed heading comment: its text and whether it carries the required
    marker. *)
Record Comment := {
  Text : string;
  CommentRequired : bool;
}.

(** [LogLevel]. *)
Inductive LogLevel :=
| LogLevelSilent | LogLevelError | LogLevelWarn | LogLevelInfo | LogLevelDebug.

Definition levelRank (l : LogLevel) : nat :=
  match l with
  | LogLevelSilent => 0 | LogLevelError => 1 | LogLevelWarn => 2
  | LogLevelInfo => 3 | LogLevelDebug => 4
  end.

(** The global [Logger]: its level and the strict-mode flag the entry point
    stores in it. *)
Record Logger := {
  level : LogLevel;
  strictMode : bool;
}.

(** The messages of [parseBindWith]. *)
Inductive Message :=
| BindWithNeedsTwoArguments
| CannotInferContentType
| InferredContentType (contentType : string)
| CannotGetSchema.

(** The state of a handler analysis: the schema store of the document, the
    operation, the logger and the lines logged so far. *)
Record State := {
  doc : Store;
  spec : APISpec;
  logger : Logger;
  logged : list (LogLevel * Message);
}.

(** How a step of the analysis ends: it returns, the process exits
    ([os.Exit]) with a code, or it panics. *)
Inductive Result (A : Type) :=
| Returned (a : A) (s : State)
| Exited (code : nat) (s : State)
| Panicked.
Arguments Returned {A} a s.
Arguments Exited {A} code s.
Arguments Panicked {A}.

Definition H (A : Type) : Type := State -> Result A.

Definition hret {A} (a : A) : H A := fun s => Returned a s.
Definition hbind {A B} (m : H A) (k : A -> H B) : H B :=
  fun s => match m s with
           | Returned a s' => k a s'
           | Exited code s' => Exited code s'
           | Panicked => Panicked
           end.

Notation "'let+' x ':=' m 'in' k" := (hbind m (fun x => k))
  (at level 10, x pattern, m at level 100, k at level 200).

(** [os.Exit]. *)
Definition osExit {A} (code : nat) : H A := fun s => Exited code s.

(** A computation on the schema store, run on the document. *)
Definition onDoc {A} (m : M A) : H A :=
  fun s => match m s.(doc) with
           | Some (a, d) => Returned a {| doc := d; spec := s.(spec);
                                          logger := s.(logger); logged := s.(logged) |}
           | None => Panicked
           end.

Definition getSpec : H APISpec := fun s => Returned s.(spec) s.
Definition setSpec (sp : APISpec) : H unit :=
  fun s => Returned tt {| doc := s.(doc); spec := sp;
                          logger := s.(logger); logged := s.(logged) |}.

(** [Logger.Warn] and [Logger.Debug]: the line is written when the level
    admits it; the strict-mode flag plays no part. *)
Definition logState (l : LogLevel) (m : Message) (s : State) : State :=
  if bool_decide (levelRank l <= levelRank s.(logger).(level))
  then {| doc := s.(doc); spec := s.(spec); logger := s.(logger);
          logged := s.(logged) ++ [(l, m)] |}
  else s.
Definition logAt (l : LogLevel) (m : Message) : H unit :=
  fun s => Returned tt (logState l m s).
Definition LogWarn (m : Message) : H unit := logAt LogLevelWarn m.
Definition LogDebug (m : Message) : H unit := logAt LogLevelDebug m.

(** ** Constants and helpers of other packages *)

Definition MimeTypeJson : string := "application/json".
Definition MimeApplicationXml : string := "application/xml".
Definition MimeTypeFormData : string := "multipart/form-data".

(** Modelled from the spec: [spec.NewPathParameter], [spec.NewQueryParameter]
    and [Parameter.WithSchema] are not under src/.  A path parameter has
    [in = path] and is required (section 3); a query parameter has
    [in = query]. *)
Definition NewPathParameter (name : string) : Parameter_ :=
  {| Name := name; In := "path"; ParamRequired := true;
     ParamDescription := EmptyString; ParamSchema := None |}.
Definition NewQueryParameter (name : string) : Parameter_ :=
  {| Name := name; In := "query"; ParamRequired := false;
     ParamDescription := EmptyString; ParamSchema := None |}.
Definition WithSchema (schema : option ptr) (p : Parameter_) : Parameter_ :=
  {| Name := p.(Name); In := p.(In); ParamRequired := p.(ParamRequired);
     ParamDescription := p.(ParamDescription); ParamSchema := schema |}.
Definition withParamRequired (r : bool) (p : Parameter_) : Parameter_ :=
  {| Name := p.(Name); In := p.(In); ParamRequired := r;
     ParamDescription := p.(ParamDescription); ParamSchema := p.(ParamSchema) |}.
Definition withParamDescription (d : string) (p : Parameter_) : Parameter_ :=
  {| Name := p.(Name); In := p.(In); ParamRequired := p.(ParamRequired);
     ParamDescription := d; ParamSchema := p.(ParamSchema) |}.

(** Modelled from the spec: [APISpec.AddParameter] is not under src/.  It
    adds the parameter to the operation's parameters; a nil parameter adds
    nothing. *)
Definition AddParameter (param : option Parameter_) : H unit :=
  match param with
  | Some p =>
      let+ sp := getSpec in
      setSpec {| Parameters_ := sp.(Parameters_) ++ [p];
                 RequestBody_ := sp.(RequestBody_); OperationID := sp.(OperationID) |}
  | None => hret tt
  end.

(** Modelled from the spec: [NewRequestBody().WithSchemaRef(schema, types)]
    is not under src/.  It is a request body whose content has the schema
    under each of the content types. *)
Definition requestBodyWithSchemaRef (schema : option ptr) (contentTypes : list string)
  : RequestBody :=
  {| RequestBodyRef := EmptyString;
     RequestBodyContent := map (fun t => (t, Some {| MediaSchema := schema |})) contentTypes |}.

(** [spec.NewStringSchema] and [spec.NewObjectSchema]. *)
Definition NewStringSchema : Schema := withType "string" NewSchema.
Definition NewObjectSchema : Schema :=
  withExt (Some {| ExtType := ExtendedTypeObject; ExtItems := None;
                   Specific := None; Param := None |})
    (withType "object" NewSchema).

(** [Schema.WithProperty]. *)
Definition WithProperty (name : string) (property : option ptr) (o : Schema) : Schema :=
  withProperties (setKey name property o.(Properties)) o.

Section Analyzer.

(** Functions of other packages the analyzer calls: [strconv.Unquote] (the
    value and whether it succeeded), [tag.Parse] (the tag's pairs) and
    [strcase.ToCamel]. *)
Variable Unquote : string -> string * bool.
Variable tagParse : string -> list (string * string).
Variable ToCamel : string -> string.

(** What the analyzer asks the analysis context: the schema of an expression
    for a content type ([GetSchemaByExpr], which may add schemas to the
    document), the schema builder run with a field-name parser
    ([NewSchemaBuilder(...).WithFieldNameParser(f).ParseExpr]), and the parsed
    heading comment of a call. *)
Record Context := {
  GetSchemaByExpr : Expr -> string -> M (option ptr);
  ParseExpr : (string -> Field -> option string) -> Expr -> M unit;
  headingComment : Expr -> option Comment;
}.

Variable ctx : Context.

(** [ctx.ParseComment(ctx.GetHeadingCommentOf(call.Pos()))]: the accessors of
    a missing comment give the empty text and false. *)
Definition commentOf (call : Expr) : Comment :=
  default {| Text := EmptyString; CommentRequired := false |} (ctx.(headingComment) call).

Definition callArgs (call : Expr) : list Expr :=
  match call with
  | CallExpr _ args => args
  | _ => []
  end.

(** ** Parameter_ accessors *)

(** [handlerAnalyzer.primitiveParam]; [None] is the nil parameter. *)
Definition primitiveParam (call : Expr) (in_ : string) : H (option Parameter_) :=
  match callArgs call with
  | BasicLit _ value :: _ =>
      let name := Trim dquote value in
      let+ paramSchema := onDoc (alloc (withType "string" (withTitle name NewSchema))) in
      let comment := commentOf call in
      if bool_decide (in_ = "path") then
        hret (Some (withParamDescription comment.(Text)
                      (WithSchema (Some paramSchema) (NewPathParameter name))))
      else if bool_decide (in_ = "query") then
        hret (Some (withParamDescription comment.(Text)
                      (withParamRequired comment.(CommentRequired)
                         (WithSchema (Some paramSchema) (NewQueryParameter name)))))
      else hret None
  | _ => hret None
  end.

(** [handlerAnalyzer.primitiveParamWithDefault]. *)
Definition primitiveParamWithDefault (call : Expr) (in_ : string) : H (option Parameter_) :=
  match callArgs call with
  | _ :: arg1 :: _ =>
      let+ param := primitiveParam call in_ in
      match param with
      | None => hret None
      | Some param =>
          match arg1 with
          | BasicLit _ value =>
              let+ schema := onDoc (must param.(ParamSchema)) in
              let+ _ := onDoc (update schema (withDefault (Some (Unquote value).1))) in
              hret (Some param)
          | _ => hret None
          end
      end
  | _ => hret None
  end.

(** [handlerAnalyzer.parsePrimitiveParam]. *)
Definition parsePrimitiveParam (call : Expr) (in_ : string) : H unit :=
  let+ param := primitiveParam call in_ in
  AddParameter param.

(** [handlerAnalyzer.parsePrimitiveParamWithDefault]. *)
Definition parsePrimitiveParamWithDefault (call : Expr) (in_ : string) : H unit :=
  let+ param := primitiveParamWithDefault call in_ in
  AddParameter param.

(** [handlerAnalyzer.parseFormData]; [options] are applied to the property
    schema. *)
Definition parseFormData (call : Expr) (fieldType : string) (options : list (ptr -> M unit))
  : H unit :=
  match callArgs call with
  | BasicLit _ value :: _ =>
      let name := Trim dquote value in
      let+ paramSchema := onDoc (alloc (withType fieldType (withTitle name NewSchema))) in
      let+ _ := onDoc (forEach options (fun option => option paramSchema)) in
      let+ sp := getSpec in
      let requestBody :=
        default {| RequestBodyRef := EmptyString; RequestBodyContent := [] |}
                sp.(RequestBody_) in
      let mediaType :=
        default {| MediaSchema := None |}
                (default None (lookupKey MimeTypeFormData requestBody.(RequestBodyContent))) in
      let comment := commentOf call in
      let+ _ := onDoc (update paramSchema (withDescription comment.(Text))) in
      let+ bound :=
        match mediaType.(MediaSchema) with
        | Some schemaRef =>
            let+ unrefd := onDoc (Unref schemaRef) in
            let+ schema := onDoc (must unrefd) in
            let+ _ := onDoc (update schema (WithProperty name (Some paramSchema))) in
            hret (schema, schemaRef)
        | None =>
            let title := ToCamel sp.(OperationID) +:+ "Request" in
            let+ schema := onDoc (alloc (WithProperty name (Some paramSchema)
                                           (withTitle title NewObjectSchema))) in
            let+ _ := onDoc (setSchema title (Some schema)) in
            let+ schemaRef := onDoc (alloc (RefComponentSchemas title)) in
            hret (schema, schemaRef)
        end in
      let schema := bound.1 in
      let schemaRef := bound.2 in
      let+ _ := setSpec
        {| Parameters_ := sp.(Parameters_);
           RequestBody_ :=
             Some {| RequestBodyRef := requestBody.(RequestBodyRef);
                     RequestBodyContent :=
                       setKey MimeTypeFormData (Some {| MediaSchema := Some schemaRef |})
                              requestBody.(RequestBodyContent) |};
           OperationID := sp.(OperationID) |} in
      if comment.(CommentRequired) then
        onDoc (update schema (fun o => withRequired (o.(Required) ++ [name]) o))
      else hret tt
  | _ => hret tt
  end.

(** ** Bindings *)

(** [handlerAnalyzer.parseUriFieldName]; [None] is the panic of reading the
    tag of a field that has none. *)
Definition parseUriFieldName (name : string) (field : Field) : option string :=
  match field.(Tag) with
  | None => None
  | Some value =>
      match lookupKey "uri" (tagParse value) with
      | None => Some name
      | Some uriTag => Some (Cut comma uriTag).1.1
      end
  end.

(** The loop of [parseBindUri] over the properties of the schema. *)
Definition bindUriProperty (kv : string * option ptr) : H unit :=
  let+ sp := getSpec in
  let+ _ := setSpec
    {| Parameters_ := filter (fun ref => ref.(Name) <> kv.1) sp.(Parameters_);
       RequestBody_ := sp.(RequestBody_); OperationID := sp.(OperationID) |} in
  let+ property := onDoc (must kv.2) in
  let+ o := onDoc (load property) in
  AddParameter (Some (withParamDescription o.(Description)
                        (WithSchema kv.2 (NewPathParameter kv.1)))).

Fixpoint forEachH {A} (l : list A) (body : A -> H unit) : H unit :=
  match l with
  | [] => hret tt
  | x :: rest => let+ _ := body x in forEachH rest body
  end.

(** [handlerAnalyzer.parseBindUri]. *)
Definition parseBindUri (call : Expr) : H unit :=
  match callArgs call with
  | [arg0] =>
      let+ _ := onDoc (ctx.(ParseExpr) parseUriFieldName arg0) in
      let+ schema := onDoc (ctx.(GetSchemaByExpr) arg0 EmptyString) in
      match schema with
      | None => hret tt
      | Some schema =>
          let+ unrefd := onDoc (Unref schema) in
          match unrefd with
          | None => hret tt
          | Some schema =>
              let+ o := onDoc (load schema) in
              forEachH o.(Properties) bindUriProperty
          end
      end
  | _ => hret tt
  end.

(** [handlerAnalyzer.getContentTypeFromBinding]. *)
Definition getContentTypeFromBinding (bindingExpr : Expr) : string :=
  match bindingExpr with
  | SelectorExpr _ sel =>
      if bool_decide (sel = "JSON") then MimeTypeJson
      else if bool_decide (sel = "XML") then MimeApplicationXml
      else if bool_decide (sel = "YAML") then "application/yaml"
      else if bool_decide (sel = "TOML") then "application/toml"
      else if bool_decide (sel = "Form") then MimeTypeFormData
      else if bool_decide (sel = "FormPost") then MimeTypeFormData
      else if bool_decide (sel = "FormMultipart") then "multipart/form-data"
      else if bool_decide (sel = "ProtoBuf") then "application/x-protobuf"
      else if bool_decide (sel = "MsgPack") then "application/x-msgpack"
      else if bool_decide (sel = "Query") then "application/x-www-form-urlencoded"
      else EmptyString
  | _ => EmptyString
  end.

(** [handlerAnalyzer.parseBindWith]. *)
Definition parseBindWith (call : Expr) : H unit :=
  match callArgs call with
  | arg0 :: arg1 :: _ =>
      let contentType := getContentTypeFromBinding arg1 in
      let+ _ :=
        if nonempty contentType then hret tt
        else let+ _ := LogWarn CannotInferContentType in osExit 1 in
      let+ _ := LogDebug (InferredContentType contentType) in
      let+ schema := onDoc (ctx.(GetSchemaByExpr) arg0 contentType) in
      let+ schema :=
        match schema with
        | Some schema => hret schema
        | None => let+ _ := LogWarn CannotGetSchema in osExit 1
        end in
      let+ _ :=
        match ctx.(headingComment) call with
        | Some comment => onDoc (update schema (withDescription comment.(Text)))
        | None => hret tt
        end in
      let+ sp := getSpec in
      setSpec {| Parameters_ := sp.(Parameters_);
                 RequestBody_ := Some (requestBodyWithSchemaRef (Some schema) [contentType]);
                 OperationID := sp.(OperationID) |}
  | _ => LogWarn BindWithNeedsTwoArguments
  end.

(** The option [PostFormArray] passes to [parseFormData]: the property is an
    array of strings. *)
Definition arrayOfStrings (s : ptr) : M unit :=
  let* items := alloc NewStringSchema in
  update s (fun o =>
    withExt (Some {| ExtType := ExtendedTypeArray; ExtItems := Some items;
                     Specific := None; Param := None |})
      (withItems (Some items) o)).

(** The callback of [handlerAnalyzer.Parse], for the context methods whose
    handling is modelled here; the request-body and response methods other
    than [BindUri] and [BindWith] are left out. *)
Definition Parse (call : Expr) (fnName : string) : H unit :=
  if bool_decide (fnName ∈ ["BindUri"; "ShouldBindUri"]) then parseBindUri call
  else if bool_decide (fnName ∈ ["ShouldBindWith"; "MustBindWith"]) then parseBindWith call
  else if bool_decide (fnName ∈ ["Query"; "ShouldBindQuery"]) then parsePrimitiveParam call "query"
  else if bool_decide (fnName = "Param") then parsePrimitiveParam call "path"
  else if bool_decide (fnName ∈ ["PostForm"; "GetPostForm"]) then parseFormData call "string" []
  else if bool_decide (fnName = "FormFile") then parseFormData call "file" []
  else if bool_decide (fnName ∈ ["PostFormArray"; "GetPostFormArray"])
       then parseFormData call "array" [arrayOfStrings]
  else if bool_decide (fnName = "DefaultQuery") then parsePrimitiveParamWithDefault call "query"
  else if bool_decide (fnName = "DefaultPostForm") then parseFormData call "string" []
  else hret tt.

End Analyzer.

(** ** A handler *)

(** [strconv.Unquote] on interpreted string literals without escape
    sequences: the text between the quotes. *)
Definition unquotePlain (lit : string) : string * bool :=
  match lit with
  | String a rest =>
      if Ascii.eqb a dquote then
        match TrimRight dquote rest with
        | r => if bool_decide (r +:+ String dquote EmptyString = rest) then (r, true)
               else (EmptyString, false)
        end
      else (EmptyString, false)
  | EmptyString => (EmptyString, false)
  end.

(** A struct tag with a [uri] key, as [tag.Parse] gives it. *)
Definition tagsOfGuid (_ : string) : list (string * string) := [("uri", "guid,omitempty")].

Definition camelShop (_ : string) : string := "ShopGoodsDown".

(** A context in which every expression has the schema at address 0 and no
    call has a heading comment. *)
Definition plainContext : Context :=
  {| GetSchemaByExpr := fun _ _ => ret (Some 0);
     ParseExpr := fun _ _ => ret tt;
     headingComment := fun _ => None |}.

(** A context that finds no schema for any expression. *)
Definition blindContext : Context :=
  {| GetSchemaByExpr := fun _ _ => ret None;
     ParseExpr := fun _ _ => ret tt;
     headingComment := fun _ => None |}.

(** ** What the claims speak of *)

(** The state with the strict-mode flag of its logger set. *)
Definition withStrictMode (strict : bool) (s : State) : State :=
  {| doc := s.(doc); spec := s.(spec);
     logger := {| level := s.(logger).(level); strictMode := strict |};
     logged := s.(logged) |}.

(** The schema of a parameter is a string schema titled by the parameter's
    name. *)
Definition stringSchema (d : Store) (param : Parameter_) : Prop :=
  exists p o, param.(ParamSchema) = Some p /\ d.(objects) !! p = Some o
              /\ o.(Type_) = "string" /\ o.(Title) = param.(Name).



(** The schema of the form-data media type of the request body. *)
Definition formMediaSchema (sp : APISpec) : option ptr :=
  sp.(RequestBody_) ≫= fun requestBody =>
  lookupKey MimeTypeFormData requestBody.(RequestBodyContent) ≫= fun mediaType =>
  mediaType ≫= MediaSchema.

(** The schema object the form-data media type stands for, when its
    reference resolves. *)
Definition formSchema (s : State) (schema : ptr) : Prop :=
  exists schemaRef, formMediaSchema s.(spec) = Some schemaRef
    /\ Unref schemaRef s.(doc) = Some (Some schema, s.(doc))
    /\ is_Some (s.(doc).(objects) !! schema).

(** A handler state [parseFormData] can extend: the form-data media type has
    no schema yet, or its schema resolves. *)
Definition formReady (s : State) : Prop :=
  formMediaSchema s.(spec) = None \/ exists schema, formSchema s schema.

(** The state with other parameters, and with another document. *)
Definition withParameters (params : list Parameter_) (s : State) : State :=
  {| doc := s.(doc);
     spec := {| Parameters_ := params; RequestBody_ := s.(spec).(RequestBody_);
                OperationID := s.(spec).(OperationID) |};
     logger := s.(logger); logged := s.(logged) |}.



(** The property [parseFormData] makes for a string field, and the query
    parameter [primitiveParam] makes. *)
Definition formProperty (ctx : Context) (call : Expr) (name : string) : Schema :=
  withDescription (commentOf ctx call).(Text) (withType "string" (withTitle name NewSchema)).


(** The form schema of the request body has the property under the name. *)
Definition hasFormProperty (s' : State) (name : string) (property : Schema) : Prop :=
  exists schema so p,
    formSchema s' schema
    /\ s'.(doc).(objects) !! schema = Some so
    /\ lookupKey name so.(Properties) = Some (Some p)
    /\ s'.(doc).(objects) !! p = Some property.

Definition emptySpec : APISpec :=
  {| Parameters_ := []; RequestBody_ := None; OperationID := "shop.GoodsDown" |}.

(** The start of a handler analysis on an empty document, strict mode off. *)
Definition startState : State :=
  {| doc := {| objects := []; Schemas := [] |};
     spec := emptySpec;
     logger := {| level := LogLevelInfo; strictMode := false |};
     logged := [] |}.


(** [c.X("a", "b")] for a context method [X] and two interpreted string
    literals, and [c.X(&req, b)] with an identifier as the binding. *)
Definition accessorCall (method a b : string) : Expr :=
  CallExpr (SelectorExpr (Ident "c") method)
    [BasicLit STRING (quote a); BasicLit STRING (quote b)].

Definition bindWithIdent (method : string) : Expr :=
  CallExpr (SelectorExpr (Ident "c") method) [UnaryExpr (Ident "req"); Ident "b"].




End GinHandler.

(* ===================================================================== *)
(** * Package spec: what normalization leaves alone                       *)
(* ===================================================================== *)

Module SpecShape.
Import GoLib Spec.

(** A document without markers: every component and every media-type schema
    of the operations is nil or a schema object that is no marker. *)
Definition markerFree (doc : T) : Prop :=
  Forall (settled doc.(store)) (map snd doc.(store).(Schemas))
  /\ Forall (settled doc.(store)) (usageSites doc.(Paths)).

(** The paths of a document without their media-type schemas: the path
    keys, the operations of each path, their response codes and media-type
    keys, and the request bodies. *)
Definition bareContent (content : list (string * option MediaType))
  : list (string * option MediaType) :=
  map (fun kv => (kv.1, (fun _ => {| MediaSchema := None |}) <$> kv.2)) content.

Definition bareOperation (op : option Operation) : option Operation :=
  (fun op =>
     {| Responses :=
          map (fun kv =>
                 (kv.1, (fun r => {| ResponseContent := bareContent r.(ResponseContent) |})
                          <$> kv.2)) op.(Responses);
        OpRequestBody :=
          (fun requestBody =>
             {| RequestBodyRef := requestBody.(RequestBodyRef);
                RequestBodyContent := bareContent requestBody.(RequestBodyContent) |})
          <$> op.(OpRequestBody) |}) <$> op.

Definition barePathItem (item : option PathItem) : option PathItem :=
  (fun item =>
     {| Connect := bareOperation item.(Connect); Delete := bareOperation item.(Delete);
        Get := bareOperation item.(Get); Head := bareOperation item.(Head);
        Options := bareOperation item.(Options); Patch := bareOperation item.(Patch);
        Post := bareOperation item.(Post); Put := bareOperation item.(Put);
        Trace := bareOperation item.(Trace) |}) <$> item.

Definition barePaths (paths : list (string * option PathItem))
  : list (string * option PathItem) :=
  map (fun kv => (kv.1, barePathItem kv.2)) paths.

(** The request bodies that are references, by path and operation. *)
Definition referencedBody (op : option Operation) : option RequestBody :=
  op ≫= fun op => op.(OpRequestBody) ≫= fun requestBody =>
  if nonempty requestBody.(RequestBodyRef) then Some requestBody else None.

Definition referencedBodies (paths : list (string * option PathItem))
  : list (string * list (option RequestBody)) :=
  map (fun kv => (kv.1, match kv.2 with
                        | Some item => map referencedBody (operations item)
                        | None => []
                        end)) paths.

(** How [mergeArgs] treats one argument: a type parameter gives way to the
    argument of the outer list at its index, anything else stays. *)
Definition merged (s : Store) (args2 : list (option ptr)) (a b : option ptr) : Prop :=
  exists p o, a = Some p /\ s.(objects) !! p = Some o
    /\ match o.(Ext) with
       | Some ext =>
           if bool_decide (ext.(ExtType) = ExtendedTypeParam)
           then exists tp, ext.(Param) = Some tp /\ args2 !! tp.(Index) = Some b
           else b = a
       | None => b = a
       end.

(** [GET /goods] answering with the schema [Goods] by reference: a document
    without markers. *)
Definition goodsDoc : T :=
  {| store := pageDoc.(store);
     Paths := [("/goods", Some (getOnly (operationWith 7)))] |}.

End SpecShape.

(* ===================================================================== *)
(** * Package plugins/gin: struct bindings                                *)
(* ===================================================================== *)

Module GinBindings.
Import GoLib Ast Spec GinHandler.

(** [handlerAnalyzer.paramNameParser]: the name of a bound field as a
    parameter and where the parameter is; [tags] is the parsed struct tag. *)
Definition paramNameParser (fieldName : string) (tags : list (string * string))
  : string * string :=
  match lookupKey "form" tags with
  | Some name => ((Cut comma name).1.1, "query")
  | None => (fieldName, "query")
  end.

(** [handlerAnalyzer.getDefaultContentType], on [p.spec.Consumes] and
    [p.api.Method]. *)
Definition getDefaultContentType (consumes : list string) (method : string) : string :=
  match consumes with
  | first :: _ => first
  | [] =>
      if bool_decide (method ∈ ["GET"; "HEAD"]) then MimeTypeFormData else MimeTypeJson
  end.

Section Bindings.

(** The analysis context, and [NewParamParser(ctx, nameParser).Parse]: the
    parameters of the struct behind an expression. *)
Variable ctx : Context.
Variable paramParser :
  (string -> list (string * string) -> string * string) -> Expr -> M (list Parameter_).

(** [handlerAnalyzer.parseBindWithContentType]. *)
Definition parseBindWithContentType (call : Expr) (contentType : string) : H unit :=
  match callArgs call with
  | [arg0] =>
      let+ schema := onDoc (ctx.(GetSchemaByExpr) arg0 contentType) in
      match schema with
      | None => hret tt
      | Some schema =>
          let+ _ :=
            match ctx.(headingComment) call with
            | Some comment => onDoc (update schema (withDescription comment.(Text)))
            | None => hret tt
            end in
          let+ sp := getSpec in
          setSpec {| Parameters_ := sp.(Parameters_);
                     RequestBody_ := Some (requestBodyWithSchemaRef (Some schema) [contentType]);
                     OperationID := sp.(OperationID) |}
      end
  | _ => hret tt
  end.

(** [handlerAnalyzer.parseBinding], for the method of the route and the
    content types the operation consumes. *)
Definition parseBinding (method : string) (consumes : list string) (call : Expr) : H unit :=
  match callArgs call with
  | [arg0] =>
      if bool_decide (method ∈ ["GET"; "HEAD"; "OPTIONS"; "DELETE"]) then
        let+ params := onDoc (paramParser paramNameParser arg0) in
        forEachH params (fun param => AddParameter (Some param))
      else
        parseBindWithContentType call (getDefaultContentType consumes method)
  | _ => hret tt
  end.

(** The callback of [handlerAnalyzer.Parse] for the struct bindings with a
    fixed content type. *)
Definition ParseBinding (method : string) (consumes : list string) (call : Expr)
    (fnName : string) : H unit :=
  if bool_decide (fnName ∈ ["Bind"; "ShouldBind"]) then parseBinding method consumes call
  else if bool_decide (fnName ∈ ["BindJSON"; "ShouldBindJSON"])
       then parseBindWithContentType call MimeTypeJson
  else if bool_decide (fnName ∈ ["BindXML"; "ShouldBindXML"])
       then parseBindWithContentType call MimeApplicationXml
  else if bool_decide (fnName ∈ ["BindYAML"; "ShouldBindYAML"])
       then parseBindWithContentType call "application/yaml"
  else if bool_decide (fnName ∈ ["BindTOML"; "ShouldBindTOML"])
       then parseBindWithContentType call "application/toml"
  else hret tt.

End Bindings.

(** The document and the operation of a state, without the log. *)
Definition outcome {A} (r : Result A) : option (A * Store * APISpec) :=
  match r with
  | Returned a s => Some (a, s.(doc), s.(spec))
  | _ => None
  end.

(** [c.ShouldBindJSON(&req)] and [c.ShouldBindWith(&req, binding.JSON)]. *)
Definition bindJSONCall : Expr :=
  CallExpr (SelectorExpr (Ident "c") "ShouldBindJSON") [UnaryExpr (Ident "req")].
Definition bindWithJSONCall : Expr :=
  CallExpr (SelectorExpr (Ident "c") "ShouldBindWith")
    [UnaryExpr (Ident "req"); SelectorExpr (Ident "binding") "JSON"].

(** A document with one schema, at address 0. *)
Definition reqState : State :=
  {| doc := {| objects := [NewObjectSchema]; Schemas := [] |};
     spec := emptySpec;
     logger := {| level := LogLevelInfo; strictMode := false |};
     logged := [] |}.

End GinBindings.

(* ===================================================================== *)
(** * Package eapi: the logger                                            *)
(* ===================================================================== *)

Module Log.
Import GoLib GinHandler.

(** [LogLevel.String], on the five levels. *)
Definition LogLevel_String (l : LogLevel) : string :=
  match l with
  | LogLevelSilent => "silent"
  | LogLevelError => "error"
  | LogLevelWarn => "warn"
  | LogLevelInfo => "info"
  | LogLevelDebug => "debug"
  end.

(** [ParseLogLevel], with [strings.ToLower] as [toLower]. *)
Definition ParseLogLevel (toLower : string -> string) (level : string) : LogLevel :=
  let l := toLower level in
  if bool_decide (l = "silent") then LogLevelSilent
  else if bool_decide (l = "error") then LogLevelError
  else if bool_decide (l = "warn") || bool_decide (l = "warning") then LogLevelWarn
  else if bool_decide (l = "info") then LogLevelInfo
  else if bool_decide (l = "debug") then LogLevelDebug
  else LogLevelInfo.

(** [strings.ToLower] on ASCII text. *)
Definition lowerByte (c : ascii) : ascii :=
  let n := nat_of_ascii c in
  if (65 <=? n) && (n <=? 90) then ascii_of_nat (n + 32) else c.

Fixpoint lowerASCII (s : string) : string :=
  match s with
  | EmptyString => EmptyString
  | String c rest => String (lowerByte c) (lowerASCII rest)
  end.

(** Text of ASCII lower-case letters. *)
Fixpoint lowerLetters (s : string) : bool :=
  match s with
  | EmptyString => true
  | String c rest =>
      (97 <=? nat_of_ascii c) && (nat_of_ascii c <=? 122) && lowerLetters rest
  end.

(** The two writers of a logger. *)
Inductive Writer := Output | ErrorOut.

(** A line written by the logger: the writer it goes to, the level tag
    [formatMessage] puts in front of it ([None] for a line written as it
    is), and the message. *)
Record Line := {
  writer : Writer;
  tag : option string;
  message : string;
}.

(** [Logger.Error], [Logger.Warn], [Logger.Info], [Logger.Debug]: the lines
    written, for the message after formatting. *)
Definition Error (l : Logger) (m : string) : list Line :=
  if bool_decide (levelRank l.(level) < levelRank LogLevelError) then []
  else [ {| writer := ErrorOut; tag := Some "ERROR"; message := m |} ].


Definition Info (l : Logger) (m : string) : list Line :=
  if bool_decide (levelRank l.(level) < levelRank LogLevelInfo) then []
  else [ {| writer := Output; tag := Some "INFO"; message := m |} ].




End Log.

(* ===================================================================== *)
(** * Package eapi: types of parameters                                   *)
(* ===================================================================== *)

Module ParamTypes.

(** [types.BasicKind], and [types.Type] as far as the parameter parser
    tells types apart. *)
Inductive BasicKind :=
| Invalid | Bool | Int | Int8 | Int16 | Int32 | Int64
| Uint | Uint8 | Uint16 | Uint32 | Uint64 | Uintptr
| Float32 | Float64 | Complex64 | Complex128 | String_ | UnsafePointer
| UntypedBool | UntypedInt | UntypedRune | UntypedFloat | UntypedComplex
| UntypedString | UntypedNil.

Inductive GoType :=
| Named (underlying : GoType)
| Basic (kind : BasicKind)
| OtherType.

(** [ParamParser.basicType]. *)
Definition basicType (name : string) : string :=
  if bool_decide (name ∈ ["uint"; "int"; "uint8"; "int8"; "uint16"; "int16";
                          "uint32"; "int32"; "uint64"; "int64"; "byte"; "rune"])
  then "integer"
  else if bool_decide (name ∈ ["float32"; "float64"]) then "number"
  else if bool_decide (name = "bool") then "boolean"
  else if bool_decide (name = "string") then "string"
  else EmptyString.

(** [ParamParser.parseTypeOfBasicType]. *)
Definition parseTypeOfBasicType (kind : BasicKind) : string * string :=
  match kind with
  | Bool => ("boolean", EmptyString)
  | Int | Int8 | Int16 | Int32 | Int64
  | Uint | Uint8 | Uint16 | Uint32 | Uint64 | Uintptr => ("integer", EmptyString)
  | Float32 | Float64 | Complex64 | Complex128 => ("number", EmptyString)
  | String_ => ("string", EmptyString)
  | _ => (EmptyString, EmptyString)
  end.

(** [ParamParser.parseTypeOfType]: the call on the underlying type of a named
    type is made and its result dropped. *)
Fixpoint parseTypeOfType (t : GoType) : string * string :=
  match t with
  | Named underlying =>
      let _ := parseTypeOfType underlying in
      (EmptyString, EmptyString)
  | Basic kind => parseTypeOfBasicType kind
  | OtherType => (EmptyString, EmptyString)
  end.

(** [ParamParser.typeOfIdent]; [typeOf] is
    [ctx.Package().TypesInfo.TypeOf], [None] for nil. *)
Definition typeOfIdent (typeOf : string -> option GoType) (name : string) : string * string :=
  let paramType := basicType name in
  if bool_decide (paramType <> EmptyString) then (paramType, EmptyString)
  else match typeOf name with
       | None => (EmptyString, EmptyString)
       | Some t => parseTypeOfType t
       end.

(** Type information in which [ID] is [type ID int64] and nothing else is
    known. *)
Definition typesOfID (name : string) : option GoType :=
  if bool_decide (name = "ID") then Some (Named (Basic Int64)) else None.

End ParamTypes.

(* ===================================================================== *)
(** * Package spec: schema errors and unique items                        *)
(* ===================================================================== *)

Module SchemaErrors.

(** [SchemaError], with the fields the path functions use. *)
Record SchemaError := {
  reversePath : list string;
  SchemaField : string;
  Reason : string;
}.

(** [markSchemaErrorKey] on a [*SchemaError]. *)
Definition markSchemaErrorKey (err : SchemaError) (key : string) : SchemaError :=
  {| reversePath := err.(reversePath) ++ [key];
     SchemaField := err.(SchemaField); Reason := err.(Reason) |}.

(** The loop of [SchemaError.JSONPointer]: the elements at [left] and
    [right] change places while [left < right]; [fuel] bounds the rounds. *)
Fixpoint swapLoop (fuel : nat) (left right : Z) (path : list string) : option (list string) :=
  if bool_decide (left < right)%Z then
    match fuel with
    | 0 => None
    | S fuel =>
        match path !! Z.to_nat left, path !! Z.to_nat right with
        | Some l, Some r =>
            swapLoop fuel (left + 1) (right - 1)
              (<[Z.to_nat right := l]> (<[Z.to_nat left := r]> path))
        | _, _ => None
        end
    end
  else Some path.

(** [SchemaError.JSONPointer]: the loop runs on a copy of the reverse path,
    for at most as many rounds as the path has elements; [None] would be a
    loop that has not ended by then, or an index out of range. *)
Definition JSONPointer (err : SchemaError) : option (list string) :=
  let path := err.(reversePath) in
  swapLoop (length path) 0 (Z.of_nat (length path) - 1) path.

Section Unique.

(** [json.Marshal(&x)] of an item, as text. *)
Context {A : Type}.
Variable Marshal : A -> string.

(** [isSliceOfUniqueItems]. *)
Definition isSliceOfUniqueItems (xs : list A) : bool :=
  let s := length xs in
  let m : gset string := foldl (fun m x => {[ Marshal x ]} ∪ m) ∅ xs in
  bool_decide (s = size m).

End Unique.

End SchemaErrors.

(* ===================================================================== *)
(** * Package eapi: finding go.mod                                        *)
(* ===================================================================== *)

Module GoMod.
Import GoLib.

(** [filepath.Split] on a system whose separator is the slash: the path up
    to and with its last slash, and the rest. *)
Fixpoint FSplit (path : string) : string * string :=
  match path with
  | EmptyString => (EmptyString, EmptyString)
  | String c rest =>
      let '(dir, file) := FSplit rest in
      if nonempty dir then (String c dir, file)
      else if Ascii.eqb c slash then (String c EmptyString, file)
      else (EmptyString, String c file)
  end.

(** [strings.TrimSuffix(s, "/")]. *)
Fixpoint TrimSuffix (s : string) : string :=
  match s with
  | EmptyString => EmptyString
  | String c EmptyString => if Ascii.eqb c slash then EmptyString else s
  | String c rest => String c (TrimSuffix rest)
  end.

(** [Analyzer.lookupGoModFile].  [stat] tells whether [os.Stat] succeeds on a
    file name; the result carries, after the directory and the file name,
    the names [os.Stat] was called on.  [filepath.Join] is [path.Join] on
    such a system. *)
Fixpoint lookupGoModFile (stat : string -> bool) (fuel : nat) (pkgPath : string)
    (seen : list string) : option (string * string * list string) :=
  match fuel with
  | 0 => None
  | S fuel =>
      let fileName := Join [pkgPath; "go.mod"] in
      if stat fileName then Some (TrimSuffix pkgPath, fileName, seen ++ [fileName])
      else
        let '(dir, suffix) := FSplit pkgPath in
        if nonempty suffix then lookupGoModFile stat fuel dir (seen ++ [fileName])
        else Some (EmptyString, EmptyString, seen ++ [fileName])
  end.

(** A file system whose only [go.mod] is [/work/go.mod]. *)
Definition workModule (name : string) : bool := bool_decide (name = "/work/go.mod").

End GoMod.

(* ===================================================================== *)
(** * Package eapi: model keys of type definitions                        *)
(* ===================================================================== *)

Module TypeKeys.
Import GoLib Ast Eapi Spec.

(** [strings.ReplaceAll(s, "/", "_")]. *)
Fixpoint ReplaceAll (s : string) : string :=
  match s with
  | EmptyString => EmptyString
  | String c rest => String (if Ascii.eqb c slash then "_"%char else c) (ReplaceAll rest)
  end.

(** [TypeDefinition.ModelKey]; the keys of the type arguments are read from
    the store. *)
Definition ModelKey (t : TypeDefinition) (typeArgs : list (option ptr)) : M string :=
  let name := ReplaceAll t.(tpkg).(PkgPath) +:+ "." +:+ t.(Spec).(TypeName) in
  match typeArgs with
  | [] => ret name
  | first :: others =>
      let* k0 := argKey first in
      let* ks := mapEach others argKey in
      ret (name +:+ "[" +:+ k0 +:+ String.concat EmptyString (map (fun k => "," +:+ k) ks)
           +:+ "]")
  end.

(** [TypeDefinition.RefKey]. *)
Definition RefKey (t : TypeDefinition) (typeArgs : list (option ptr)) : M string :=
  let* key := ModelKey t typeArgs in
  ret ("#/components/schemas/" +:+ key).

(** [type Page[T any] struct] of package [shop/model]. *)
Definition pageType : TypeDefinition :=
  {| tpkg := {| PkgPath := "shop/model"; PkgName := "model" |};
     Spec := {| TypeName := "Page" |} |}.

End TypeKeys.

(* ===================================================================== *)
(** * Package eapi: the OpenAPI settings of the configuration             *)
(* ===================================================================== *)

Module OpenAPISettings.
Import GoLib.

(** [spec.Info], with the fields [ApplyToDoc] writes. *)
Record Info := {
  Version : string;
  Title : string;
  InfoDescription : string;
  TermsOfService : string;
}.

Section Schemes.

(** [spec.SecurityScheme]. *)
Variable SecurityScheme : Type.

(** [OpenAPIConfig]: [None] is a nil pointer. *)
Record OpenAPIConfig := {
  OpenAPI : string;
  ConfigInfo : option Info;
  SecuritySchemes : option (gmap string SecurityScheme);
}.

(** The document, as far as [ApplyToDoc] writes it: [doc.OpenAPI],
    [doc.Info] and [doc.Components.SecuritySchemes]. *)
Record DocHead := {
  DocOpenAPI : string;
  DocInfo : option Info;
  DocSecuritySchemes : option (gmap string SecurityScheme);
}.

Definition orKeep (v old : string) : string := if nonempty v then v else old.

(** The four assignments to [doc.Info]; [None] is the panic of writing
    through a nil [doc.Info]. *)
Definition applyInfo (c : Info) (info : option Info) : option (option Info) :=
  if nonempty c.(Version) || nonempty c.(Title) || nonempty c.(InfoDescription)
     || nonempty c.(TermsOfService)
  then
    match info with
    | None => None
    | Some i =>
        Some (Some {| Version := orKeep c.(Version) i.(Version);
                      Title := orKeep c.(Title) i.(Title);
                      InfoDescription := orKeep c.(InfoDescription) i.(InfoDescription);
                      TermsOfService := orKeep c.(TermsOfService) i.(TermsOfService) |})
    end
  else Some info.

(** [OpenAPIConfig.ApplyToDoc]. *)
Definition ApplyToDoc (c : OpenAPIConfig) (doc : DocHead) : option DocHead :=
  let openapi := orKeep c.(OpenAPI) doc.(DocOpenAPI) in
  match (match c.(ConfigInfo) with
         | Some i => applyInfo i doc.(DocInfo)
         | None => Some doc.(DocInfo)
         end) with
  | None => None
  | Some info =>
      Some {| DocOpenAPI := openapi;
              DocInfo := info;
              DocSecuritySchemes :=
                match c.(SecuritySchemes) with
                | Some schemes => Some (map_fold (fun name scheme m => <[name := scheme]> m) ∅ schemes)
                | None => doc.(DocSecuritySchemes)
                end |}
  end.

End Schemes.

Arguments OpenAPI {SecurityScheme} _.
Arguments ConfigInfo {SecurityScheme} _.
Arguments SecuritySchemes {SecurityScheme} _.
Arguments DocOpenAPI {SecurityScheme} _.
Arguments DocInfo {SecurityScheme} _.
Arguments DocSecuritySchemes {SecurityScheme} _.
Arguments ApplyToDoc {SecurityScheme} c doc.

(** The document head [NewAnalyzer] starts with. *)
Definition newDocHead : DocHead unit :=
  {| DocOpenAPI := "3.0.3";
     DocInfo := Some {| Version := EmptyString; Title := EmptyString;
                        InfoDescription := EmptyString; TermsOfService := EmptyString |};
     DocSecuritySchemes := None |}.

(** A configuration that sets the title. *)
Definition titleConfig : OpenAPIConfig unit :=
  {| OpenAPI := EmptyString;
     ConfigInfo := Some {| Version := EmptyString; Title := "Shop";
                           InfoDescription := EmptyString; TermsOfService := EmptyString |};
     SecuritySchemes := None |}.

End OpenAPISettings.

(* ===================================================================== *)
(** * Package spec: validation of arrays                                  *)
(* ===================================================================== *)

Module ArrayValidation.
Import GoLib SchemaErrors.

(** The errors of validation: [errSchema], a [*SchemaError], a [MultiError]
    and any other error. *)
Inductive error :=
| ErrSchema
| SchemaErr (e : SchemaError)
| Multi (errs : list error)
| OtherError (text : string).

(** [schemaValidationSettings], with the two switches the array check
    reads. *)
Record Settings := {
  failfast : bool;
  multiError : bool;
}.

(** [Schema], with the fields the array check reads: [MinItems] is a
    [uint64], [MaxItems] a [*uint64], and [HasItems] tells whether [Items] is
    set. *)
Record ArraySchema := {
  Type_ : string;
  MinItems : Z;
  MaxItems : option Z;
  UniqueItems : bool;
  HasItems : bool;
}.

(** The conversion [int64(v)] of a [uint64]. *)
Definition toInt64 (v : Z) : Z := if (v <? 2 ^ 63)%Z then v else (v - 2 ^ 64)%Z.

Section Visit.

(** An item of the array; the checker of unique items in effect
    ([sliceUniqueItemsChecker]); [itemSchema.visitJSON(settings, item)], with
    [None] for nil; and the formatting of a number by [%d]. *)
Context {Item : Type}.
Variable uniqueItems : list Item -> bool.
Variable visitJSON : Settings -> Item -> option error.
Variable showInt : Z -> string.

(** [markSchemaErrorIndex]. *)
Fixpoint markSchemaErrorIndex (err : error) (index : Z) : error :=
  match err with
  | SchemaErr e => SchemaErr (markSchemaErrorKey e (showInt index))
  | Multi errs => Multi (map (fun e => markSchemaErrorIndex e index) errs)
  | _ => err
  end.

(** [Schema.expectedType]. *)
Definition expectedType (settings : Settings) (schema : ArraySchema) : error :=
  if settings.(failfast) then ErrSchema
  else SchemaErr {| reversePath := [];
                    SchemaField := "type";
                    Reason := "Field must be set to " +:+ schema.(Type_)
                              +:+ " or not be present" |}.

(** What the check does with a violation: it returns at once, or adds the
    error to the ones collected. *)
Definition report (settings : Settings) (me : list error) (field reason : string)
  : error + list error :=
  if settings.(failfast) then inl ErrSchema
  else
    let err := SchemaErr {| reversePath := []; SchemaField := field; Reason := reason |} in
    if negb settings.(multiError) then inl err else inr (me ++ [err]).

(** The loop over the items, from index [i] on. *)
Fixpoint visitItems (settings : Settings) (i : Z) (value : list Item) (me : list error)
  : error + list error :=
  match value with
  | [] => inr me
  | item :: rest =>
      match visitJSON settings item with
      | Some err =>
          let err := markSchemaErrorIndex err i in
          if negb settings.(multiError) then inl err
          else visitItems settings (i + 1) rest
                 match err with
                 | Multi itemMe => me ++ itemMe
                 | _ => me ++ [err]
                 end
      | None => visitItems settings (i + 1) rest me
      end
  end.

(** [Schema.visitJSONArray]; [None] is the nil error. *)
Definition visitJSONArray (settings : Settings) (schema : ArraySchema) (value : list Item)
  : option error :=
  if nonempty schema.(Type_) && negb (bool_decide (schema.(Type_) = "array"))
  then Some (expectedType settings schema)
  else
    let lenValue := Z.of_nat (length value) in
    match (if negb (bool_decide (schema.(MinItems) = 0%Z))
              && (lenValue <? toInt64 schema.(MinItems))%Z
           then report settings [] "minItems"
                  ("minimum number of items is " +:+ showInt schema.(MinItems))
           else inr []) with
    | inl err => Some err
    | inr me =>
        match (match schema.(MaxItems) with
               | Some v =>
                   if (lenValue >? toInt64 v)%Z
                   then report settings me "maxItems"
                          ("maximum number of items is " +:+ showInt v)
                   else inr me
               | None => inr me
               end) with
        | inl err => Some err
        | inr me =>
            match (if schema.(UniqueItems) && negb (uniqueItems value)
                   then report settings me "uniqueItems" "duplicate items found"
                   else inr me) with
            | inl err => Some err
            | inr me =>
                match (if schema.(HasItems) then visitItems settings 0 value me
                       else inr me) with
                | inl err => Some err
                | inr me => if bool_decide (0 < length me) then Some (Multi me) else None
                end
            end
        end
    end.

(** The array meets the schema. *)
Definition valid (settings : Settings) (schema : ArraySchema) (value : list Item) : Prop :=
  (schema.(Type_) = EmptyString \/ schema.(Type_) = "array")
  /\ ~ (schema.(MinItems) <> 0%Z /\ (Z.of_nat (length value) < toInt64 schema.(MinItems))%Z)
  /\ (forall v, schema.(MaxItems) = Some v -> (Z.of_nat (length value) <= toInt64 v)%Z)
  /\ (schema.(UniqueItems) = true -> uniqueItems value = true)
  /\ (schema.(HasItems) = true -> Forall (fun item => visitJSON settings item = None) value).

End Visit.

(** A schema of at least two unique items, and a visitor that accepts every
    item. *)
Definition twoUnique : ArraySchema :=
  {| Type_ := "array"; MinItems := 2; MaxItems := None; UniqueItems := true;
     HasItems := true |}.

Definition acceptAll (_ : Settings) (_ : string) : option error := None.

End ArrayValidation.

(* ===================================================================== *)
(** * Theorems: the definitions index and the entry point                 *)
(* ===================================================================== *)

Module EapiFacts.
Import GoLib Ast Eapi.

Lemma nonempty_false (s : string) : nonempty s = false <-> s = EmptyString.
Proof. destruct s; simpl; split; congruence. Qed.

Lemma nonempty_true (s : string) : nonempty s = true <-> s <> EmptyString.
Proof. destruct s; simpl; split; congruence. Qed.

Lemma keyed_empty : keyed ∅.
Proof. intros k d H. rewrite lookup_empty in H. discriminate. Qed.

Lemma keyed_Set (m : Definitions) (def : Definition_) : keyed m -> keyed (Set_ m def).
Proof.
  intros Hm k d. unfold Set_.
  destruct (nonempty (Key def)) eqn:Hk; [|apply Hm].
  apply nonempty_true in Hk.
  destruct (decide (Key def = k)) as [Heq|Hne].
  - rewrite <- Heq, lookup_insert_eq. intros [= <-]. auto.
  - rewrite lookup_insert_ne by done. apply Hm.
Qed.

Lemma keyed_foldl (ds : list Definition_) (m : Definitions) :
  keyed m -> keyed (foldl Set_ m ds).
Proof.
  revert m. induction ds as [|d ds IH]; intros m Hm; simpl; [done|].
  apply IH, keyed_Set, Hm.
Qed.

(** C9.  The definitions index never binds the empty key: [Set_] on a
    definition whose key is empty leaves the index as it is (a method with a
    generic receiver is such a definition), and after any sequence of [Set_]
    on the empty index [Get] of the empty key is nil and every stored
    definition sits under its own non-empty key. *)
Theorem Definitions_never_bind_empty_key
    (ds : list Definition_) (m : Definitions) (def : Definition_)
    (Hkey : Key def = EmptyString) :
  Set_ m def = m
  /\ Key (Func generic_receiver_method) = EmptyString
  /\ Get (foldl Set_ ∅ ds) EmptyString = None
  /\ (forall k d, Get (foldl Set_ ∅ ds) k = Some d -> k <> EmptyString /\ Key d = k).
Proof.
  split; [|split; [|split]].
  - unfold Set_. rewrite Hkey. reflexivity.
  - reflexivity.
  - destruct (Get (foldl Set_ ∅ ds) EmptyString) as [d|] eqn:Hget; [|done].
    destruct (keyed_foldl ds ∅ keyed_empty _ _ Hget) as [Hne _]. done.
  - intros k d Hget. exact (keyed_foldl ds ∅ keyed_empty _ _ Hget).
Qed.

Lemma Definitions_never_bind_empty_key_witness :
  Key (Func generic_receiver_method) = EmptyString
  /\ Set_ ∅ (Func generic_receiver_method) = ∅
  /\ Get (foldl Set_ ∅ [Func free_function; Func generic_receiver_method]) EmptyString = None.
Proof.
  split; [reflexivity|].
  pose proof (Definitions_never_bind_empty_key
                [Func free_function; Func generic_receiver_method] ∅
                (Func generic_receiver_method) eq_refl) as (H1 & _ & H3 & _).
  split; [exact H1 | exact H3].
Defined.

(** In the cited revision of [Run] and [before], a value the configuration
    file sets for [plugin] replaces the value the command line gave. *)
Lemma Run_file_plugin_wins (fs : FileSystem) (fl : Flags) (y : ConfigFile) (q : string) :
  nonempty (configFileName fs fl) = true ->
  fs.(load) (configFileName fs fl) = Some y ->
  y.(yaml_plugin) = Some q ->
  nonempty q = true ->
  exists cfg, Run fs fl = inr cfg /\ cfg.(Plugin) = q.
Proof.
  intros Hname Hload Hy Hq. unfold Run, before. rewrite Hname, Hload.
  unfold fillDefaults, Unmarshal. simpl. rewrite Hy. simpl. rewrite Hq.
  eexists; split; reflexivity.
Qed.

(** C2.  With [plugin: echo] in [eapi.yaml] and [--plugin gin] on the command
    line, the run uses [echo]: the file is unmarshalled over the fields the
    flags were stored in.  The earlier revision of [before], which copies the
    set flags over the file's values, uses [gin]. *)
Theorem Run_flag_plugin_lost :
  flags_gin.(flag_plugin) = Some "gin"
  /\ (exists cfg, Run fs_echo flags_gin = inr cfg /\ cfg.(Plugin) = "echo")
  /\ (exists cfg, before_override fs_echo flags_gin NewEntrypoint = inr cfg
                  /\ cfg.(Plugin) = "gin").
Proof.
  split; [reflexivity|]. split.
  - apply (Run_file_plugin_wins fs_echo flags_gin yaml_echo "echo"); reflexivity.
  - eexists; split; reflexivity.
Qed.

End EapiFacts.

(* ===================================================================== *)
(** * Theorems: route paths                                               *)
(* ===================================================================== *)

Module GinFacts.
Import GoLib Ast Gin.

(** ** Strings *)

Lemma bytes_append (a b : string) : bytes (a +:+ b) = bytes a ++ bytes b.
Proof. induction a as [|c a IH]; simpl; [done|]. by rewrite IH. Qed.

Lemma Split_nonempty (c : ascii) (s : string) : Split c s <> [].
Proof.
  induction s as [|a s IH]; simpl; [done|].
  destruct (Ascii.eqb a c); [done|]. destruct (Split c s); done.
Qed.

Lemma JoinWith_cons (c : ascii) (x : string) (l : list string) :
  l <> [] -> JoinWith c (x :: l) = x +:+ String c (JoinWith c l).
Proof. destruct l; [done|reflexivity]. Qed.

(** A byte in front of the first element is a byte in front of the join. *)
Lemma JoinWith_String (c a : ascii) (x : string) (l : list string) :
  JoinWith c (String a x :: l) = String a (JoinWith c (x :: l)).
Proof. destruct l; reflexivity. Qed.

Lemma normalizeElem_plain (e : string) : colon ∉ bytes e -> normalizeElem e = e.
Proof.
  induction e as [|c e IH]; simpl; [done|]. intros Hnot.
  apply not_elem_of_cons in Hnot as [Hc He].
  destruct (Ascii.eqb c colon) eqn:Heq.
  - apply Ascii.eqb_eq in Heq. congruence.
  - simpl. by rewrite IH.
Qed.

Lemma normalizeElem_param (name : string) :
  nonempty name = true -> normalizeElem (String colon name) = "{" +:+ name +:+ "}".
Proof. intros Hname. simpl. rewrite Hname. reflexivity. Qed.

(** The scanner, element by element: outside a parameter every element is
    normalized; inside one the current element is closed first. *)
Lemma scanPath_elements (p : string) :
  scanPath false p = JoinWith slash (map normalizeElem (Split slash p))
  /\ scanPath true p = JoinWith slash (closeElems (Split slash p)).
Proof.
  induction p as [|c p [IHout IHin]]; [split; reflexivity|].
  pose proof (Split_nonempty slash p) as Hne.
  split.
  - cbn [scanPath Split].
    destruct (Ascii.eqb c colon) eqn:Hcolon.
    + apply Ascii.eqb_eq in Hcolon. subst c. cbn [Ascii.eqb].
      replace (Ascii.eqb colon slash) with false by reflexivity.
      destruct p as [|d p'].
      * reflexivity.
      * destruct (Ascii.eqb d slash) eqn:Hd.
        -- rewrite IHout. cbn [Split]. rewrite Hd. cbn [map].
           change (normalizeElem (String colon EmptyString)) with (String colon EmptyString).
           change (normalizeElem EmptyString) with EmptyString.
           rewrite JoinWith_String. reflexivity.
        -- rewrite IHin. cbn [Split]. rewrite Hd.
           pose proof (Split_nonempty slash p') as Hne'.
           destruct (Split slash p') as [|x xs]; [done|].
           cbn [map closeElems]. 
           change (normalizeElem (String colon (String d x)))
             with ("{" +:+ String d x +:+ "}").
           change ("{" +:+ String d x +:+ "}") with (String "{" (String d x +:+ "}")).
           rewrite JoinWith_String. reflexivity.
    + destruct (Ascii.eqb c slash) eqn:Hslash.
      * rewrite IHout. cbn [map normalizeElem].
        rewrite JoinWith_cons.
        -- apply Ascii.eqb_eq in Hslash. subst c. reflexivity.
        -- destruct (Split slash p); done.
      * rewrite IHout. destruct (Split slash p) as [|x xs]; [done|].
        cbn [map normalizeElem]. rewrite Hcolon. cbn [andb].
        rewrite JoinWith_String. reflexivity.
  - cbn [scanPath Split].
    destruct (Ascii.eqb c slash) eqn:Hslash.
    + rewrite IHout. cbn [closeElems].
      rewrite JoinWith_cons.
      * apply Ascii.eqb_eq in Hslash. subst c. reflexivity.
      * destruct (Split slash p); done.
    + rewrite IHin. destruct (Split slash p) as [|x xs]; [done|].
      cbn [closeElems].
      change (String c x +:+ "}") with (String c (x +:+ "}")).
      rewrite JoinWith_String. reflexivity.
Qed.

Lemma routeElem_normalized (e : string) : routeElem e -> colon ∉ bytes (normalizeElem e).
Proof.
  intros [Hplain|(name & -> & Hname & Hfree)].
  - by rewrite normalizeElem_plain.
  - rewrite normalizeElem_param by done.
    rewrite !bytes_append. simpl. rewrite elem_of_cons, elem_of_app, elem_of_cons.
    intros [Heq|[Hin|[Heq|Hnil]]]; try done. by apply elem_of_nil in Hnil.
Qed.

Lemma JoinWith_free (a : ascii) (l : list string) :
  a <> slash -> Forall (fun e => a ∉ bytes e) l -> a ∉ bytes (JoinWith slash l).
Proof.
  intros Ha. induction 1 as [|x l Hx Hl IH]; simpl; [apply not_elem_of_nil|].
  destruct l as [|y l]; [done|].
  rewrite bytes_append. simpl. rewrite elem_of_app, elem_of_cons.
  intros [Hin|[Heq|Hin]]; auto.
Qed.

(** C3, as amended.  [normalizePath] works element by element: an element
    [:name] becomes [{name}], an element without a colon (a catch-all [*name]
    among them) stays as it is, and a path made of route elements has no
    colon left after normalization. *)
Theorem normalizePath_rewrites_colon_parameters (p name e : string)
    (Hname : nonempty name = true)
    (He : colon ∉ bytes e)
    (Hp : Forall routeElem (Split slash p)) :
  normalizePath p = JoinWith slash (map normalizeElem (Split slash p))
  /\ normalizeElem (String colon name) = "{" +:+ name +:+ "}"
  /\ normalizeElem e = e
  /\ colon ∉ bytes (normalizePath p).
Proof.
  assert (Hscan : normalizePath p = JoinWith slash (map normalizeElem (Split slash p)))
    by apply scanPath_elements.
  split; [exact Hscan|]. split; [by apply normalizeElem_param|].
  split; [by apply normalizeElem_plain|].
  rewrite Hscan. apply JoinWith_free; [done|].
  apply Forall_map. eapply Forall_impl; [exact Hp|].
  intros x Hx. by apply routeElem_normalized.
Qed.

(** Closes [c ∉ bytes s] for a literal [s]. *)
Ltac absent :=
  cbn [bytes]; rewrite ?not_elem_of_cons;
  repeat split; try discriminate; apply not_elem_of_nil.

Lemma normalizePath_rewrites_colon_parameters_witness :
  normalizePath "/api/goods/:guid/*rest"
    = JoinWith slash (map normalizeElem (Split slash "/api/goods/:guid/*rest"))
  /\ normalizeElem ":guid" = "{guid}"
  /\ normalizeElem "*rest" = "*rest"
  /\ colon ∉ bytes (normalizePath "/api/goods/:guid/*rest").
Proof.
  apply (normalizePath_rewrites_colon_parameters "/api/goods/:guid/*rest" "guid" "*rest").
  - reflexivity.
  - absent.
  - change (Forall routeElem [EmptyString; "api"; "goods"; ":guid"; "*rest"]).
    repeat apply Forall_cons_2; try apply Forall_nil_2;
      first [ left; absent
            | right; eexists; split; [reflexivity|]; split; [reflexivity|absent] ].
Defined.

(** C3 as stated fails: a catch-all segment [*filepath] is not rewritten to
    [{filepath}], and the path registered for it still carries it. *)
Lemma normalizePath_keeps_catch_all :
  normalizePath "/files/*filepath" = "/files/*filepath"
  /\ normalizePath "/files/*filepath" <> "/files/{filepath}"
  /\ map FullPath (APIs (AnalyzeAll routerOracle [] emptyContext catchAllRoute))
     = ["/files/*filepath"].
Proof. split; [reflexivity|]. split; [discriminate|reflexivity]. Qed.

(** ** Route groups *)




Section Routers.

Variable o : Oracle.
Variable routerNames : list string.
Hypothesis Htype : forall e, o.(typeOf) e = Some ginRouterGroupTypeName.
Hypothesis Hhandler : forall e, exists f, o.(handlerDef) e = Some (Eapi.Func f).
Hypothesis Hignored : forall e, o.(ignored) e = false.







End Routers.



End GinFacts.

(* ===================================================================== *)
(** * Theorems: maps, references                                          *)
(* ===================================================================== *)

Module SpecBasics.
Import GoLib Spec.

Lemma lookupKey_setKey {V} (k : string) (v : V) (m : list (string * V)) :
  lookupKey k (setKey k v m) = Some v.
Proof.
  induction m as [|[k' v'] m IH]; simpl.
  - by rewrite bool_decide_eq_true_2.
  - case_bool_decide as Hk; simpl.
    + by rewrite bool_decide_eq_true_2.
    + by rewrite bool_decide_eq_false_2.
Qed.

Lemma stripPrefix_append (pre t : string) : stripPrefix pre (pre +:+ t) = Some t.
Proof.
  induction pre as [|a pre IH]; simpl; [by destruct t|].
  by rewrite Ascii.eqb_refl.
Qed.

Lemma GetKey_RefComponentSchemas (key : string) : GetKey (RefComponentSchemas key) = key.
Proof.
  unfold GetKey, RefComponentSchemas. cbn [Ref withRef nonempty].
  change (nonempty (componentsSchemasPrefix +:+ key)) with true. cbn iota.
  by rewrite stripPrefix_append.
Qed.

Lemma Unref_unfold (r : ptr) (d : Store) :
  Unref r d = match d.(objects) !! r with
              | Some o => if nonempty o.(Ref)
                          then Some (default None (lookupKey (GetKey o) d.(Schemas)), d)
                          else Some (Some r, d)
              | None => None
              end.
Proof.
  unfold Unref, bind, load. destruct (objects d !! r) as [o|]; [|done].
  by destruct (nonempty (Ref o)).
Qed.

(** [Unref] reads the reference's [Ref] and [Key] and the components. *)
Lemma Unref_stable (r : ptr) (d d' : Store) (res : option ptr) (o o' : Schema) :
  Unref r d = Some (res, d) ->
  d.(objects) !! r = Some o -> d'.(objects) !! r = Some o' ->
  o'.(Ref) = o.(Ref) -> o'.(Key) = o.(Key) ->
  d'.(Schemas) = d.(Schemas) ->
  Unref r d' = Some (res, d').
Proof.
  rewrite !Unref_unfold. intros H Ho Ho' Href Hkey Hs. rewrite Ho in H. rewrite Ho'.
  unfold GetKey in *. rewrite Href, Hkey, Hs.
  destruct (nonempty (Ref o)); by simplify_eq.
Qed.

End SpecBasics.

(* ===================================================================== *)
(** * Theorems: the handler analyzer                                      *)
(* ===================================================================== *)

Module GinHandlerFacts.
Import GoLib Ast Spec GinHandler SpecBasics.


Lemma form_media (sp : APISpec) :
  (default {| MediaSchema := None |}
     (default None
        (lookupKey MimeTypeFormData
           (default {| RequestBodyRef := EmptyString; RequestBodyContent := [] |}
                    sp.(RequestBody_)).(RequestBodyContent)))).(MediaSchema)
  = formMediaSchema sp.
Proof.
  unfold formMediaSchema. destruct (RequestBody_ sp) as [rb|]; simpl; [|done].
  destruct (lookupKey MimeTypeFormData (RequestBodyContent rb)) as [[mt|]|]; done.
Qed.

Lemma formMediaSchema_set (params : list Parameter_) (ref : string) (content : list (string * option MediaType))
    (oid : string) (r : ptr) :
  formMediaSchema
    {| Parameters_ := params;
       RequestBody_ := Some {| RequestBodyRef := ref;
                               RequestBodyContent :=
                                 setKey MimeTypeFormData (Some {| MediaSchema := Some r |}) content |};
       OperationID := oid |} = Some r.
Proof. unfold formMediaSchema. cbn [RequestBody_ RequestBodyContent mbind option_bind]. by rewrite lookupKey_setKey. Qed.

Section Analyzer.

Variable Unquote : string -> string * bool.
Variable tagParse : string -> list (string * string).
Variable ToCamel : string -> string.
Variable ctx : Context.

(** ** Primitive parameters *)

(** What a call of [primitiveParam] that gives a parameter has done: the
    first argument is a literal, the parameter is named by it, and its schema
    is the one new object of the document. *)
Lemma primitiveParam_inv (call : Expr) (in_ : string) (s s' : State) (param : Parameter_) :
  primitiveParam ctx call in_ s = Returned (Some param) s' ->
  exists kind value rest,
    callArgs call = BasicLit kind value :: rest
    /\ param.(Name) = Trim dquote value
    /\ param.(In) = in_
    /\ param.(ParamSchema) = Some (length s.(doc).(objects))
    /\ s'.(doc).(objects)
       = s.(doc).(objects) ++ [withType "string" (withTitle (Trim dquote value) NewSchema)]
    /\ s'.(spec) = s.(spec).
Proof.
  unfold primitiveParam. destruct (callArgs call) as [|[] rest]; try discriminate.
  unfold hbind, onDoc, alloc, hret. simpl.
  repeat case_bool_decide; intros H; simplify_eq; simpl;
    do 3 eexists; repeat split; eauto.
Qed.

Lemma primitiveParam_string (call : Expr) (in_ : string) (s s' : State) (param : Parameter_) :
  primitiveParam ctx call in_ s = Returned (Some param) s' -> stringSchema s'.(doc) param.
Proof.
  intros H. apply primitiveParam_inv in H
    as (kind & value & rest & _ & Hname & _ & Hschema & Hobjs & _).
  exists (length s.(doc).(objects)), (withType "string" (withTitle (Trim dquote value) NewSchema)).
  split; [done|]. split; [|by rewrite Hname].
  rewrite Hobjs. by apply list_lookup_middle.
Qed.

Lemma primitiveParamWithDefault_inv (call : Expr) (in_ : string) (s s' : State)
    (param : Parameter_) :
  primitiveParamWithDefault Unquote ctx call in_ s = Returned (Some param) s' ->
  exists kind value kind' value' rest',
    callArgs call = BasicLit kind value :: BasicLit kind' value' :: rest'
    /\ param.(Name) = Trim dquote value
    /\ param.(In) = in_
    /\ param.(ParamSchema) = Some (length s.(doc).(objects))
    /\ s'.(doc).(objects)
       = s.(doc).(objects)
         ++ [withDefault (Some (Unquote value').1)
               (withType "string" (withTitle (Trim dquote value) NewSchema))]
    /\ s'.(spec) = s.(spec).
Proof.
  unfold primitiveParamWithDefault.
  destruct (callArgs call) as [|arg0 [|arg1 rest']] eqn:Hargs; try discriminate.
  unfold hbind at 1.
  destruct (primitiveParam ctx call in_ s) as [[param0|] s0| |] eqn:Hprim; try discriminate.
  apply primitiveParam_inv in Hprim
    as (kind & value & rest & Hargs' & Hname & Hin & Hschema & Hobjs & Hspec).
  rewrite Hargs in Hargs'. simplify_eq.
  destruct arg1 as [| kind' value' | | | | | |]; try discriminate.
  unfold hbind, onDoc, must, update, hret, ret. rewrite Hschema. simpl.
  rewrite Hobjs. rewrite list_lookup_middle by done.
  intros H. simplify_eq. simpl.
  exists kind, value, kind', value', rest'.
  repeat split; eauto.
  rewrite insert_app_r_alt by done. by rewrite Nat.sub_diag.
Qed.

Lemma primitiveParamWithDefault_string (call : Expr) (in_ : string) (s s' : State)
    (param : Parameter_) :
  primitiveParamWithDefault Unquote ctx call in_ s = Returned (Some param) s' ->
  stringSchema s'.(doc) param.
Proof.
  intros H. apply primitiveParamWithDefault_inv in H
    as (kind & value & kind' & value' & rest' & _ & Hname & _ & Hschema & Hobjs & _).
  eexists _, _. split; [done|]. rewrite Hobjs.
  split; [by apply list_lookup_middle|]. by rewrite Hname.
Qed.


Lemma primitiveParam_spec (call : Expr) (in_ : string) (s s' : State)
    (r : option Parameter_) :
  primitiveParam ctx call in_ s = Returned r s' -> s'.(spec) = s.(spec).
Proof.
  unfold primitiveParam. destruct (callArgs call) as [|[] rest];
    unfold hbind, onDoc, alloc, hret; simpl;
    repeat case_bool_decide; intros H; by simplify_eq.
Qed.

Lemma primitiveParamWithDefault_spec (call : Expr) (in_ : string) (s s' : State)
    (r : option Parameter_) :
  primitiveParamWithDefault Unquote ctx call in_ s = Returned r s' -> s'.(spec) = s.(spec).
Proof.
  unfold primitiveParamWithDefault.
  destruct (callArgs call) as [|arg0 [|arg1 rest']]; unfold hret; try (intros H; by simplify_eq).
  unfold hbind at 1.
  destruct (primitiveParam ctx call in_ s) as [[param0|] s0| |] eqn:Hprim; try discriminate.
  - pose proof (primitiveParam_spec _ _ _ _ _ Hprim) as Hspec.
    destruct arg1; unfold hret; try (intros H; by simplify_eq).
    unfold hbind, onDoc, must, update, hret, ret.
    destruct (ParamSchema param0) as [p|]; simpl; [|discriminate].
    destruct (objects (doc s0) !! p); simpl; [|discriminate].
    intros H; by simplify_eq.
  - pose proof (primitiveParam_spec _ _ _ _ _ Hprim) as Hspec.
    unfold hret. intros H; by simplify_eq.
Qed.

(** [AddParameter] after a step that gave a parameter, or none. *)
Lemma parameter_outcome (m : H (option Parameter_)) (s s' : State) :
  (forall r t, m s = Returned r t -> t.(spec) = s.(spec)) ->
  (forall param t, m s = Returned (Some param) t -> stringSchema t.(doc) param) ->
  hbind m AddParameter s = Returned tt s' ->
  s'.(spec).(Parameters_) = s.(spec).(Parameters_)
  \/ exists param t, m s = Returned (Some param) t
       /\ s'.(spec).(Parameters_) = s.(spec).(Parameters_) ++ [param]
       /\ stringSchema s'.(doc) param.
Proof.
  intros Hspec Hstring. unfold hbind at 1.
  destruct (m s) as [[param|] t| |] eqn:Hm; try discriminate.
  - unfold AddParameter, hbind, getSpec, setSpec. intros H. simplify_eq. simpl.
    right. exists param, t. rewrite (Hspec _ _ eq_refl). split; [done|]. split; [done|].
    by apply Hstring.
  - unfold AddParameter, hret. intros H. simplify_eq. left.
    by rewrite (Hspec _ _ eq_refl).
Qed.

(** C10.  Every parameter produced through the primitive accessor path
    ([Query], [ShouldBindQuery], [Param], [DefaultQuery]) has a schema of type
    [string] titled by the parameter's name; no type of the surrounding
    expression is consulted.  A path parameter made by [Param] is such a
    parameter. *)
Theorem primitive_params_have_string_schema
    (call : Expr) (fnName : string) (s s' : State)
    (Hfn : fnName ∈ ["Query"; "ShouldBindQuery"; "Param"; "DefaultQuery"])
    (Hrun : Parse Unquote tagParse ToCamel ctx call fnName s = Returned tt s') :
  (s'.(spec).(Parameters_) = s.(spec).(Parameters_)
   \/ exists param, s'.(spec).(Parameters_) = s.(spec).(Parameters_) ++ [param]
        /\ stringSchema s'.(doc) param
        /\ (fnName = "Param" -> param.(In) = "path"))
  /\ (forall in_ t t' param,
        primitiveParam ctx call in_ t = Returned (Some param) t' ->
        stringSchema t'.(doc) param)
  /\ (forall in_ t t' param,
        primitiveParamWithDefault Unquote ctx call in_ t = Returned (Some param) t' ->
        stringSchema t'.(doc) param)
  /\ (forall kind value rest t,
        callArgs call = BasicLit kind value :: rest ->
        exists param t',
          primitiveParam ctx call "path" t = Returned (Some param) t'
          /\ param.(Name) = Trim dquote value /\ param.(In) = "path"
          /\ param.(ParamRequired) = true).
Proof.
  split; [|split; [|split]].
  - assert (Hcases :
      (fnName <> "DefaultQuery" /\ exists in_, (fnName = "Param" -> in_ = "path") /\
         hbind (primitiveParam ctx call in_) AddParameter s = Returned tt s')
      \/ (fnName = "DefaultQuery" /\
          hbind (primitiveParamWithDefault Unquote ctx call "query") AddParameter s
          = Returned tt s')).
    { repeat (apply elem_of_cons in Hfn as [->|Hfn]).
      - left. split; [done|]. exists "query". split; [done|exact Hrun].
      - left. split; [done|]. exists "query". split; [done|exact Hrun].
      - left. split; [done|]. exists "path". split; [done|exact Hrun].
      - right. split; [done|exact Hrun].
      - by apply elem_of_nil in Hfn. }
    destruct Hcases as [(Hne & in_ & Hin & Hadd)|[Hdq Hadd]].
    + apply parameter_outcome in Hadd as [Hsame|(param & t & Hprim & Hparams & Hstr)].
      * by left.
      * right. exists param. split; [done|]. split; [done|].
        intros HParam.
        apply primitiveParam_inv in Hprim as (? & ? & ? & _ & _ & Hin' & _).
        rewrite Hin'. by apply Hin.
      * intros r t. apply primitiveParam_spec.
      * intros param t. apply primitiveParam_string.
    + apply parameter_outcome in Hadd as [Hsame|(param & t & Hprim & Hparams & Hstr)].
      * by left.
      * right. exists param. split; [done|]. split; [done|].
        rewrite Hdq. discriminate.
      * intros r t. apply primitiveParamWithDefault_spec.
      * intros param t. apply primitiveParamWithDefault_string.
  - intros in_ t t' param. apply primitiveParam_string.
  - intros in_ t t' param. apply primitiveParamWithDefault_string.
  - intros kind value rest t Hargs. unfold primitiveParam. rewrite Hargs.
    unfold hbind, onDoc, alloc, hret. simpl. eexists _, _. split; [reflexivity|]. done.
Qed.


(** ** [BindWith] *)

(** C6, as amended.  When the second argument of [ShouldBindWith] or
    [MustBindWith] is not a recognizable binding selector, the analyzer logs
    a warning and ends the process with [os.Exit(1)], whatever the strict
    mode is. *)
Theorem parseBindWith_exits_in_every_mode
    (call arg0 arg1 : Expr) (rest : list Expr) (s : State) (strict : bool)
    (Hargs : callArgs call = arg0 :: arg1 :: rest)
    (Hbinding : getContentTypeFromBinding arg1 = EmptyString) :
  let s0 := withStrictMode strict s in
  let exited := Exited 1 (logState LogLevelWarn CannotInferContentType s0) in
  parseBindWith ctx call s0 = exited
  /\ Parse Unquote tagParse ToCamel ctx call "ShouldBindWith" s0 = exited
  /\ Parse Unquote tagParse ToCamel ctx call "MustBindWith" s0 = exited.
Proof.
  intros s0 exited.
  assert (H : parseBindWith ctx call s0 = exited).
  { unfold parseBindWith. rewrite Hargs, Hbinding. reflexivity. }
  split; [exact H|]. split; exact H.
Qed.

(** ** [BindUri] *)










(** ** Form data and defaults *)

Lemma parseFormData_first (call : Expr) (kind : Token) (value : string) (rest : list Expr)
    (s : State) :
  callArgs call = BasicLit kind value :: rest ->
  formMediaSchema s.(spec) = None ->
  exists s', parseFormData ToCamel ctx call "string" [] s = Returned tt s'
    /\ hasFormProperty s' (Trim dquote value) (formProperty ctx call (Trim dquote value)).
Proof.
  intros Hargs Hnone. unfold parseFormData. rewrite Hargs.
  set (name := Trim dquote value).
  unfold hbind at 1. unfold onDoc at 1. unfold alloc at 1.
  unfold hbind at 1. unfold onDoc at 1. cbn [forEach ret doc].
  unfold hbind at 1. unfold getSpec at 1. cbn [spec].
  rewrite form_media, Hnone.
  unfold hbind at 1. unfold onDoc at 1. unfold update at 1. cbn [doc objects Schemas].
  rewrite list_lookup_middle by done.
  rewrite insert_app_r_alt by done. rewrite Nat.sub_diag. cbn [insert list_insert].
  unfold hbind at 1. unfold hbind at 1. unfold onDoc at 1. unfold alloc at 1. cbn [doc objects Schemas].
  unfold hbind at 1. unfold onDoc at 1. unfold setSchema at 1. cbn [doc objects Schemas].
  unfold hbind at 1. unfold onDoc at 1. unfold alloc at 1. cbn [doc objects Schemas].
  unfold hret at 1. cbn [fst snd].
  unfold hbind at 1. unfold setSpec at 1.
  set (n := length (objects (doc s))).
  set (paramSchema := withDescription _ _).
  set (title := ToCamel _ +:+ "Request").
  set (schemaObj := WithProperty name (Some n) (withTitle title NewObjectSchema)).
  assert (Hlen : length ((objects (doc s) ++ [paramSchema]) ++ [schemaObj]) = S (S n)).
  { rewrite !length_app. simpl. unfold n. lia. }
  assert (Hlen1 : length (objects (doc s) ++ [paramSchema]) = S n).
  { rewrite length_app. simpl. unfold n. lia. }
  rewrite Hlen, Hlen1.
  destruct (CommentRequired (commentOf ctx call)).
  - unfold onDoc, update. cbn [doc objects Schemas].
    rewrite lookup_app_l by (rewrite Hlen; lia).
    rewrite (list_lookup_middle _ [] _ (S n)) by done.
    eexists. split; [reflexivity|].
    exists (S n), (withRequired (Required schemaObj ++ [name]) schemaObj), n.
    cbn [doc spec objects Schemas].
    split; [|split; [|split]].
    + exists (S (S n)). split; [|split].
      * apply formMediaSchema_set.
      * rewrite Unref_unfold. cbn [doc objects Schemas].
        rewrite list_lookup_insert_ne by lia.
        rewrite (list_lookup_middle _ [] _ (S (S n))) by done.
        change (nonempty (Ref (RefComponentSchemas title))) with true. cbn iota.
        by rewrite GetKey_RefComponentSchemas, lookupKey_setKey.
      * cbn [doc objects]. rewrite insert_app_l by (rewrite Hlen; lia).
        rewrite lookup_app_l by (rewrite length_insert, Hlen; lia).
        rewrite list_lookup_insert_eq by (rewrite Hlen; lia). by eexists.
    + rewrite insert_app_l by (rewrite Hlen; lia).
      rewrite lookup_app_l by (rewrite length_insert, Hlen; lia).
      by rewrite list_lookup_insert_eq by (rewrite Hlen; lia).
    + apply lookupKey_setKey.
    + rewrite insert_app_l by (rewrite Hlen; lia).
      rewrite lookup_app_l by (rewrite length_insert, Hlen; lia).
      rewrite list_lookup_insert_ne by lia.
      rewrite lookup_app_l by (rewrite Hlen1; lia).
      by rewrite (list_lookup_middle _ [] _ n).
  - unfold hret. eexists. split; [reflexivity|].
    exists (S n), schemaObj, n. cbn [doc spec objects Schemas].
    split; [|split; [|split]].
    + exists (S (S n)). split; [|split].
      * apply formMediaSchema_set.
      * rewrite Unref_unfold. cbn [doc objects Schemas].
        rewrite (list_lookup_middle _ [] _ (S (S n))) by done.
        change (nonempty (Ref (RefComponentSchemas title))) with true. cbn iota.
        by rewrite GetKey_RefComponentSchemas, lookupKey_setKey.
      * cbn [doc objects]. rewrite lookup_app_l by (rewrite Hlen; lia).
        rewrite (list_lookup_middle _ [] _ (S n)) by done. by eexists.
    + rewrite lookup_app_l by (rewrite Hlen; lia).
      by rewrite (list_lookup_middle _ [] _ (S n)).
    + apply lookupKey_setKey.
    + rewrite lookup_app_l by (rewrite Hlen; lia).
      rewrite lookup_app_l by (rewrite Hlen1; lia).
      by rewrite (list_lookup_middle _ [] _ n).
Qed.


Lemma parseFormData_next (call : Expr) (kind : Token) (value : string) (rest : list Expr)
    (s : State) (schema : ptr) :
  callArgs call = BasicLit kind value :: rest ->
  formSchema s schema ->
  exists s', parseFormData ToCamel ctx call "string" [] s = Returned tt s'
    /\ hasFormProperty s' (Trim dquote value) (formProperty ctx call (Trim dquote value)).
Proof.
  intros Hargs (schemaRef & Hmedia & Hunref & [so Hso]).
  pose proof Hunref as Hunref0.
  rewrite Unref_unfold in Hunref0.
  destruct (objects (doc s) !! schemaRef) as [ro|] eqn:Hro; [|discriminate].
  unfold parseFormData. rewrite Hargs.
  set (name := Trim dquote value).
  unfold hbind at 1. unfold onDoc at 1. unfold alloc at 1.
  unfold hbind at 1. unfold onDoc at 1. cbn [forEach ret doc].
  unfold hbind at 1. unfold getSpec at 1. cbn [spec].
  rewrite form_media, Hmedia.
  unfold hbind at 1. unfold onDoc at 1. unfold update at 1. cbn [doc objects Schemas].
  rewrite list_lookup_middle by done.
  rewrite insert_app_r_alt by done. rewrite Nat.sub_diag. cbn [insert list_insert].
  set (n := length (objects (doc s))).
  set (paramSchema := withDescription _ _).
  set (d1 := {| objects := objects (doc s) ++ [paramSchema]; Schemas := Schemas (doc s) |}).
  assert (Hn_so : schema < n) by (by apply lookup_lt_Some in Hso).
  assert (Hn_ro : schemaRef < n) by (by apply lookup_lt_Some in Hro).
  assert (Hunref1 : Unref schemaRef d1 = Some (Some schema, d1)).
  { apply (Unref_stable schemaRef (doc s) d1 (Some schema) ro ro); try done.
    unfold d1. cbn [objects]. by rewrite lookup_app_l. }
  unfold hbind at 1. unfold hbind at 1. unfold onDoc at 1. cbn [doc].
  rewrite Hunref1.
  unfold hbind at 1. unfold onDoc at 1. cbn [doc must ret].
  unfold hbind at 1. unfold onDoc at 1. unfold update at 1. cbn [doc d1 objects Schemas].
  rewrite lookup_app_l by done. rewrite Hso.
  unfold hret at 1. cbn [fst snd].
  unfold hbind at 1. unfold setSpec at 1.
  set (so' := WithProperty name (Some n) so).
  set (objs2 := <[schema := so']> (objects (doc s) ++ [paramSchema])).
  assert (Hlen2 : length objs2 = S n).
  { unfold objs2. rewrite length_insert, length_app. simpl. unfold n. lia. }
  assert (Hp : objs2 !! n = Some paramSchema).
  { unfold objs2. rewrite list_lookup_insert_ne by lia. by apply list_lookup_middle. }
  assert (Hs2 : objs2 !! schema = Some so').
  { unfold objs2. apply list_lookup_insert_eq. rewrite length_app. simpl. unfold n in *. lia. }
  assert (Href : forall objs3 so3,
             objs3 !! schema = Some so3 -> Ref so3 = Ref so -> Key so3 = Key so ->
             (schemaRef <> schema -> objs3 !! schemaRef = Some ro) ->
             Unref schemaRef {| objects := objs3; Schemas := Schemas (doc s) |}
             = Some (Some schema, {| objects := objs3; Schemas := Schemas (doc s) |})).
  { intros objs3 so3 H3 Hr Hk Hother.
    destruct (decide (schemaRef = schema)) as [Heq|Hne].
    - apply (Unref_stable schemaRef (doc s) _ (Some schema) ro so3); try done.
      + by rewrite Heq.
      + rewrite Hr. rewrite Heq in Hro. congruence.
      + rewrite Hk. rewrite Heq in Hro. congruence.
    - apply (Unref_stable schemaRef (doc s) _ (Some schema) ro ro); try done.
      by apply Hother. }
  destruct (CommentRequired (commentOf ctx call)).
  - unfold onDoc, update. cbn [doc objects Schemas]. rewrite Hs2.
    eexists. split; [reflexivity|].
    exists schema, (withRequired (Required so' ++ [name]) so'), n.
    cbn [doc spec objects Schemas].
    assert (Hs3 : <[schema := withRequired (Required so' ++ [name]) so']> objs2 !! schema
                  = Some (withRequired (Required so' ++ [name]) so')).
    { apply list_lookup_insert_eq. rewrite Hlen2. lia. }
    split; [|split; [|split]].
    + exists schemaRef. split; [apply formMediaSchema_set|]. split; [|by eexists].
      apply (Href _ _ Hs3); try done.
      intros Hne. rewrite list_lookup_insert_ne by done.
      unfold objs2. rewrite list_lookup_insert_ne by done. by rewrite lookup_app_l.
    + done.
    + apply lookupKey_setKey.
    + rewrite list_lookup_insert_ne by lia. done.
  - unfold hret. eexists. split; [reflexivity|].
    exists schema, so', n. cbn [doc spec objects Schemas].
    split; [|split; [|split]].
    + exists schemaRef. split; [apply formMediaSchema_set|]. split; [|by eexists].
      apply (Href _ _ Hs2); try done.
      intros Hne. unfold objs2. rewrite list_lookup_insert_ne by done. by rewrite lookup_app_l.
    + done.
    + apply lookupKey_setKey.
    + done.
Qed.




End Analyzer.

Lemma parseBindWith_exits_in_every_mode_witness :
  getContentTypeFromBinding (Ident "b") = EmptyString
  /\ Parse unquotePlain tagsOfGuid camelShop plainContext
       (bindWithIdent "ShouldBindWith") "ShouldBindWith" (withStrictMode true startState)
     = Exited 1 (logState LogLevelWarn CannotInferContentType (withStrictMode true startState)).
Proof.
  split; [reflexivity|].
  exact (proj1 (proj2 (parseBindWith_exits_in_every_mode
                  unquotePlain tagsOfGuid camelShop plainContext
                  (bindWithIdent "ShouldBindWith") (UnaryExpr (Ident "req")) (Ident "b") []
                  startState true eq_refl eq_refl))).
Defined.

(** C6 as stated fails: with strict mode off, [c.ShouldBindWith(&req, b)]
    still ends the process with code 1 after the warning; the analysis does
    not continue. *)
Lemma parseBindWith_exits_when_not_strict :
  startState.(logger).(strictMode) = false
  /\ Parse unquotePlain tagsOfGuid camelShop plainContext
       (bindWithIdent "ShouldBindWith") "ShouldBindWith" startState
     = Exited 1 {| doc := startState.(doc); spec := startState.(spec);
                   logger := startState.(logger);
                   logged := [(LogLevelWarn, CannotInferContentType)] |}
  /\ (forall s', Parse unquotePlain tagsOfGuid camelShop plainContext
                   (bindWithIdent "ShouldBindWith") "ShouldBindWith" startState
                 <> Returned tt s').
Proof. split; [reflexivity|]. split; [reflexivity|]. intros s'. discriminate. Qed.

Lemma primitive_params_have_string_schema_witness :
  exists s',
    Parse unquotePlain tagsOfGuid camelShop plainContext
      (accessorCall "Param" "guid" "unused") "Param" startState = Returned tt s'
    /\ exists param, s'.(spec).(Parameters_) = [param]
         /\ stringSchema s'.(doc) param /\ param.(In) = "path".
Proof.
  eexists. split; [reflexivity|].
  destruct (primitive_params_have_string_schema
              unquotePlain tagsOfGuid camelShop plainContext
              (accessorCall "Param" "guid" "unused") "Param" startState _
              ltac:(repeat constructor) eq_refl) as [[Hsame|(param & Hp & Hs & Hin)] _].
  - discriminate Hsame.
  - exists param. split; [exact Hp|]. split; [exact Hs|]. by apply Hin.
Defined.




End GinHandlerFacts.

(** * Theorems: the schema normalizer                                     *)

Module SpecFacts.
Import GoLib Spec SpecBasics.

(** ** The relations *)

Lemma sameCore_refl (o : Schema) : sameCore o o.
Proof. by repeat split. Qed.

Lemma sameCore_trans (o1 o2 o3 : Schema) : sameCore o1 o2 -> sameCore o2 o3 -> sameCore o1 o3.
Proof. unfold sameCore. intros (?&?&?&?) (?&?&?&?). repeat split; congruence. Qed.

Lemma sameCore_kind (o o' : Schema) : sameCore o o' -> kindOf o' = kindOf o.
Proof. intros (_ & _ & Hext & _). unfold kindOf. by rewrite Hext. Qed.

Lemma sameCore_marker (o o' : Schema) : sameCore o o' -> isMarker o' = isMarker o.
Proof. intros (Href & _ & Hext & _). unfold isMarker. by rewrite Href, Hext. Qed.


Lemma stable_refl (s : Store) : stable s s.
Proof. intros p o Ho. exists o. split; [done|apply sameCore_refl]. Qed.

Lemma stable_trans (s1 s2 s3 : Store) : stable s1 s2 -> stable s2 s3 -> stable s1 s3.
Proof.
  intros H12 H23 p o Ho. destruct (H12 p o Ho) as (o2 & Ho2 & Hc2).
  destruct (H23 p o2 Ho2) as (o3 & Ho3 & Hc3). exists o3. split; [done|].
  by apply (sameCore_trans o o2 o3).
Qed.

Lemma specialized_stable (s s' : Store) (v : option ptr) :
  stable s s' -> specialized s v -> specialized s' v.
Proof.
  intros Hst (p & o & -> & Ho & Hkind & Hflag).
  destruct (Hst p o Ho) as (o' & Ho' & Hcore).
  exists p, o'. split; [done|]. split; [done|]. split.
  - by rewrite (sameCore_kind o o').
  - destruct Hcore as (_ & _ & _ & ->). done.
Qed.

Lemma grows_refl (s : Store) : grows s s.
Proof.
  split; [apply stable_refl|]. split; [by intros k v|].
  intros k v Hnone Hsome. congruence.
Qed.

Lemma grows_trans (s1 s2 s3 : Store) : grows s1 s2 -> grows s2 s3 -> grows s1 s3.
Proof.
  intros (Hst12 & Hk12 & Ha12) (Hst23 & Hk23 & Ha23).
  split; [by apply (stable_trans s1 s2 s3)|]. split.
  - intros k v Hk. by apply Hk23, Hk12.
  - intros k v Hnone Hsome.
    destruct (lookupKey k (Schemas s2)) as [v2|] eqn:H2.
    + pose proof (Hk23 k v2 H2) as H3. rewrite Hsome in H3. injection H3 as ->.
      apply (specialized_stable s2 s3); [done|]. by apply (Ha12 k).
    + by apply (Ha23 k).
Qed.

Lemma untouched_refl (s : Store) : untouched s s.
Proof. by split. Qed.

Lemma untouched_trans (s1 s2 s3 : Store) : untouched s1 s2 -> untouched s2 s3 -> untouched s1 s3.
Proof. intros [Hs12 Ho12] [Hs23 Ho23]. split; [congruence|]. intros p o Ho. by apply Ho23, Ho12. Qed.

Lemma untouched_grows (s s' : Store) : untouched s s' -> grows s s'.
Proof.
  intros [Hs Ho]. split; [|split].
  - intros p o Hp. exists o. split; [by apply Ho|apply sameCore_refl].
  - intros k v. by rewrite Hs.
  - intros k v Hnone. rewrite Hs. congruence.
Qed.

(** ** Steps that keep the store growing *)

Lemma bind_inv {A B} (m : M A) (k : A -> M B) (s : Store) (b : B) (s' : Store) :
  bind m k s = Some (b, s') -> exists a s1, m s = Some (a, s1) /\ k a s1 = Some (b, s').
Proof. unfold bind. destruct (m s) as [[a s1]|]; [|done]. intros H. by exists a, s1. Qed.

Lemma reading_preserving {A} (m : M A) : reading m -> preserving m.
Proof. intros Hm s a s' H. rewrite (Hm s a s' H). apply grows_refl. Qed.

Lemma reading_ret {A} (a : A) : reading (ret a).
Proof. intros s b s' H. by injection H as _ <-. Qed.

Lemma reading_must {A} (o : option A) : reading (must o).
Proof. destruct o; [apply reading_ret|]. intros s a s' H. discriminate. Qed.

Lemma reading_load (p : ptr) : reading (load p).
Proof. intros s a s'. unfold load. destruct (objects s !! p); [|done]. intros H. by injection H as _ <-. Qed.

Lemma reading_getSchemas : reading getSchemas.
Proof. intros s a s' H. by injection H as _ <-. Qed.

Lemma reading_bind {A B} (m : M A) (k : A -> M B) :
  reading m -> (forall a, reading (k a)) -> reading (bind m k).
Proof.
  intros Hm Hk s b s' H. apply bind_inv in H as (a & s1 & H1 & H2).
  rewrite (Hk a s1 b s' H2). by apply (Hm s a).
Qed.

Lemma reading_mapEach {A B} (l : list A) (f : A -> M B) :
  (forall x, reading (f x)) -> reading (mapEach l f).
Proof.
  intros Hf. induction l as [|x l IH]; simpl; [apply reading_ret|].
  apply reading_bind; [apply Hf|]. intros y.
  apply reading_bind; [apply IH|]. intros ys. apply reading_ret.
Qed.

Lemma preserving_ret {A} (a : A) : preserving (ret a).
Proof. apply reading_preserving, reading_ret. Qed.

Lemma preserving_bind {A B} (m : M A) (k : A -> M B) :
  preserving m -> (forall a, preserving (k a)) -> preserving (bind m k).
Proof.
  intros Hm Hk s b s' H. apply bind_inv in H as (a & s1 & H1 & H2).
  apply (grows_trans s s1 s'); [by apply (Hm s a)|by apply (Hk a s1 b)].
Qed.

Lemma preserving_forEach {A} (l : list A) (f : A -> M unit) :
  (forall x, preserving (f x)) -> preserving (forEach l f).
Proof.
  intros Hf. induction l as [|x l IH]; simpl; [apply preserving_ret|].
  apply preserving_bind; [apply Hf|]. intros _. apply IH.
Qed.

Lemma preserving_mapEach {A B} (l : list A) (f : A -> M B) :
  (forall x, preserving (f x)) -> preserving (mapEach l f).
Proof.
  intros Hf. induction l as [|x l IH]; simpl; [apply preserving_ret|].
  apply preserving_bind; [apply Hf|]. intros y.
  apply preserving_bind; [apply IH|]. intros ys. apply preserving_ret.
Qed.

Lemma preserving_mapPtr (f : ptr -> M ptr) (p : option ptr) :
  (forall q, preserving (f q)) -> preserving (mapPtr f p).
Proof.
  intros Hf. destruct p as [q|]; simpl; [|apply preserving_ret].
  apply preserving_bind; [apply Hf|]. intros q'. apply preserving_ret.
Qed.

(** Writing fields outside the core of an object. *)
Lemma preserving_update (p : ptr) (f : Schema -> Schema) :
  (forall o, sameCore o (f o)) -> preserving (update p f).
Proof.
  intros Hf s a s'. unfold update. destruct (objects s !! p) as [o|] eqn:Hp; [|done].
  intros H. injection H as _ <-. split; [|split].
  - intros q oq Hq. cbn [objects]. destruct (decide (q = p)) as [->|Hne].
    + exists (f o). rewrite list_lookup_insert_eq by (by apply lookup_lt_Some in Hp).
      split; [done|]. rewrite Hp in Hq. injection Hq as <-. apply Hf.
    + exists oq. rewrite list_lookup_insert_ne by done. split; [done|apply sameCore_refl].
  - by intros k v.
  - intros k v Hnone Hsome. cbn [Schemas] in Hsome. congruence.
Qed.

Lemma untouched_alloc (o : Schema) (s : Store) (p : ptr) (s' : Store) :
  alloc o s = Some (p, s') ->
  untouched s s' /\ p = length s.(objects) /\ s'.(objects) !! p = Some o.
Proof.
  intros H. injection H as <- <-. split; [|split; [done|]].
  - split; [done|]. intros p o' Hp. cbn [objects]. by apply lookup_app_l_Some.
  - cbn [objects]. by apply list_lookup_middle.
Qed.

Lemma preserving_alloc (o : Schema) : preserving (alloc o).
Proof. intros s p s' H. by apply untouched_grows, (untouched_alloc o s p). Qed.


(** ** Copies *)

Lemma untouched_length (s s' : Store) : untouched s s' -> length s.(objects) <= length s'.(objects).
Proof.
  intros [_ Ho]. destruct (decide (length (objects s) <= length (objects s'))) as [|Hgt]; [done|].
  destruct (lookup_lt_is_Some_2 (objects s) (length (objects s'))) as [o Hp]; [lia|].
  apply Ho in Hp. apply lookup_lt_Some in Hp. lia.
Qed.

Lemma appending_reading {A} (m : M A) : reading m -> appending m.
Proof. intros Hm s a s' H. rewrite (Hm s a s' H). apply untouched_refl. Qed.

Lemma appending_bind {A B} (m : M A) (k : A -> M B) :
  appending m -> (forall a, appending (k a)) -> appending (bind m k).
Proof.
  intros Hm Hk s b s' H. apply bind_inv in H as (a & s1 & H1 & H2).
  apply (untouched_trans s s1 s'); [by apply (Hm s a)|by apply (Hk a s1 b)].
Qed.

Lemma appending_mapEach {A B} (l : list A) (f : A -> M B) :
  (forall x, appending (f x)) -> appending (mapEach l f).
Proof.
  intros Hf. induction l as [|x l IH]; simpl; [apply appending_reading, reading_ret|].
  apply appending_bind; [apply Hf|]. intros y.
  apply appending_bind; [apply IH|]. intros ys. apply appending_reading, reading_ret.
Qed.

Lemma appending_mapPtr (f : ptr -> M ptr) (p : option ptr) :
  (forall q, appending (f q)) -> appending (mapPtr f p).
Proof.
  intros Hf. destruct p as [q|]; simpl; [|apply appending_reading, reading_ret].
  apply appending_bind; [apply Hf|]. intros q'. apply appending_reading, reading_ret.
Qed.

Lemma appending_alloc (o : Schema) : appending (alloc o).
Proof. intros s p s' H. by apply (untouched_alloc o s p). Qed.

Lemma appending_copyExt (copy : ptr -> M ptr) (ext : option ExtendedTypeInfo) :
  (forall q, appending (copy q)) -> appending (copyExt copy ext).
Proof.
  intros Hc. destruct ext as [e|]; simpl; [|apply appending_reading, reading_ret].
  apply appending_bind; [by apply appending_mapPtr|]. intros extItems.
  apply appending_bind.
  - destruct (Specific e) as [st|]; [|apply appending_reading, reading_ret].
    apply appending_bind; [by apply appending_mapPtr|]. intros t.
    apply appending_bind; [|intros a; apply appending_reading, reading_ret].
    apply appending_mapEach. intros x. by apply appending_mapPtr.
  - intros specific. apply appending_reading, reading_ret.
Qed.

(** The copy of an extended-type-info has its kind. *)
Lemma copyExt_kind (copy : ptr -> M ptr) (ext ext' : option ExtendedTypeInfo) (s s' : Store) :
  copyExt copy ext s = Some (ext', s') -> ExtType <$> ext' = ExtType <$> ext.
Proof.
  destruct ext as [e|]; simpl.
  - intros H. apply bind_inv in H as (extItems & s1 & _ & H).
    apply bind_inv in H as (specific & s2 & _ & H). by injection H as <- _.
  - intros H. by injection H as <- _.
Qed.

Lemma appending_deepcopy (fuel : nat) (p : ptr) : appending (deepcopy fuel p).
Proof.
  revert p. induction fuel as [|fuel IH]; intros p; [by intros s a s' H|].
  cbn [deepcopy].
  apply appending_bind; [apply appending_reading, reading_load|]. intros o.
  apply appending_bind; [by apply appending_mapPtr|]. intros items.
  apply appending_bind; [by apply appending_mapPtr|]. intros additional.
  apply appending_bind.
  { apply appending_mapEach. intros kv.
    apply appending_bind; [by apply appending_mapPtr|]. intros v.
    apply appending_reading, reading_ret. }
  intros properties.
  apply appending_bind; [by apply appending_copyExt|]. intros ext.
  apply appending_alloc.
Qed.

(** [Clone] gives a new object of the kind of the one it copies, and leaves
    the others as they are. *)
Lemma Clone_spec (fuel : nat) (p q : ptr) (s s' : Store) :
  Clone fuel p s = Some (q, s') ->
  untouched s s' /\ s.(objects) !! q = None
  /\ exists o o', s.(objects) !! p = Some o /\ s'.(objects) !! q = Some o'
       /\ kindOf o' = kindOf o.
Proof.
  intros H. split; [by apply (appending_deepcopy fuel p s q)|].
  unfold Clone in H. destruct fuel as [|fuel]; [done|]. cbn [deepcopy] in H.
  apply bind_inv in H as (o & s0 & Hload & H).
  pose proof (reading_load p s o s0 Hload) as ->.
  apply bind_inv in H as (items & s1 & H1 & H).
  apply bind_inv in H as (additional & s2 & H2 & H).
  apply bind_inv in H as (properties & s3 & H3 & H).
  apply bind_inv in H as (ext & s4 & H4 & H).
  assert (Hu : untouched s s4).
  { apply (untouched_trans s s1); [by apply (appending_mapPtr _ _ (appending_deepcopy fuel)) in H1|].
    apply (untouched_trans s1 s2); [by apply (appending_mapPtr _ _ (appending_deepcopy fuel)) in H2|].
    apply (untouched_trans s2 s3).
    - revert H3. apply appending_mapEach. intros kv.
      apply appending_bind; [apply appending_mapPtr, appending_deepcopy|].
      intros v. apply appending_reading, reading_ret.
    - by apply (appending_copyExt _ _ (appending_deepcopy fuel)) in H4. }
  apply untouched_alloc in H as (_ & -> & Hq).
  split.
  - apply lookup_ge_None. by apply untouched_length.
  - unfold load in Hload. destruct (objects s !! p) as [o0|] eqn:Hp; [|done].
    injection Hload as <-. eexists _, _. split; [done|]. split; [exact Hq|].
    unfold kindOf. cbn [Ext withExt]. by apply copyExt_kind in H4.
Qed.

(** ** Reading steps of the normalizer *)

Lemma reading_Unref (r : ptr) : reading (Unref r).
Proof.
  apply reading_bind; [apply reading_load|]. intros o.
  destruct (nonempty (Ref o)); [|apply reading_ret].
  apply reading_bind; [apply reading_getSchemas|]. intros comps. apply reading_ret.
Qed.

Lemma reading_argKey (a : option ptr) : reading (argKey a).
Proof.
  apply reading_bind; [apply reading_must|]. intros p.
  apply reading_bind; [apply reading_load|]. intros o. apply reading_ret.
Qed.

Lemma reading_modelKey (key : string) (args : list (option ptr)) : reading (modelKey key args).
Proof.
  destruct args as [|first others]; [apply reading_ret|]. cbn [modelKey].
  apply reading_bind; [apply reading_argKey|]. intros k0.
  apply reading_bind; [apply reading_mapEach, reading_argKey|]. intros ks. apply reading_ret.
Qed.

Lemma reading_mergeArgs (args args2 : list (option ptr)) : reading (mergeArgs args args2).
Proof.
  apply reading_mapEach. intros _arg.
  apply reading_bind; [apply reading_must|]. intros p.
  apply reading_bind; [apply reading_load|]. intros o.
  destruct (Ext o) as [ext|]; [|apply reading_ret].
  case_bool_decide; [|apply reading_ret].
  apply reading_bind; [apply reading_must|]. intros tp. apply reading_must.
Qed.


(** ** [process] *)

Lemma must_inv {A} (o : option A) (s : Store) (a : A) (s' : Store) :
  must o s = Some (a, s') -> o = Some a /\ s' = s.
Proof. destruct o; [|done]. intros H. by injection H as <- <-. Qed.

Lemma load_inv (p : ptr) (s : Store) (o : Schema) (s' : Store) :
  load p s = Some (o, s') -> s.(objects) !! p = Some o /\ s' = s.
Proof. unfold load. destruct (objects s !! p); [|done]. intros H. by injection H as <- <-. Qed.

Lemma update_inv (p : ptr) (f : Schema -> Schema) (s : Store) (u : unit) (s' : Store) :
  update p f s = Some (u, s') ->
  exists o, s.(objects) !! p = Some o
    /\ s' = {| objects := <[p := f o]> s.(objects); Schemas := s.(Schemas) |}.
Proof. unfold update. destruct (objects s !! p) as [o|]; [|done]. intros H. injection H as _ <-. by exists o. Qed.

Lemma lookupKey_setKey_ne {V} (k k' : string) (v : V) (m : list (string * V)) :
  k <> k' -> lookupKey k (setKey k' v m) = lookupKey k m.
Proof.
  intros Hne. induction m as [|[k0 v0] m IH]; simpl.
  - by rewrite bool_decide_eq_false_2.
  - case_bool_decide as H0; simpl.
    + subst k0. by rewrite !bool_decide_eq_false_2.
    + case_bool_decide; [done|apply IH].
Qed.

(** Writing an object that [s] does not have leaves [s] untouched. *)
Lemma untouched_update_fresh (s s1 s2 : Store) (p : ptr) (f : Schema -> Schema) (u : unit) :
  untouched s s1 -> s.(objects) !! p = None ->
  update p f s1 = Some (u, s2) ->
  untouched s s2
  /\ exists o1, s1.(objects) !! p = Some o1 /\ s2.(objects) !! p = Some (f o1)
     /\ forall q, q <> p -> s2.(objects) !! q = s1.(objects) !! q.
Proof.
  intros [Hs Ho] Hfresh H. apply update_inv in H as (o1 & Hp & ->). split.
  - split; [done|]. intros q o Hq. cbn [objects].
    rewrite list_lookup_insert_ne by (intros ->; congruence). by apply Ho.
  - exists o1. split; [done|]. cbn [objects]. split.
    + apply list_lookup_insert_eq. by apply lookup_lt_Some in Hp.
    + intros q Hq. by apply list_lookup_insert_ne.
Qed.

Lemma preserving_processChildren
    (rec : option ptr -> list (option ptr) -> M (option ptr))
    (schema res : ptr) (args : list (option ptr)) :
  (forall r a, preserving (rec r a)) -> preserving (processChildren rec schema res args).
Proof.
  intros Hrec. unfold processChildren.
  apply preserving_bind; [apply reading_preserving, reading_load|]. intros so.
  apply preserving_bind.
  { destruct (Items so); [|apply preserving_ret].
    apply preserving_bind; [apply reading_preserving, reading_load|]. intros ro.
    apply preserving_bind; [apply Hrec|]. intros r.
    apply preserving_update. intros o. by repeat split. }
  intros _.
  apply preserving_bind; [apply reading_preserving, reading_load|]. intros so1.
  apply preserving_bind.
  { destruct (AdditionalProperties so1); [|apply preserving_ret].
    apply preserving_bind; [apply reading_preserving, reading_load|]. intros ro.
    apply preserving_bind; [apply Hrec|]. intros r.
    apply preserving_update. intros o. by repeat split. }
  intros _.
  apply preserving_bind; [apply reading_preserving, reading_load|]. intros so2.
  apply preserving_forEach. intros key.
  apply preserving_bind; [apply reading_preserving, reading_load|]. intros cur.
  apply preserving_bind; [apply reading_preserving, reading_must|]. intros property.
  apply preserving_bind; [apply Hrec|]. intros r.
  apply preserving_update. intros o. by repeat split.
Qed.


Lemma process_spec (fuel : nat) :
  forall ref args s r s',
  process fuel ref args s = Some (r, s') ->
  grows s s' /\ settledFor s ref s' r.
Proof.
  induction fuel as [|fuel IH]; intros ref args s r s' H; [done|].
  assert (IHg : forall r a, preserving (process fuel r a)).
  { intros r0 a0 s0 x0 s0' H0. by apply (IH r0 a0 s0 x0 s0'). }
  cbn [process] in H.
  apply bind_inv in H as (refp & ? & Href & H). apply must_inv in Href as [-> ->].
  apply bind_inv in H as (schemaRef & ? & Hunref & H).
  pose proof (reading_Unref refp _ _ _ Hunref) as ->.
  apply bind_inv in H as (unrefd & ? & Hm & H). apply must_inv in Hm as [-> ->].
  apply bind_inv in H as (res & s1 & Hclone & H).
  apply Clone_spec in Hclone as (Hu1 & Hfresh & oc0 & o' & Hoc0 & Hres1 & Hkind).
  apply bind_inv in H as ([] & s2 & Hupd & H).
  destruct (untouched_update_fresh s s1 s2 res _ _ Hu1 Hfresh Hupd)
    as (Hu2 & o1 & Ho1 & Hres2 & Hother2).
  rewrite Hres1 in Ho1. injection Ho1 as <-.
  apply bind_inv in H as (so & ? & Hso & H). apply load_inv in Hso as [Hso ->].
  rewrite Hres2 in Hso. injection Hso as <-.
  apply bind_inv in H as (refo & ? & Hrefo & H). apply load_inv in Hrefo as [Hrefo ->].
  apply bind_inv in H as (key & ? & Hkey & H).
  pose proof (reading_modelKey _ _ _ _ _ Hkey) as ->.
  apply bind_inv in H as (resRef & s3 & Halloc & H).
  apply untouched_alloc in Halloc as (Hu3 & HresRef & HresRef3).
  assert (Hu03 : untouched s s3) by (by apply (untouched_trans s s2 s3)).
  assert (Hres_lt : res < resRef).
  { rewrite HresRef. by apply lookup_lt_Some in Hres2. }
  (* the tail of the function, from a state [t] the store has grown to *)
  set (finish := fun res0 : ptr =>
         let* _ := processChildren (process fuel) res res0 args in
         let* refo0 := load refp in
         if nonempty (Ref refo0) then ret (Some resRef) else ret (Some res0)) in H.
  set (continue :=
         match Ext (withSpecialized true o') with
         | Some e =>
             match ExtType e with
             | ExtendedTypeSpecific =>
                 let* st := must (Specific e) in
                 let* merged := mergeArgs (Args st) args in process fuel (SType st) merged
             | ExtendedTypeParam =>
                 let* tp := must (Param e) in
                 let* arg := must (args !! Index tp) in
                 match arg with
                 | Some a => finish a
                 | None => ret None
                 end
             | _ => finish res
             end
         | None => finish res
         end) in H.
  assert (Hfinish : forall res0 t,
            grows s t ->
            (exists oref, t.(objects) !! resRef = Some oref /\ nonempty oref.(Ref) = true) ->
            finish res0 t = Some (r, s') ->
            grows s s' /\ settledFor s (Some refp) s' r).
  { intros res0 t Hgt (oref & Horef & Hrefne) Hf. unfold finish in Hf.
    apply bind_inv in Hf as ([] & t' & Hchildren & Hf).
    apply preserving_processChildren in Hchildren; [|exact IHg].
    apply bind_inv in Hf as (refo0 & ? & Hload & Hf). apply load_inv in Hload as [Hload ->].
    assert (Hg' : grows s t') by (by apply (grows_trans s t t')).
    assert (s' = t') as ->.
    { destruct (nonempty (Ref refo0)); by injection Hf as _ <-. }
    split; [exact Hg'|].
    intros t0 ot c oc Heq Hot Hne _ _ _. injection Heq as <-.
    destruct Hg' as (Hst' & _). destruct (Hst' refp ot Hot) as (ot' & Hot' & Hcore).
    rewrite Hload in Hot'. injection Hot' as <-.
    destruct Hcore as (Hr & _). rewrite Hr, Hne in Hf. injection Hf as <-.
    destruct Hchildren as (Hstc & _). destruct (Hstc resRef oref Horef) as (oref' & Horef' & Hcore').
    exists oref'. split; [done|]. unfold isMarker. destruct Hcore' as (-> & _). by rewrite Hrefne. }
  assert (Hcontinue : forall t,
            grows s t ->
            (exists oref, t.(objects) !! resRef = Some oref /\ nonempty oref.(Ref) = true) ->
            continue t = Some (r, s') ->
            grows s s'
            /\ (kindOf oc0 <> Some ExtendedTypeSpecific -> settledFor s (Some refp) s' r)).
  { intros t Hgt Href Hc. unfold continue in Hc. cbn [Ext withSpecialized] in Hc.
    assert (Hk : kindOf oc0 = ExtType <$> Ext o') by (by rewrite <- Hkind).
    destruct (Ext o') as [e|] eqn:He.
    - destruct (ExtType e) eqn:Het;
        try (destruct (Hfinish res t Hgt Href Hc) as [Hg Hs]; by split).
      + apply bind_inv in Hc as (st & ? & Hst & Hc). apply must_inv in Hst as [Hst ->].
        apply bind_inv in Hc as (merged & ? & Hmerge & Hc).
        pose proof (reading_mergeArgs _ _ _ _ _ Hmerge) as ->.
        apply IH in Hc as [Hg _]. split; [by apply (grows_trans s t s')|].
        intros Hnot. exfalso. apply Hnot. rewrite Hk. simpl. by rewrite Het.
      + apply bind_inv in Hc as (tp & ? & Htp & Hc). apply must_inv in Htp as [Htp ->].
        apply bind_inv in Hc as (arg & ? & Harg & Hc). apply must_inv in Harg as [Harg ->].
        destruct arg as [a|].
        * destruct (Hfinish a t Hgt Href Hc) as [Hg Hs]. by split.
        * injection Hc as <- <-. split; [done|]. intros _ ? ? ? ? _ _ _ _ _ _. done.
    - destruct (Hfinish res t Hgt Href Hc) as [Hg Hs]. by split. }
  assert (Href3 : exists oref, s3.(objects) !! resRef = Some oref /\ nonempty oref.(Ref) = true).
  { exists (RefComponentSchemas key). split; [done|]. reflexivity. }
  assert (Hrefo0 : s.(objects) !! refp = Some refo).
  { destruct (objects s !! refp) as [x|] eqn:Hx.
    - destruct Hu2 as [_ Ho2]. apply Ho2 in Hx. congruence.
    - unfold Unref in Hunref. apply bind_inv in Hunref as (? & ? & Hl & _).
      apply load_inv in Hl as [Hl _]. congruence. }
  assert (Hunrefd : forall ot c oc,
            s.(objects) !! refp = Some ot -> nonempty ot.(Ref) = true ->
            lookupKey (GetKey ot) s.(Schemas) = Some (Some c) ->
            s.(objects) !! c = Some oc -> oc0 = oc).
  { intros ot c oc Hot Hne Hlook Hoc. rewrite Unref_unfold, Hot, Hne, Hlook in Hunref.
    simpl in Hunref. injection Hunref as <-. congruence. }
  destruct (nonempty (Ref refo)) eqn:Hrefne.
  - apply bind_inv in H as (comps & ? & Hcomps & H).
    injection Hcomps as <- <-.
    destruct (lookupKey key (Schemas s3)) as [v|] eqn:Hexists.
    + injection H as <- <-. split; [by apply untouched_grows|].
      intros t0 ot c oc _ _ _ _ _ _. exists (RefComponentSchemas key). by split.
    + apply bind_inv in H as ([] & s4 & Hupd4 & H).
      assert (Hfresh3 : s.(objects) !! res = None) by exact Hfresh.
      destruct (untouched_update_fresh s s3 s4 res _ _ Hu03 Hfresh3 Hupd4)
        as (Hu4 & o3 & Ho3 & Hres4 & Hother4).
      assert (o3 = withSpecialized true o') as ->.
      { destruct Hu3 as [_ Ho3']. apply Ho3' in Hres2. congruence. }
      apply bind_inv in H as ([] & s5 & Hset & H). injection Hset as <-.
      set (s5 := {| objects := objects s4; Schemas := setKey key (Some res) (Schemas s4) |}) in H.
      assert (Hnone : lookupKey key (Schemas s) = None).
      { destruct Hu03 as [Hs _]. by rewrite <- Hs. }
      assert (Hg5 : grows s s5).
      { destruct Hu4 as [Hs4 Ho4]. split; [|split].
        - intros p o Hp. exists o. split; [by apply Ho4|apply sameCore_refl].
        - intros k v Hk. unfold s5. cbn [Schemas]. rewrite Hs4.
          rewrite lookupKey_setKey_ne; [done|]. intros ->. congruence.
        - intros k v Hk Hv. unfold s5 in Hv. cbn [Schemas] in Hv. rewrite Hs4 in Hv.
          destruct (decide (k = key)) as [->|Hne].
          + rewrite lookupKey_setKey in Hv. injection Hv as <-.
            eexists res, _. split; [done|]. split; [exact Hres4|]. by split.
          + rewrite lookupKey_setKey_ne in Hv by done. congruence. }
      assert (Href5 : exists oref, s5.(objects) !! resRef = Some oref
                                   /\ nonempty oref.(Ref) = true).
      { exists (RefComponentSchemas key). split; [|reflexivity].
        unfold s5. cbn [objects]. rewrite Hother4 by lia. done. }
      destruct (Hcontinue s5 Hg5 Href5 H) as [Hg Hs]. split; [exact Hg|].
      intros t0 ot c oc Heq Hot Hne Hlook Hoc Hkindoc. injection Heq as <-.
      apply (Hs ltac:(by rewrite (Hunrefd ot c oc))) with (t := refp) (ot := ot) (c := c) (oc := oc);
        done.
  - destruct (Hcontinue s3 (untouched_grows _ _ Hu03) Href3 H) as [Hg Hs]. split; [exact Hg|].
    intros t0 ot c oc Heq Hot Hne _ _ _. injection Heq as <-. congruence.
Qed.


(** ** Usage sites *)




Lemma preserving_processSchemaRef (fuel : nat) (ref : option ptr) :
  preserving (processSchemaRef fuel ref).
Proof.
  destruct ref as [p|]; [|apply preserving_ret]. cbn [processSchemaRef].
  apply preserving_bind; [apply reading_preserving, reading_load|]. intros o.
  destruct (isMarker o); [|apply preserving_ret].
  unfold processMarker.
  apply preserving_bind; [apply reading_preserving, reading_must|]. intros ext.
  apply preserving_bind; [apply reading_preserving, reading_must|]. intros st.
  intros s r s' H. by apply process_spec in H as [Hg _].
Qed.



Lemma preserving_processContent (fuel : nat) (content : list (string * option MediaType)) :
  preserving (processContent fuel content).
Proof.
  apply preserving_mapEach. intros kv. destruct (kv.2); [|apply preserving_ret].
  apply preserving_bind; [apply preserving_processSchemaRef|]. intros r. apply preserving_ret.
Qed.


Lemma preserving_processOperation (fuel : nat) (op : option Operation) :
  preserving (processOperation fuel op).
Proof.
  destruct op as [op|]; [|apply preserving_ret]. cbn [processOperation].
  apply preserving_bind.
  { apply preserving_mapEach. intros kv. destruct (kv.2); [|apply preserving_ret].
    apply preserving_bind; [apply preserving_processContent|]. intros c. apply preserving_ret. }
  intros responses. apply preserving_bind; [|intros rb; apply preserving_ret].
  destruct (OpRequestBody op) as [rb|]; [|apply preserving_ret].
  destruct (nonempty (RequestBodyRef rb)); [apply preserving_ret|].
  apply preserving_bind; [apply preserving_processContent|]. intros c. apply preserving_ret.
Qed.



(** [processPathItem] is the loop over the nine operations of the item. *)
Lemma processPathItem_operations (fuel : nat) (item item' : PathItem) (s s' : Store) :
  processPathItem fuel (Some item) s = Some (Some item', s') ->
  mapEach (operations item) (processOperation fuel) s = Some (operations item', s').
Proof.
  cbn [processPathItem]. intros H.
  apply bind_inv in H as (o1 & s1 & H1 & H). apply bind_inv in H as (o2 & s2 & H2 & H).
  apply bind_inv in H as (o3 & s3 & H3 & H). apply bind_inv in H as (o4 & s4 & H4 & H).
  apply bind_inv in H as (o5 & s5 & H5 & H). apply bind_inv in H as (o6 & s6 & H6 & H).
  apply bind_inv in H as (o7 & s7 & H7 & H). apply bind_inv in H as (o8 & s8 & H8 & H).
  apply bind_inv in H as (o9 & s9 & H9 & H). injection H as <- <-.
  unfold operations. cbn [mapEach Connect Delete Get Head Options Patch Post Put Trace].
  unfold bind. rewrite H1, H2, H3, H4, H5, H6, H7, H8, H9. reflexivity.
Qed.

Lemma processPathItem_inv (fuel : nat) (item : option PathItem) (r : option PathItem)
    (s s' : Store) :
  processPathItem fuel item s = Some (r, s') ->
  (item = None /\ r = None /\ s' = s)
  \/ exists i i', item = Some i /\ r = Some i'
       /\ processPathItem fuel (Some i) s = Some (Some i', s').
Proof.
  destruct item as [i|].
  - intros H. right. pose proof H as H0. cbn [processPathItem] in H.
    apply bind_inv in H as (o1 & s1 & H1 & H). apply bind_inv in H as (o2 & s2 & H2 & H).
    apply bind_inv in H as (o3 & s3 & H3 & H). apply bind_inv in H as (o4 & s4 & H4 & H).
    apply bind_inv in H as (o5 & s5 & H5 & H). apply bind_inv in H as (o6 & s6 & H6 & H).
    apply bind_inv in H as (o7 & s7 & H7 & H). apply bind_inv in H as (o8 & s8 & H8 & H).
    apply bind_inv in H as (o9 & s9 & H9 & H). injection H as <- <-.
    eexists i, _. split; [done|]. split; [done|]. exact H0.
  - intros H. injection H as <- <-. by left.
Qed.

Lemma preserving_processPathItem (fuel : nat) (item : option PathItem) :
  preserving (processPathItem fuel item).
Proof.
  intros s r s' H. apply processPathItem_inv in H as [(_ & _ & ->)|(i & i' & _ & _ & H)].
  - apply grows_refl.
  - apply processPathItem_operations in H. revert H.
    apply preserving_mapEach. intros op. apply preserving_processOperation.
Qed.


(** ** [normalize] *)

Lemma evolves_refl (s : Store) : evolves s s.
Proof.
  split; [apply stable_refl|]. split; [by split|].
  intros k v Hnone Hsome. congruence.
Qed.

Lemma evolves_grows (s0 s s' : Store) : evolves s0 s -> grows s s' -> evolves s0 s'.
Proof.
  intros (Hst0 & [Hdom Hplain] & Ha0) (Hst & Hk & Ha).
  split; [by apply (stable_trans s0 s s')|]. split; [split|].
  - intros k Hk0. destruct (Hdom k Hk0) as [v Hv]. exists v. by apply Hk.
  - intros k p o Hlook Ho Hm. apply Hk. by apply (Hplain k p o).
  - intros k v Hnone Hsome.
    destruct (lookupKey k (Schemas s)) as [v1|] eqn:H1.
    + pose proof (Hk k v1 H1) as H2. rewrite Hsome in H2. injection H2 as ->.
      apply (specialized_stable s s'); [done|]. by apply (Ha0 k).
    + by apply (Ha k).
Qed.

Lemma normalizeComponent_evolves (fuel : nat) (key : string) (s0 s s' : Store) (u : unit) :
  evolves s0 s -> is_Some (lookupKey key s0.(Schemas)) ->
  normalizeComponent fuel key s = Some (u, s') -> evolves s0 s'.
Proof.
  intros Hev Hkey H. unfold normalizeComponent in H.
  apply bind_inv in H as (comps & ? & Hcomps & H). injection Hcomps as <- <-.
  destruct (lookupKey key (Schemas s)) as [[p|]|] eqn:Hcur;
    try (injection H as _ <-; exact Hev).
  apply bind_inv in H as (o & ? & Hload & H). apply load_inv in Hload as [Ho ->].
  destruct (isMarker o) eqn:Hm; [|injection H as _ <-; exact Hev].
  apply bind_inv in H as (r & s1 & Hproc & H). injection H as _ <-.
  assert (Hg : grows s s1).
  { unfold processMarker in Hproc.
    apply bind_inv in Hproc as (ext & ? & He & Hproc). apply must_inv in He as [_ ->].
    apply bind_inv in Hproc as (st & ? & Hst & Hproc). apply must_inv in Hst as [_ ->].
    by apply process_spec in Hproc as [Hg _]. }
  destruct (evolves_grows s0 s s1 Hev Hg) as (Hst1 & [Hdom1 Hplain1] & Ha1).
  split; [exact Hst1|]. split; [split|].
  - intros k Hk0. cbn [Schemas]. destruct (decide (k = key)) as [->|Hne].
    + rewrite lookupKey_setKey. by eexists.
    + rewrite lookupKey_setKey_ne by done. by apply Hdom1.
  - intros k p0 o0 Hlook Ho0 Hm0. cbn [Schemas]. destruct (decide (k = key)) as [->|Hne].
    + exfalso. destruct Hev as (Hst & [_ Hplain] & _).
      pose proof (Hplain key p0 o0 Hlook Ho0 Hm0) as Hp. rewrite Hcur in Hp.
      injection Hp as ->. destruct (Hst p0 o0 Ho0) as (o' & Ho' & Hcore).
      rewrite Ho in Ho'. injection Ho' as <-.
      rewrite (sameCore_marker o0 o Hcore) in Hm. congruence.
    + rewrite lookupKey_setKey_ne by done. by apply (Hplain1 k p0 o0).
  - intros k v Hnone Hsome. cbn [Schemas] in Hsome.
    assert (k <> key) as Hne by (intros ->; destruct Hkey; congruence).
    rewrite lookupKey_setKey_ne in Hsome by done.
    destruct (Ha1 k v Hnone Hsome) as (q & oq & -> & Hq & Hkind & Hflag).
    by exists q, oq.
Qed.

Lemma normalizeComponents_evolves (fuel : nat) (keys : list string) :
  forall (s0 s s' : Store) (u : unit),
  evolves s0 s -> Forall (fun key => is_Some (lookupKey key s0.(Schemas))) keys ->
  forEach keys (normalizeComponent fuel) s = Some (u, s') -> evolves s0 s'.
Proof.
  induction keys as [|key keys IH]; intros s0 s s' u Hev Hkeys H.
  - by injection H as _ <-.
  - apply Forall_cons in Hkeys as [Hkey Hkeys]. cbn [forEach] in H.
    apply bind_inv in H as ([] & s1 & H1 & H).
    apply (IH s0 s1 s' u); [|done|done].
    by apply (normalizeComponent_evolves fuel key s0 s s1 ()).
Qed.

Lemma keys_bound {V} (m : list (string * V)) :
  Forall (fun key => is_Some (lookupKey key m)) (map fst m).
Proof.
  induction m as [|[k v] m IH]; [constructor|]. cbn [map fst]. constructor.
  - simpl. rewrite bool_decide_eq_true_2 by done. by eexists.
  - eapply Forall_impl; [exact IH|]. intros key [x Hx]. simpl.
    case_bool_decide; by eexists.
Qed.



(** ** The document [pageDoc] *)



(** C5.  Normalizing [pageDoc] twice does not give what normalizing it once
    gives: the first run binds the component [Page[Goods]] to the
    specialization, an object with the properties of [Page]; the second run
    finds that component to be of kind specific, processes it, finds its key
    bound already and binds it to the reference to [Page[Goods]], that is to
    itself.  The two documents show differently at every depth. *)
Theorem normalize_twice_differs :
  exists (once twice : T) (p q : ptr) (o oq : Schema),
    normalize 10 pageDoc = Some once /\ normalize 10 once = Some twice
    /\ lookupKey "Page[Goods]" once.(store).(Schemas) = Some (Some p)
    /\ once.(store).(objects) !! p = Some o
    /\ o.(Ref) = EmptyString /\ map fst o.(Properties) = ["items"; "total"]
    /\ lookupKey "Page[Goods]" twice.(store).(Schemas) = Some (Some q)
    /\ twice.(store).(objects) !! q = Some oq
    /\ oq.(Ref) = "#/components/schemas/Page[Goods]" /\ oq.(Properties) = []
    /\ forall depth, viewDoc (S depth) twice <> viewDoc (S depth) once.
Proof.
  set (once := default pageDoc (normalize 10 pageDoc)).
  set (twice := default pageDoc (normalize 10 once)).
  exists once, twice, 13, 28,
    (default NewSchema (once.(store).(objects) !! 13)),
    (default NewSchema (twice.(store).(objects) !! 28)).
  do 10 (split; [vm_compute; reflexivity|]).
  intros depth Heq.
  apply (f_equal (fun v => match v.1 !! 2 with
                           | Some (_, VSchema ref _ _ _ _ _ _ _) => ref
                           | _ => EmptyString
                           end)) in Heq.
  vm_compute in Heq. discriminate.
Qed.

End SpecFacts.

(* ===================================================================== *)
(** * More on the definitions index and the entry point                   *)
(* ===================================================================== *)

Module EapiMore.
Import GoLib Ast Eapi EapiFacts.

Lemma foldl_Set_snoc (m : Definitions) (ds : list Definition_) (d : Definition_) :
  foldl Set_ m (ds ++ [d]) = Set_ (foldl Set_ m ds) d.
Proof. by rewrite foldl_app. Qed.

(** X1.  [Definitions.Set] followed by [Definitions.Get]: a definition with a
    non-empty key is found under its key, and the entries under the other
    keys are the ones the index had.  When definitions are set one after the
    other, as the loading of a package does, the last one of a key is the one
    found under it. *)
Theorem Set_then_Get (m : Definitions) (ds : list Definition_) (def : Definition_)
    (Hkey : Key def <> EmptyString) :
  Get (Set_ m def) (Key def) = Some def
  /\ (forall k, k <> Key def -> Get (Set_ m def) k = Get m k)
  /\ (forall k, k <> EmptyString ->
        Get (foldl Set_ m ds) k
        = match last (filter (fun d => Key d = k) ds) with
          | Some d => Some d
          | None => Get m k
          end).
Proof.
  split; [|split].
  - apply nonempty_true in Hkey. unfold Set_, Get. rewrite Hkey. apply lookup_insert_eq.
  - intros k Hk. apply nonempty_true in Hkey. unfold Set_, Get. rewrite Hkey.
    by apply lookup_insert_ne.
  - intros k Hk. clear def Hkey. induction ds as [|d ds IH] using rev_ind; [done|].
    rewrite foldl_Set_snoc, filter_app.
    destruct (decide (Key d = k)) as [Hd|Hd].
    + rewrite filter_cons_True, filter_nil by done. rewrite last_snoc.
      subst k. apply nonempty_true in Hk. unfold Set_, Get. rewrite Hk.
      apply lookup_insert_eq.
    + rewrite filter_cons_False, filter_nil, app_nil_r by done. rewrite <- IH.
      unfold Set_, Get. destruct (nonempty (Key d)); [|done]. by apply lookup_insert_ne.
Qed.

Lemma Set_then_Get_witness :
  Get (Set_ ∅ (Func free_function)) (Key (Func free_function)) = Some (Func free_function)
  /\ Get (foldl Set_ ∅ [Func free_function; Func generic_receiver_method]) "app.Handler"
     = Some (Func free_function).
Proof.
  destruct (Set_then_Get ∅ [Func free_function; Func generic_receiver_method]
              (Func free_function)) as (Hget & _ & Hlast); [vm_compute; discriminate|].
  split; [exact Hget|]. rewrite Hlast by discriminate. reflexivity.
Defined.

Lemma fillDefaults_inr (c cfg : Config) :
  fillDefaults c = inr cfg ->
  c.(Plugin) <> EmptyString
  /\ cfg.(Plugin) = c.(Plugin)
  /\ cfg.(Dir) = (if nonempty c.(Dir) then c.(Dir) else ".")
  /\ cfg.(Output) = (if nonempty c.(Output) then c.(Output) else "docs")
  /\ cfg.(Depends) = c.(Depends).
Proof.
  unfold fillDefaults. destruct (nonempty (Plugin c)) eqn:Hp; [|discriminate].
  intros [= <-]. apply nonempty_true in Hp. done.
Qed.

Lemma fillDefaults_inl (c : Config) (e : Error) :
  fillDefaults c = inl e <-> e = PluginNotSet /\ c.(Plugin) = EmptyString.
Proof.
  unfold fillDefaults. destruct (nonempty (Plugin c)) eqn:Hp.
  - apply nonempty_true in Hp. split; [discriminate|]. by intros [_ ?].
  - apply nonempty_false in Hp. split; [by intros [= <-]|]. by intros [-> _].
Qed.

(** What [before] hands to the three fall-backs: the configuration after the
    file, if there is one, was read over it. *)
Lemma before_inr (fs : FileSystem) (fl : Flags) (c cfg : Config) :
  before fs fl c = inr cfg ->
  exists c', fillDefaults c' = inr cfg
    /\ ((configFileName fs fl = EmptyString /\ c' = c)
        \/ (configFileName fs fl <> EmptyString
            /\ exists y, fs.(load) (configFileName fs fl) = Some y /\ c' = Unmarshal y c)).
Proof.
  unfold before. destruct (nonempty (configFileName fs fl)) eqn:Hname.
  - destruct (load fs (configFileName fs fl)) as [y|]; [|discriminate].
    apply nonempty_true in Hname.
    intros H. exists (Unmarshal y c). split; [done|]. right. split; [done|]. by exists y.
  - apply nonempty_false in Hname. intros H. exists c. split; [done|]. by left.
Qed.

(** X2.  The configuration a run proceeds with never has an empty plugin,
    directory or output: [before] refuses an empty plugin and replaces an
    empty directory by [.] and an empty output by [docs]. *)
Theorem Run_settings_nonempty (fs : FileSystem) (fl : Flags) (cfg : Config)
    (Hrun : Run fs fl = inr cfg) :
  cfg.(Plugin) <> EmptyString /\ cfg.(Dir) <> EmptyString /\ cfg.(Output) <> EmptyString.
Proof.
  apply before_inr in Hrun as (c' & Hfill & _).
  apply fillDefaults_inr in Hfill as (Hp & -> & -> & -> & _).
  split; [done|]. split.
  - destruct (nonempty (Dir c')) eqn:H; [by apply nonempty_true|done].
  - destruct (nonempty (Output c')) eqn:H; [by apply nonempty_true|done].
Qed.

Lemma Run_settings_nonempty_witness :
  exists cfg, Run fs_echo flags_gin = inr cfg
    /\ cfg.(Plugin) <> EmptyString /\ cfg.(Dir) <> EmptyString
    /\ cfg.(Output) <> EmptyString.
Proof.
  eexists. split; [reflexivity|].
  apply (Run_settings_nonempty fs_echo flags_gin). reflexivity.
Defined.

(** X3.  The two ways [Run] fails before the analysis starts.  It fails with
    the load error exactly when there is a configuration file to read and
    reading it fails.  It fails with ['plugin' is not set] exactly when the
    plugin is empty after the flags and the file: the flag's destination is
    the field that [NewEntrypoint] presets to [gin], so without a [--plugin]
    flag and a [plugin] key the preset is gone. *)
Theorem Run_errors (fs : FileSystem) (fl : Flags) :
  let name := configFileName fs fl in
  let flag := default EmptyString fl.(flag_plugin) in
  (Run fs fl = inl LoadError <-> name <> EmptyString /\ fs.(load) name = None)
  /\ (Run fs fl = inl PluginNotSet <->
        (name = EmptyString /\ flag = EmptyString)
        \/ (name <> EmptyString
            /\ exists y, fs.(load) name = Some y
                 /\ default flag y.(yaml_plugin) = EmptyString))
  /\ NewEntrypoint.(Plugin) = "gin".
Proof.
  cbn zeta. unfold Run, before.
  destruct (nonempty (configFileName fs fl)) eqn:Hname.
  - apply nonempty_true in Hname.
    destruct (load fs (configFileName fs fl)) as [y|] eqn:Hload.
    + split; [|split; [|done]].
      * rewrite fillDefaults_inl. split; [by intros [? _]|by intros [_ ?]].
      * rewrite fillDefaults_inl. cbn [Unmarshal parseFlags Plugin]. split.
        -- intros [_ H]. right. split; [done|]. by exists y.
        -- intros [[? _]|(_ & y' & [= <-] & H)]; done.
    + split; [|split; [|done]].
      * split; done.
      * split; [discriminate|]. intros [[? _]|(_ & y' & ? & _)]; done.
  - apply nonempty_false in Hname. split; [|split; [|done]].
    + rewrite fillDefaults_inl. split; [by intros [? _]|by intros [? _]].
    + rewrite fillDefaults_inl. cbn [parseFlags Plugin]. split.
      * intros [_ H]. by left.
      * intros [[_ H]|(? & _)]; done.
Qed.

(** X4.  A flag is in effect where the file is silent: when [Run] goes on
    and there is no configuration file, or the file has no [dir] key, the
    directory is the one [--dir] gives, and [.] when that is empty or
    missing; the same for [--output] with [docs], and for [--plugin]. *)
Theorem Run_flag_used_when_file_silent (fs : FileSystem) (fl : Flags) (cfg : Config)
    (Hrun : Run fs fl = inr cfg) :
  let silent (key : ConfigFile -> option string) :=
    configFileName fs fl = EmptyString
    \/ exists y, fs.(load) (configFileName fs fl) = Some y /\ key y = None in
  let orElse (v fallback : string) := if nonempty v then v else fallback in
  (silent yaml_dir -> cfg.(Dir) = orElse (default EmptyString fl.(flag_dir)) ".")
  /\ (silent yaml_output ->
        cfg.(Output) = orElse (default EmptyString fl.(flag_output)) "docs")
  /\ (silent yaml_plugin -> cfg.(Plugin) = default EmptyString fl.(flag_plugin)).
Proof.
  cbn zeta. apply before_inr in Hrun as (c' & Hfill & Hc').
  apply fillDefaults_inr in Hfill as (_ & -> & -> & -> & _).
  destruct Hc' as [[Hname ->]|(Hname & y & Hload & ->)].
  - cbn [parseFlags Unmarshal Plugin Dir Output]. done.
  - cbn [parseFlags Unmarshal Plugin Dir Output].
    repeat split; (intros [Hempty|(y' & Hload' & Hkey)]; [done|]);
      rewrite Hload in Hload'; injection Hload' as <-; by rewrite Hkey.
Qed.

Lemma Run_flag_used_when_file_silent_witness :
  exists cfg, Run fs_echo flags_gin = inr cfg /\ cfg.(Dir) = "." /\ cfg.(Output) = "docs".
Proof.
  eexists. split; [reflexivity|].
  pose proof (Run_flag_used_when_file_silent fs_echo flags_gin _ eq_refl) as (Hd & Ho & _).
  split; [apply Hd|apply Ho]; right; exists yaml_echo; split; reflexivity.
Defined.

(** X5.  In the earlier revision of [before], kept in the same file, a flag
    given on the command line wins over the configuration file: the plugin,
    the directory, the output and the dependencies are the ones of the flags
    that are set, whatever the file says (an empty [--dir] or [--output]
    falls back to [.] and [docs]). *)
Theorem before_override_flag_wins (fs : FileSystem) (fl : Flags) (c cfg : Config)
    (Hrun : before_override fs fl c = inr cfg) :
  (forall p, fl.(flag_plugin) = Some p -> cfg.(Plugin) = p)
  /\ (forall d, fl.(flag_dir) = Some d -> cfg.(Dir) = if nonempty d then d else ".")
  /\ (forall o, fl.(flag_output) = Some o -> cfg.(Output) = if nonempty o then o else "docs")
  /\ (forall ds, fl.(flag_depends) = Some ds -> cfg.(Depends) = ds).
Proof.
  unfold before_override in Hrun.
  destruct (nonempty (configFileName fs fl)).
  - destruct (load fs (configFileName fs fl)) as [y|]; [|discriminate].
    apply fillDefaults_inr in Hrun as (_ & -> & -> & -> & ->).
    cbn [Plugin Dir Output Depends].
    repeat split; intros v Hv; by rewrite Hv.
  - apply fillDefaults_inr in Hrun as (_ & -> & -> & -> & ->).
    cbn [Plugin Dir Output Depends].
    repeat split; intros v Hv; by rewrite Hv.
Qed.

Lemma before_override_flag_wins_witness :
  exists cfg, before_override fs_echo flags_gin NewEntrypoint = inr cfg
    /\ yaml_echo.(yaml_plugin) = Some "echo" /\ cfg.(Plugin) = "gin".
Proof.
  eexists. split; [reflexivity|]. split; [reflexivity|].
  by apply (before_override_flag_wins fs_echo flags_gin NewEntrypoint).
Defined.

End EapiMore.

(* ===================================================================== *)
(** * More on route paths and route registration                          *)
(* ===================================================================== *)

Module GinMore.
Import GoLib Ast Gin GinFacts.

(** ** Path elements *)

Lemma Split_free (s : string) : Forall (fun e => slash ∉ bytes e) (Split slash s).
Proof.
  induction s as [|a s IH]; simpl.
  - constructor; [simpl; apply not_elem_of_nil|constructor].
  - destruct (Ascii.eqb a slash) eqn:Ha.
    + constructor; [simpl; apply not_elem_of_nil|done].
    + apply Ascii.eqb_neq in Ha.
      pose proof (Split_nonempty slash s) as Hne.
      destruct (Split slash s) as [|x xs]; [done|].
      apply Forall_cons in IH as [Hx Hxs]. constructor; [|done].
      simpl. by apply not_elem_of_cons.
Qed.

Lemma Split_plain (e : string) : slash ∉ bytes e -> Split slash e = [e].
Proof.
  induction e as [|a e IH]; simpl; [done|]. intros Hnot.
  apply not_elem_of_cons in Hnot as [Ha He].
  destruct (Ascii.eqb a slash) eqn:Heq.
  - apply Ascii.eqb_eq in Heq. congruence.
  - by rewrite IH.
Qed.

Lemma Split_append (x rest : string) :
  slash ∉ bytes x ->
  Split slash (x +:+ String slash rest) = x :: Split slash rest.
Proof.
  induction x as [|a x IH]; simpl; intros Hnot.
  - replace (Ascii.eqb slash slash) with true by reflexivity. done.
  - apply not_elem_of_cons in Hnot as [Ha Hx].
    destruct (Ascii.eqb a slash) eqn:Heq.
    + apply Ascii.eqb_eq in Heq. congruence.
    + by rewrite IH.
Qed.

(** Splitting undoes joining, for elements without a slash. *)
Lemma Split_JoinWith (l : list string) :
  l <> [] -> Forall (fun e => slash ∉ bytes e) l -> Split slash (JoinWith slash l) = l.
Proof.
  induction l as [|x l IH]; [done|]. intros _ Hl.
  apply Forall_cons in Hl as [Hx Hl].
  destruct l as [|y l].
  - simpl. by apply Split_plain.
  - rewrite JoinWith_cons by done. rewrite Split_append by done.
    by rewrite IH.
Qed.

Lemma normalizeElem_free (e : string) : slash ∉ bytes e -> slash ∉ bytes (normalizeElem e).
Proof.
  induction e as [|c e IH]; simpl; [done|]. intros Hnot.
  apply not_elem_of_cons in Hnot as [Hc He].
  destruct (Ascii.eqb c colon && nonempty e).
  - change ("{" +:+ e +:+ "}") with (String "{" (e +:+ "}")). simpl.
    rewrite bytes_append. simpl.
    rewrite !not_elem_of_cons, not_elem_of_app, not_elem_of_cons.
    repeat split; try done. apply not_elem_of_nil.
  - simpl. apply not_elem_of_cons. auto.
Qed.

(** X6.  [normalizePath] returns a path without a colon as it is. *)
Theorem normalizePath_without_colon (p : string) (Hp : colon ∉ bytes p) :
  normalizePath p = p.
Proof.
  unfold normalizePath. induction p as [|c p IH]; [reflexivity|].
  simpl in Hp. apply not_elem_of_cons in Hp as [Hc Hp]. cbn [scanPath].
  destruct (Ascii.eqb c colon) eqn:Heq.
  - apply Ascii.eqb_eq in Heq. congruence.
  - by rewrite IH.
Qed.

Lemma normalizePath_without_colon_witness :
  normalizePath "/files/*filepath" = "/files/*filepath".
Proof. apply (normalizePath_without_colon "/files/*filepath"). absent. Defined.

(** X7.  [normalizePath] works on each path element by itself: the elements
    of the normalized path are the normalized elements of the path, so it
    never joins or splits elements and keeps every slash where it is. *)
Theorem normalizePath_keeps_elements (p : string) :
  Split slash (normalizePath p) = map normalizeElem (Split slash p)
  /\ length (Split slash (normalizePath p)) = length (Split slash p).
Proof.
  assert (H : Split slash (normalizePath p) = map normalizeElem (Split slash p)).
  { unfold normalizePath. destruct (scanPath_elements p) as [-> _].
    apply Split_JoinWith.
    - pose proof (Split_nonempty slash p). by destruct (Split slash p).
    - apply Forall_map. eapply Forall_impl; [apply Split_free|].
      intros e. apply normalizeElem_free. }
  split; [done|]. by rewrite H, length_map.
Qed.

(** X8.  On a route path, normalizing twice gives what normalizing once
    gives: no colon is left after the first pass. *)
Theorem normalizePath_idempotent (p : string)
    (Hp : Forall routeElem (Split slash p)) :
  normalizePath (normalizePath p) = normalizePath p.
Proof.
  apply normalizePath_without_colon.
  unfold normalizePath. destruct (scanPath_elements p) as [-> _].
  apply JoinWith_free; [done|].
  apply Forall_map. eapply Forall_impl; [exact Hp|].
  intros e. apply routeElem_normalized.
Qed.

Lemma normalizePath_idempotent_witness :
  normalizePath (normalizePath "/api/goods/:guid") = normalizePath "/api/goods/:guid"
  /\ normalizePath "/api/goods/:guid" = "/api/goods/{guid}".
Proof.
  split; [|reflexivity].
  apply (normalizePath_idempotent "/api/goods/:guid").
  change (Forall routeElem [EmptyString; "api"; "goods"; ":guid"]).
  repeat apply Forall_cons_2; try apply Forall_nil_2;
    first [ left; absent
          | right; eexists; split; [reflexivity|]; split; [reflexivity|absent] ].
Defined.

(** ** Registration *)





End GinMore.

(* ===================================================================== *)
(** * More on the schema normalizer                                       *)
(* ===================================================================== *)

Module SpecMore.
Import GoLib Spec SpecBasics SpecFacts SpecShape.

(** ** Loops that change nothing *)

Lemma mapEach_fixed {A} (f : A -> M A) (s : Store) (l : list A) :
  Forall (fun x => f x s = Some (x, s)) l -> mapEach l f s = Some (l, s).
Proof.
  induction 1 as [|x l Hx Hl IH]; [reflexivity|].
  cbn [mapEach]. unfold bind. rewrite Hx. unfold bind in IH. by rewrite IH.
Qed.

Lemma forEach_fixed {A} (f : A -> M unit) (s : Store) (l : list A) :
  Forall (fun x => f x s = Some (tt, s)) l -> forEach l f s = Some (tt, s).
Proof.
  induction 1 as [|x l Hx Hl IH]; [reflexivity|].
  cbn [forEach]. unfold bind. by rewrite Hx.
Qed.

Lemma lookupKey_elem {V} (k : string) (v : V) (m : list (string * V)) :
  lookupKey k m = Some v -> v ∈ map snd m.
Proof.
  induction m as [|[k' v'] m IH]; [done|]. simpl. case_bool_decide.
  - intros [= ->]. apply list_elem_of_here.
  - intros H'. apply list_elem_of_further. by apply IH.
Qed.

Lemma processSchemaRef_fixed (fuel : nat) (s : Store) (ref : option ptr) :
  settled s ref -> processSchemaRef fuel ref s = Some (ref, s).
Proof.
  destruct ref as [p|]; [|done]. intros (o & Ho & Hm).
  unfold processSchemaRef, bind, load. by rewrite Ho, Hm.
Qed.

Lemma processContent_fixed (fuel : nat) (s : Store) (content : list (string * option MediaType)) :
  Forall (settled s) (contentSchemas content) ->
  processContent fuel content s = Some (content, s).
Proof.
  intros H. apply mapEach_fixed. unfold contentSchemas in H.
  induction content as [|[k [[m]|]] content IH].
  - constructor.
  - cbn [flat_map mediaSites snd] in H. apply Forall_cons in H as [Hm H].
    constructor; [|by apply IH]. cbn [snd fst MediaSchema].
    unfold bind. by rewrite processSchemaRef_fixed.
  - constructor; [done|]. by apply IH.
Qed.

Lemma processOperation_fixed (fuel : nat) (s : Store) (op : option Operation) :
  Forall (settled s) (operationSchemas op) ->
  processOperation fuel op s = Some (op, s).
Proof.
  destruct op as [[responses body]|]; [|done]. cbn [operationSchemas Responses OpRequestBody].
  intros H. apply Forall_app in H as [Hr Hb].
  cbn [processOperation Responses OpRequestBody]. unfold bind at 1.
  rewrite (mapEach_fixed _ s responses).
  - unfold bind at 1. destruct body as [[ref content]|]; [|done].
    cbn [RequestBodyRef RequestBodyContent] in Hb |- *.
    destruct (nonempty ref); [done|].
    unfold bind. by rewrite processContent_fixed.
  - clear Hb. induction responses as [|[k [[content]|]] responses IH].
    + constructor.
    + cbn [flat_map responseSites snd ResponseContent] in Hr.
      apply Forall_app in Hr as [Hc Hr].
      constructor; [|by apply IH]. cbn [snd fst ResponseContent].
      unfold bind. by rewrite processContent_fixed.
    + constructor; [done|]. by apply IH.
Qed.

Lemma processPathItem_fixed (fuel : nat) (s : Store) (item : option PathItem) :
  Forall (settled s) (pathItemSchemas item) ->
  processPathItem fuel item s = Some (item, s).
Proof.
  destruct item as [[connect delete get head options patch post put trace]|]; [|done].
  cbn [pathItemSchemas operations flat_map Connect Delete Get Head Options Patch Post Put Trace].
  rewrite app_nil_r. rewrite !Forall_app.
  intros (H1 & H2 & H3 & H4 & H5 & H6 & H7 & H8 & H9).
  cbn [processPathItem Connect Delete Get Head Options Patch Post Put Trace]. unfold bind.
  by rewrite !processOperation_fixed.
Qed.

(** X11.  [normalize] changes nothing in a document without markers: when
    no component and no media-type schema of an operation is a marker (each
    is nil or an object that is a reference or has no extended-type-info of
    kind specific), the normalized document is the document, whatever the
    fuel. *)
Theorem normalize_fixes_marker_free (fuel : nat) (doc : T) (Hfree : markerFree doc) :
  normalize fuel doc = Some doc.
Proof.
  destruct doc as [s paths]. destruct Hfree as [Hcomps Hsites]. cbn [store Paths] in *.
  unfold normalize. cbn [store Paths]. unfold bind at 1. cbn [getSchemas].
  unfold bind at 1. rewrite (forEach_fixed _ s).
  - rewrite (mapEach_fixed _ s paths); [done|].
    unfold usageSites in Hsites.
    induction paths as [|[k item] paths IH]; [constructor|].
    cbn [flat_map snd] in Hsites. apply Forall_app in Hsites as [Hitem Hsites].
    constructor; [|by apply IH]. cbn [snd fst].
    unfold bind. by rewrite processPathItem_fixed.
  - apply Forall_forall. intros key _. unfold normalizeComponent, bind. cbn [getSchemas].
    destruct (lookupKey key (Schemas s)) as [[p|]|] eqn:Hkey; [|done|done].
    apply lookupKey_elem in Hkey.
    rewrite Forall_forall in Hcomps. destruct (Hcomps _ Hkey) as (o & Ho & Hm).
    unfold load. by rewrite Ho, Hm.
Qed.

Lemma normalize_fixes_marker_free_witness : normalize 3 goodsDoc = Some goodsDoc.
Proof.
  apply (normalize_fixes_marker_free 3 goodsDoc). split.
  - change (Forall (settled (store goodsDoc)) [Some 0; Some 2]).
    repeat apply Forall_cons_2; try apply Forall_nil_2; eexists; split; reflexivity.
  - change (Forall (settled (store goodsDoc)) [Some 7]).
    apply Forall_cons_2; [|apply Forall_nil_2]. eexists; split; reflexivity.
Defined.

(** ** What a run keeps *)

Lemma normalize_inv (fuel : nat) (doc doc' : T) :
  normalize fuel doc = Some doc' ->
  exists s1,
    forEach (map fst doc.(store).(Schemas)) (normalizeComponent fuel) doc.(store)
      = Some (tt, s1)
    /\ mapEach doc.(Paths)
         (fun kv => let* item := processPathItem fuel kv.2 in ret (kv.1, item)) s1
       = Some (doc'.(Paths), doc'.(store)).
Proof.
  unfold normalize.
  match goal with
  | |- match ?run _ with _ => _ end = _ -> _ =>
      destruct (run (store doc)) as [[paths s']|] eqn:H
  end; [|discriminate].
  intros [= <-]. cbn [store Paths].
  apply bind_inv in H as (comps & ? & Hcomps & H). injection Hcomps as <- <-.
  apply bind_inv in H as ([] & s1 & Hloop & H). by exists s1.
Qed.

Lemma normalize_evolves (fuel : nat) (doc doc' : T) :
  normalize fuel doc = Some doc' -> evolves doc.(store) doc'.(store).
Proof.
  intros H. apply normalize_inv in H as (s1 & Hloop & Hpaths).
  apply (evolves_grows _ s1).
  - apply (normalizeComponents_evolves fuel (map fst (Schemas (store doc)))
             (store doc) (store doc) s1 ());
      [apply evolves_refl|apply keys_bound|done].
  - revert Hpaths. apply preserving_mapEach. intros kv.
    apply preserving_bind; [apply preserving_processPathItem|].
    intros item. apply preserving_ret.
Qed.

(** X12.  [normalize] never removes a component, and it rebinds only
    markers: every key of [components/schemas] is still bound afterwards, and
    a component that was a schema object other than a marker is bound to the
    same object. *)
Theorem normalize_keeps_components (fuel : nat) (doc doc' : T)
    (Hrun : normalize fuel doc = Some doc') :
  (forall k, is_Some (lookupKey k doc.(store).(Schemas)) ->
             is_Some (lookupKey k doc'.(store).(Schemas)))
  /\ (forall k p o,
        lookupKey k doc.(store).(Schemas) = Some (Some p) ->
        doc.(store).(objects) !! p = Some o -> isMarker o = false ->
        lookupKey k doc'.(store).(Schemas) = Some (Some p)).
Proof. by apply normalize_evolves in Hrun as (_ & Hkept & _). Qed.

Lemma normalize_keeps_components_witness :
  let doc' := default pageDoc (normalize 10 pageDoc) in
  lookupKey "Page" doc'.(store).(Schemas) = Some (Some 2)
  /\ lookupKey "Goods" doc'.(store).(Schemas) = Some (Some 0).
Proof.
  cbn zeta.
  assert (Hrun : normalize 10 pageDoc = Some (default pageDoc (normalize 10 pageDoc)))
    by (vm_compute; reflexivity).
  destruct (normalize_keeps_components 10 pageDoc _ Hrun) as [_ Hkept].
  split; eapply Hkept; reflexivity.
Defined.

(** ** The shape of the paths *)

Lemma mapEach_same {A B C} (f : A -> M B) (g : A -> C) (h : B -> C) :
  (forall x s y s', f x s = Some (y, s') -> h y = g x) ->
  forall l s l' s', mapEach l f s = Some (l', s') -> map h l' = map g l.
Proof.
  intros Hf. induction l as [|x l IH]; intros s l' s' H.
  - by injection H as <- <-.
  - cbn [mapEach] in H. apply bind_inv in H as (y & s1 & Hy & H).
    apply bind_inv in H as (ys & s2 & Hys & H). injection H as <- <-.
    cbn [map]. f_equal; [by apply (Hf x s y s1)|by apply (IH s1 ys s2)].
Qed.

Lemma processContent_bare (fuel : nat) (content content' : list (string * option MediaType))
    (s s' : Store) :
  processContent fuel content s = Some (content', s') ->
  bareContent content' = bareContent content.
Proof.
  apply mapEach_same. intros [k [m|]] t y t' H; cbn [snd fst] in H.
  - apply bind_inv in H as (r & ? & _ & H). by injection H as <- <-.
  - by injection H as <- <-.
Qed.

Lemma processOperation_bare (fuel : nat) (op op' : option Operation) (s s' : Store) :
  processOperation fuel op s = Some (op', s') ->
  bareOperation op' = bareOperation op /\ referencedBody op' = referencedBody op.
Proof.
  destruct op as [op|]; [|by intros [= <- <-]]. cbn [processOperation].
  intros H. apply bind_inv in H as (responses & s1 & Hr & H).
  apply bind_inv in H as (body & s2 & Hb & H). injection H as <- <-.
  assert (Hresp : map (fun kv : string * option Response =>
                         (kv.1, (fun r => {| ResponseContent := bareContent r.(ResponseContent) |})
                                  <$> kv.2)) responses
                  = map (fun kv : string * option Response =>
                         (kv.1, (fun r => {| ResponseContent := bareContent r.(ResponseContent) |})
                                  <$> kv.2)) (Responses op)).
  { revert Hr. apply mapEach_same. intros [k [r|]] t y t' H; cbn [snd fst] in H.
    - apply bind_inv in H as (c & ? & Hc & H). injection H as <- <-.
      cbn [fst snd fmap option_fmap option_map ResponseContent].
      by rewrite (processContent_bare _ _ _ _ _ Hc).
    - by injection H as <- <-. }
  cbn [bareOperation referencedBody fmap option_fmap option_map mbind option_bind
       Responses OpRequestBody].
  rewrite Hresp. destruct (OpRequestBody op) as [requestBody|].
  - destruct (nonempty (RequestBodyRef requestBody)) eqn:Href.
    + injection Hb as <- <-. cbn [fmap option_fmap option_map mbind option_bind].
      by rewrite Href.
    + apply bind_inv in Hb as (c & ? & Hc & Hb). injection Hb as <- <-.
      cbn [fmap option_fmap option_map mbind option_bind RequestBodyRef RequestBodyContent].
      by rewrite Href, (processContent_bare _ _ _ _ _ Hc).
  - by injection Hb as <- <-.
Qed.

Lemma processPathItem_bare (fuel : nat) (item item' : option PathItem) (s s' : Store) :
  processPathItem fuel item s = Some (item', s') ->
  barePathItem item' = barePathItem item
  /\ match item', item with
     | Some i', Some i => map referencedBody (operations i') = map referencedBody (operations i)
     | None, None => True
     | _, _ => False
     end.
Proof.
  destruct item as [item|]; [|by intros [= <- <-]]. cbn [processPathItem]. intros H.
  apply bind_inv in H as (o1 & s1 & H1 & H). apply bind_inv in H as (o2 & s2 & H2 & H).
  apply bind_inv in H as (o3 & s3 & H3 & H). apply bind_inv in H as (o4 & s4 & H4 & H).
  apply bind_inv in H as (o5 & s5 & H5 & H). apply bind_inv in H as (o6 & s6 & H6 & H).
  apply bind_inv in H as (o7 & s7 & H7 & H). apply bind_inv in H as (o8 & s8 & H8 & H).
  apply bind_inv in H as (o9 & s9 & H9 & H). injection H as <- <-.
  apply processOperation_bare in H1 as [B1 R1], H2 as [B2 R2], H3 as [B3 R3],
    H4 as [B4 R4], H5 as [B5 R5], H6 as [B6 R6], H7 as [B7 R7], H8 as [B8 R8],
    H9 as [B9 R9].
  cbn [barePathItem fmap option_fmap option_map operations map
       Connect Delete Get Head Options Patch Post Put Trace].
  by rewrite B1, B2, B3, B4, B5, B6, B7, B8, B9, R1, R2, R3, R4, R5, R6, R7, R8, R9.
Qed.

(** X13.  [normalize] changes media-type schemas and nothing else in the
    paths: the path keys, the operations each path has, their response codes
    and media-type keys are the same before and after, and a request body
    that is a reference is left as it is, its content included. *)
Theorem normalize_keeps_shape (fuel : nat) (doc doc' : T)
    (Hrun : normalize fuel doc = Some doc') :
  barePaths doc'.(Paths) = barePaths doc.(Paths)
  /\ referencedBodies doc'.(Paths) = referencedBodies doc.(Paths).
Proof.
  apply normalize_inv in Hrun as (s1 & _ & Hpaths). split.
  - revert Hpaths. apply mapEach_same. intros [k item] t y t' H. cbn [snd fst] in H.
    apply bind_inv in H as (item' & ? & Hitem & H). injection H as <- <-.
    cbn [fst snd]. by apply processPathItem_bare in Hitem as [-> _].
  - revert Hpaths. apply mapEach_same. intros [k item] t y t' H. cbn [snd fst] in H.
    apply bind_inv in H as (item' & ? & Hitem & H). injection H as <- <-.
    cbn [fst snd]. apply processPathItem_bare in Hitem as [_ Hitem].
    destruct item', item; try done. by rewrite Hitem.
Qed.

Lemma normalize_keeps_shape_witness :
  let doc' := default pageDoc (normalize 10 pageDoc) in
  barePaths doc'.(Paths) = barePaths pageDoc.(Paths)
  /\ referencedBodies doc'.(Paths) = referencedBodies pageDoc.(Paths).
Proof.
  apply (normalize_keeps_shape 10 pageDoc). vm_compute. reflexivity.
Defined.

(** ** [mergeArgs] *)

Lemma mergeArgs_inv (args2 : list (option ptr)) (args : list (option ptr)) :
  forall s r s', mergeArgs args args2 s = Some (r, s') ->
  s' = s /\ Forall2 (merged s args2) args r.
Proof.
  unfold mergeArgs. induction args as [|a args IH]; intros s r s' H.
  - injection H as <- <-. split; [done|constructor].
  - cbn [mapEach] in H. apply bind_inv in H as (b & s1 & Hb & H).
    apply bind_inv in H as (bs & s2 & Hbs & H). injection H as <- <-.
    apply bind_inv in Hb as (p & ? & Hp & Hb). apply must_inv in Hp as [-> ->].
    apply bind_inv in Hb as (o & ? & Ho & Hb). apply load_inv in Ho as [Ho ->].
    assert (s1 = s /\ merged s args2 (Some p) b) as [-> Hm].
    { unfold merged. destruct (Ext o) as [ext|] eqn:Hext.
      - destruct (bool_decide (ExtType ext = ExtendedTypeParam)) eqn:Hkind.
        + apply bind_inv in Hb as (tp & ? & Htp & Hb). apply must_inv in Htp as [Htp ->].
          apply must_inv in Hb as [Hb ->]. split; [done|].
          exists p, o. rewrite Hext, Hkind. repeat split; try done. by exists tp.
        + injection Hb as <- <-. split; [done|]. exists p, o. by rewrite Hext, Hkind.
      - injection Hb as <- <-. split; [done|]. exists p, o. by rewrite Hext. }
    apply IH in Hbs as [-> Hrest]. split; [done|]. by constructor.
Qed.

Lemma mergeArgs_nil_argument (args2 : list (option ptr)) (s : Store) (args : list (option ptr)) :
  None ∈ args -> mergeArgs args args2 s = None.
Proof.
  unfold mergeArgs. induction args as [|a args IH]; intros Hin.
  - by apply elem_of_nil in Hin.
  - apply elem_of_cons in Hin as [<-|Hin]; [reflexivity|].
    cbn [mapEach]. unfold bind at 1.
    match goal with |- match ?m with _ => _ end = _ => destruct m as [[b s1]|] eqn:Hb end;
      [|done].
    assert (s1 = s) as ->.
    { apply bind_inv in Hb as (p & ? & Hp & Hb). apply must_inv in Hp as [-> ->].
      apply bind_inv in Hb as (o & ? & Ho & Hb). apply load_inv in Ho as [Ho ->].
      destruct (Ext o) as [ext|]; [|by injection Hb].
      destruct (bool_decide (ExtType ext = ExtendedTypeParam)); [|by injection Hb].
      apply bind_inv in Hb as (tp & ? & Htp & Hb). apply must_inv in Htp as [Htp ->].
      by apply must_inv in Hb as [_ ->]. }
    unfold bind at 1. by rewrite (IH Hin).
Qed.

(** X14.  [mergeArgs] reads the store and does not write it; its result has
    an entry for each argument, in order: the argument itself, or, for an
    argument that is a type parameter, the entry of the outer argument list
    at the parameter's index.  A nil argument makes it panic. *)
Theorem mergeArgs_substitutes (args args2 r : list (option ptr)) (s s' : Store)
    (Hrun : mergeArgs args args2 s = Some (r, s')) :
  s' = s /\ length r = length args /\ Forall2 (merged s args2) args r
  /\ forall t, None ∈ args -> mergeArgs args args2 t = None.
Proof.
  apply mergeArgs_inv in Hrun as [-> H]. split; [done|].
  split; [symmetry; by eapply Forall2_length|]. split; [done|].
  intros t. apply mergeArgs_nil_argument.
Qed.

Lemma mergeArgs_substitutes_witness :
  mergeArgs [Some 4; Some 5] [Some 7] pageDoc.(store) = Some ([Some 7; Some 5], pageDoc.(store))
  /\ Forall2 (merged pageDoc.(store) [Some 7]) [Some 4; Some 5] [Some 7; Some 5].
Proof.
  split; [reflexivity|].
  by apply (mergeArgs_substitutes [Some 4; Some 5] [Some 7] [Some 7; Some 5]
              pageDoc.(store) pageDoc.(store)).
Defined.

(** ** A specialization that is registered already *)





End SpecMore.

(* ===================================================================== *)
(** * Theorems: the logger                                                *)
(* ===================================================================== *)

Module LogFacts.
Import GoLib GinHandler Log.

Lemma lowerByte_fixed (c : ascii) :
  (97 <=? nat_of_ascii c) && (nat_of_ascii c <=? 122) = true -> lowerByte c = c.
Proof.
  intros H. apply andb_true_iff in H as [H1 H2].
  apply Nat.leb_le in H1. unfold lowerByte.
  destruct (65 <=? nat_of_ascii c) eqn:Ha; [|done].
  destruct (nat_of_ascii c <=? 90) eqn:Hb; [|done].
  apply Nat.leb_le in Hb. lia.
Qed.

Lemma lowerASCII_fixed (s : string) : lowerLetters s = true -> lowerASCII s = s.
Proof.
  induction s as [|c s IH]; [done|]. cbn [lowerLetters lowerASCII]. intros H.
  apply andb_true_iff in H as [Hc Hs]. by rewrite lowerByte_fixed, IH.
Qed.

(** X16.  Parsing the name of a level gives the level back:
    [ParseLogLevel(l.String()) = l] for the five levels, and [silent] is the
    only name (up to case) that makes a logger silent. *)
Theorem ParseLogLevel_String (toLower : string -> string)
    (Hlower : forall s, lowerLetters s = true -> toLower s = s) (l : LogLevel) :
  ParseLogLevel toLower (LogLevel_String l) = l
  /\ forall name, ParseLogLevel toLower name = LogLevelSilent -> toLower name = "silent".
Proof.
  split.
  - destruct l; unfold ParseLogLevel; cbn zeta; cbn [LogLevel_String];
      rewrite Hlower by reflexivity; reflexivity.
  - intros name. unfold ParseLogLevel.
    repeat (case_bool_decide; try done).
Qed.

Lemma ParseLogLevel_String_witness :
  ParseLogLevel lowerASCII (LogLevel_String LogLevelDebug) = LogLevelDebug
  /\ ParseLogLevel lowerASCII "WARNING" = LogLevelWarn.
Proof.
  split; [|reflexivity].
  apply (ParseLogLevel_String lowerASCII lowerASCII_fixed LogLevelDebug).
Defined.


End LogFacts.

(* ===================================================================== *)
(** * Theorems: types of parameters                                       *)
(* ===================================================================== *)

Module ParamTypesFacts.
Import ParamTypes.

(** Closes [x ∈ l] for an element of a literal list. *)
Ltac listed := repeat first [apply list_elem_of_here | apply list_elem_of_further].

Lemma parseTypeOfType_range (t : GoType) :
  (parseTypeOfType t).2 = EmptyString
  /\ (parseTypeOfType t).1 ∈ [EmptyString; "integer"; "number"; "boolean"; "string"].
Proof.
  destruct t as [u|kind|]; cbn [parseTypeOfType]; [split; [done|listed]| |split; [done|listed]].
  destruct kind; cbn; (split; [done|listed]).
Qed.

(** X18.  The type the parameter parser finds for an identifier never has a
    format, and is one of integer, number, boolean, string or empty.  For an
    identifier that is not the name of a basic type and stands for a defined
    type it is empty, whatever the type is defined as: the look at the
    underlying type is made and its result is not used. *)
Theorem typeOfIdent_range (typeOf : string -> option GoType) (name : string) :
  (typeOfIdent typeOf name).2 = EmptyString
  /\ (typeOfIdent typeOf name).1 ∈ [EmptyString; "integer"; "number"; "boolean"; "string"]
  /\ forall underlying,
       basicType name = EmptyString -> typeOf name = Some (Named underlying) ->
       typeOfIdent typeOf name = (EmptyString, EmptyString).
Proof.
  unfold typeOfIdent. split; [|split].
  - case_bool_decide; [done|]. destruct (typeOf name) as [t|]; [|done].
    apply parseTypeOfType_range.
  - case_bool_decide.
    + cbn [fst]. unfold basicType in *. repeat (case_bool_decide; [listed|]). done.
    + destruct (typeOf name) as [t|]; [|listed]. apply parseTypeOfType_range.
  - intros underlying Hbasic ->. rewrite Hbasic. by case_bool_decide.
Qed.

End ParamTypesFacts.

(* ===================================================================== *)
(** * Theorems: schema errors and unique items                            *)
(* ===================================================================== *)

Module SchemaErrorsFacts.
Import SchemaErrors.

#[local] Set Warnings "-clear-no-such-hyp".

(** Lengths of concatenations, normalized. *)
Ltac len := repeat (progress (rewrite ?length_app; cbn [length])).

(** The loop on the middle part [m] of a path [a ++ m ++ b], started at the
    two ends of [m]: it reverses [m] and leaves [a] and [b]. *)
Lemma swapLoop_middle (n : nat) :
  forall (m a b : list string) (fuel : nat),
  length m <= n -> length m <= fuel ->
  swapLoop fuel (Z.of_nat (length a)) (Z.of_nat (length a + length m) - 1) (a ++ m ++ b)
  = Some (a ++ rev m ++ b).
Proof.
  induction n as [|n IH]; intros m a b fuel Hn Hfuel.
  - destruct m; [|simpl in Hn; lia]. destruct fuel; simpl; case_bool_decide; (done || lia).
  - destruct m as [|x t].
    { destruct fuel; simpl; case_bool_decide; (done || lia). }
    destruct (rev t) as [|y t'] eqn:Hrev.
    { assert (t = []) as ->
        by (apply (f_equal (@rev _)) in Hrev; by rewrite rev_involutive in Hrev).
      destruct fuel; simpl; case_bool_decide; (done || lia). }
    assert (t = rev t' ++ [y]) as ->.
    { apply (f_equal (@rev _)) in Hrev. by rewrite rev_involutive in Hrev. }
    clear Hrev. set (u := rev t') in *.
    assert (Hlen : length (x :: u ++ [y]) = S (S (length u))) by (len; lia).
    rewrite Hlen in Hn, Hfuel |- *.
    replace (a ++ (x :: u ++ [y]) ++ b) with (a ++ x :: u ++ y :: b)
      by (cbn [app]; by rewrite <- !app_assoc).
    assert (Hl : (a ++ x :: u ++ y :: b) !! length a = Some x)
      by (by apply list_lookup_middle).
    assert (Hr : (a ++ x :: u ++ y :: b) !! length (a ++ x :: u) = Some y).
    { replace (a ++ x :: u ++ y :: b) with ((a ++ x :: u) ++ y :: b)
        by (by rewrite <- app_assoc).
      by apply list_lookup_middle. }
    assert (Hswap : <[length (a ++ x :: u) := x]> (<[length a := y]> (a ++ x :: u ++ y :: b))
                    = (a ++ [y]) ++ u ++ x :: b).
    { rewrite (insert_app_r_alt a) by lia. rewrite Nat.sub_diag. cbn [insert list_insert].
      replace (a ++ y :: u ++ y :: b) with ((a ++ y :: u) ++ y :: b)
        by (by rewrite <- app_assoc).
      rewrite (insert_app_r_alt (a ++ y :: u)) by (len; lia).
      replace (length (a ++ x :: u) - length (a ++ y :: u)) with 0 by (len; lia).
      cbn [insert list_insert]. by rewrite <- !app_assoc. }
    destruct fuel as [|fuel]; [lia|]. cbn [swapLoop].
    rewrite bool_decide_eq_true_2 by lia.
    rewrite Nat2Z.id.
    replace (Z.to_nat (Z.of_nat (length a + S (S (length u))) - 1))
      with (length (a ++ x :: u)) by (len; lia).
    rewrite Hl, Hr, Hswap.
    replace (Z.of_nat (length a) + 1)%Z with (Z.of_nat (length (a ++ [y])))
      by (len; lia).
    replace (Z.of_nat (length a + S (S (length u))) - 1 - 1)%Z
      with (Z.of_nat (length (a ++ [y]) + length u) - 1)%Z by (len; lia).
    rewrite IH by lia.
    cbn [rev]. rewrite rev_app_distr. cbn [rev app].
    by rewrite <- !app_assoc.
Qed.

Lemma reversePath_marked (keys : list string) (err : SchemaError) :
  reversePath (foldl markSchemaErrorKey err keys) = reversePath err ++ keys.
Proof.
  revert err. induction keys as [|k keys IH]; intros err; cbn [foldl].
  - by rewrite app_nil_r.
  - rewrite IH. cbn [markSchemaErrorKey reversePath]. by rewrite <- app_assoc.
Qed.

Lemma JSONPointer_rev (err : SchemaError) : JSONPointer err = Some (rev (reversePath err)).
Proof.
  unfold JSONPointer.
  pose proof (swapLoop_middle (length (reversePath err)) (reversePath err) [] []
                (length (reversePath err))) as H.
  cbn [length app] in H. rewrite !app_nil_r in H. apply H; lia.
Qed.

(** X19.  [SchemaError.JSONPointer] returns the reverse path reversed: the
    swapping loop ends and reverses the copy it works on.  So for an error
    marked with keys on its way out, innermost first, the pointer lists the
    keys outermost first, after them what the pointer was before. *)
Theorem JSONPointer_reverses (err : SchemaError) (keys : list string) :
  JSONPointer err = Some (rev err.(reversePath))
  /\ JSONPointer (foldl markSchemaErrorKey err keys)
     = Some (rev keys ++ rev err.(reversePath)).
Proof.
  split; [apply JSONPointer_rev|].
  by rewrite JSONPointer_rev, reversePath_marked, rev_app_distr.
Qed.

Section Unique.
Context {A : Type}.
Variable Marshal : A -> string.

Lemma seen_keys (xs : list A) (acc : gset string) :
  foldl (fun m x => {[ Marshal x ]} ∪ m) acc xs = list_to_set (map Marshal xs) ∪ acc.
Proof.
  revert acc. induction xs as [|x xs IH]; intros acc; cbn [foldl map].
  - set_solver.
  - rewrite IH. set_solver.
Qed.

Lemma size_keys_le (l : list string) : size (list_to_set l : gset string) <= length l.
Proof.
  induction l as [|x l IH]; [by rewrite list_to_set_nil, size_empty|].
  rewrite list_to_set_cons, size_union_alt, size_singleton. cbn [length].
  assert (size (list_to_set l ∖ {[x]} : gset string) <= size (list_to_set l : gset string))
    by (apply subseteq_size; set_solver).
  lia.
Qed.

Lemma size_keys_NoDup (l : list string) :
  size (list_to_set l : gset string) = length l -> NoDup l.
Proof.
  induction l as [|x l IH]; [constructor|]. intros H.
  rewrite list_to_set_cons in H. cbn [length] in H.
  pose proof (size_keys_le l) as Hle.
  destruct (decide (x ∈ l)) as [Hin|Hnot].
  - exfalso.
    assert (Heq : ({[x]} ∪ list_to_set l : gset string) = list_to_set l) by set_solver.
    rewrite Heq in H. lia.
  - constructor; [done|]. apply IH.
    rewrite size_union, size_singleton in H by set_solver. lia.
Qed.

(** X20.  [isSliceOfUniqueItems] holds exactly when no two items have the
    same JSON text. *)
Theorem isSliceOfUniqueItems_NoDup (xs : list A) :
  isSliceOfUniqueItems Marshal xs = true <-> NoDup (map Marshal xs).
Proof.
  unfold isSliceOfUniqueItems. rewrite seen_keys, bool_decide_eq_true.
  replace (list_to_set (map Marshal xs) ∪ ∅ : gset string)
    with (list_to_set (map Marshal xs) : gset string) by set_solver.
  split.
  - intros H. apply size_keys_NoDup. by rewrite <- H, length_map.
  - intros H. by rewrite size_list_to_set, length_map.
Qed.

End Unique.

End SchemaErrorsFacts.

(* ===================================================================== *)
(** * Theorems: finding go.mod                                            *)
(* ===================================================================== *)

Module GoModFacts.
Import GoLib GoMod.

(** The directory part of a path has no file part of its own. *)
Lemma FSplit_dir (p : string) : FSplit (FSplit p).1 = ((FSplit p).1, EmptyString).
Proof.
  induction p as [|c rest IH]; [reflexivity|]. cbn [FSplit].
  destruct (FSplit rest) as [dir file] eqn:Hrest. cbn [fst] in IH.
  destruct (nonempty dir) eqn:Hdir.
  - cbn [fst FSplit]. rewrite IH. by rewrite Hdir.
  - destruct dir; [|done]. destruct (Ascii.eqb c slash) eqn:Hc.
    + cbn [fst FSplit nonempty]. by rewrite Hc.
    + reflexivity.
Qed.

(** X21.  [lookupGoModFile] looks for [go.mod] in the directory it is given
    and in the directory its path splits off, and nowhere else: the loop ends
    after at most two rounds, because the directory part [filepath.Split]
    returns ends in the separator and splits into itself and an empty rest.
    With fuel for two rounds the result is the closed form below, with the
    names [os.Stat] was called on. *)
Theorem lookupGoModFile_two_rounds (stat : string -> bool) (pkgPath : string) (fuel : nat)
    (Hfuel : 2 <= fuel) :
  let here := Join [pkgPath; "go.mod"] in
  let parent := (FSplit pkgPath).1 in
  let above := Join [parent; "go.mod"] in
  lookupGoModFile stat fuel pkgPath []
  = Some (if stat here then (TrimSuffix pkgPath, here, [here])
          else if nonempty (FSplit pkgPath).2 then
                 if stat above then (TrimSuffix parent, above, [here; above])
                 else (EmptyString, EmptyString, [here; above])
               else (EmptyString, EmptyString, [here])).
Proof.
  cbn zeta. destruct fuel as [|[|fuel]]; try lia. cbn [lookupGoModFile app].
  destruct (stat (Join [pkgPath; "go.mod"])); [done|].
  destruct (FSplit pkgPath) as [dir suffix] eqn:Hsplit. cbn [fst snd].
  destruct (nonempty suffix); [|done].
  destruct (stat (Join [dir; "go.mod"])); [done|].
  pose proof (FSplit_dir pkgPath) as Hdir. rewrite Hsplit in Hdir. cbn [fst] in Hdir.
  by rewrite Hdir.
Qed.

Lemma lookupGoModFile_two_rounds_witness :
  workModule "/work/go.mod" = true
  /\ lookupGoModFile workModule 5 "/work/cmd/app" []
     = Some (EmptyString, EmptyString, ["/work/cmd/app/go.mod"; "/work/cmd/go.mod"]).
Proof.
  split; [reflexivity|].
  rewrite (lookupGoModFile_two_rounds workModule "/work/cmd/app" 5) by lia.
  reflexivity.
Defined.

End GoModFacts.

(* ===================================================================== *)
(** * More on the handler analyzer                                        *)
(* ===================================================================== *)

Module GinHandlerMore.
Import GoLib Ast Spec GinHandler SpecBasics GinHandlerFacts GinBindings.
Import SpecFacts (lookupKey_setKey_ne).

Section Analyzer.

Variable Unquote : string -> string * bool.
Variable tagParse : string -> list (string * string).
Variable ToCamel : string -> string.
Variable ctx : Context.
Variable paramParser :
  (string -> list (string * string) -> string * string) -> Expr -> M (list Parameter_).



(** ** Form fields, one after the other *)

(** What a further form field does to the document: the form schema gets the
    property, the new property schema is the last object, and every other
    object stays. *)
Lemma parseFormData_keeps (call : Expr) (kind : Token) (value : string) (rest : list Expr)
    (s : State) (schema : ptr) :
  callArgs call = BasicLit kind value :: rest ->
  formSchema s schema ->
  exists s' so so',
    parseFormData ToCamel ctx call "string" [] s = Returned tt s'
    /\ formSchema s' schema
    /\ s.(doc).(objects) !! schema = Some so
    /\ s'.(doc).(objects) !! schema = Some so'
    /\ so'.(Properties)
       = setKey (Trim dquote value) (Some (length s.(doc).(objects))) so.(Properties)
    /\ forall q o, q <> schema -> s.(doc).(objects) !! q = Some o ->
                   s'.(doc).(objects) !! q = Some o.
Proof.
  intros Hargs (schemaRef & Hmedia & Hunref & [so Hso]).
  pose proof Hunref as Hunref0.
  rewrite Unref_unfold in Hunref0.
  destruct (objects (doc s) !! schemaRef) as [ro|] eqn:Hro; [|discriminate].
  unfold parseFormData. rewrite Hargs.
  set (name := Trim dquote value).
  unfold hbind at 1. unfold onDoc at 1. unfold alloc at 1.
  unfold hbind at 1. unfold onDoc at 1. cbn [forEach ret doc].
  unfold hbind at 1. unfold getSpec at 1. cbn [spec].
  rewrite form_media, Hmedia.
  unfold hbind at 1. unfold onDoc at 1. unfold update at 1. cbn [doc objects Schemas].
  rewrite list_lookup_middle by done.
  rewrite insert_app_r_alt by done. rewrite Nat.sub_diag. cbn [insert list_insert].
  set (n := length (objects (doc s))).
  set (paramSchema := withDescription _ _).
  set (d1 := {| objects := objects (doc s) ++ [paramSchema]; Schemas := Schemas (doc s) |}).
  assert (Hn_so : schema < n) by (by apply lookup_lt_Some in Hso).
  assert (Hn_ro : schemaRef < n) by (by apply lookup_lt_Some in Hro).
  assert (Hunref1 : Unref schemaRef d1 = Some (Some schema, d1)).
  { apply (Unref_stable schemaRef (doc s) d1 (Some schema) ro ro); try done.
    unfold d1. cbn [objects]. by rewrite lookup_app_l. }
  unfold hbind at 1. unfold hbind at 1. unfold onDoc at 1. cbn [doc].
  rewrite Hunref1.
  unfold hbind at 1. unfold onDoc at 1. cbn [doc must ret].
  unfold hbind at 1. unfold onDoc at 1. unfold update at 1. cbn [doc d1 objects Schemas].
  rewrite lookup_app_l by done. rewrite Hso.
  unfold hret at 1. cbn [fst snd].
  unfold hbind at 1. unfold setSpec at 1.
  set (so' := WithProperty name (Some n) so).
  set (objs2 := <[schema := so']> (objects (doc s) ++ [paramSchema])).
  assert (Hlen2 : length objs2 = S n).
  { unfold objs2. rewrite length_insert, length_app. simpl. unfold n. lia. }
  assert (Hs2 : objs2 !! schema = Some so').
  { unfold objs2. apply list_lookup_insert_eq. rewrite length_app. simpl. unfold n in *. lia. }
  assert (Hkeep2 : forall q o, q <> schema -> objects (doc s) !! q = Some o ->
                               objs2 !! q = Some o).
  { intros q o Hq Ho. unfold objs2. rewrite list_lookup_insert_ne by done.
    rewrite lookup_app_l by (by apply lookup_lt_Some in Ho). done. }
  assert (Href : forall objs3 so3,
             objs3 !! schema = Some so3 -> Ref so3 = Ref so -> Key so3 = Key so ->
             (schemaRef <> schema -> objs3 !! schemaRef = Some ro) ->
             Unref schemaRef {| objects := objs3; Schemas := Schemas (doc s) |}
             = Some (Some schema, {| objects := objs3; Schemas := Schemas (doc s) |})).
  { intros objs3 so3 H3 Hr Hk Hother.
    destruct (decide (schemaRef = schema)) as [Heq|Hne].
    - apply (Unref_stable schemaRef (doc s) _ (Some schema) ro so3); try done.
      + by rewrite Heq.
      + rewrite Hr. rewrite Heq in Hro. congruence.
      + rewrite Hk. rewrite Heq in Hro. congruence.
    - apply (Unref_stable schemaRef (doc s) _ (Some schema) ro ro); try done.
      by apply Hother. }
  destruct (CommentRequired (commentOf ctx call)).
  - unfold onDoc, update. cbn [doc objects Schemas]. rewrite Hs2.
    assert (Hs3 : <[schema := withRequired (Required so' ++ [name]) so']> objs2 !! schema
                  = Some (withRequired (Required so' ++ [name]) so')).
    { apply list_lookup_insert_eq. rewrite Hlen2. lia. }
    eexists _, so, (withRequired (Required so' ++ [name]) so').
    split; [reflexivity|]. cbn [doc spec objects Schemas].
    split; [|split; [done|split; [done|split; [done|]]]].
    + exists schemaRef. split; [apply formMediaSchema_set|]. split; [|by eexists].
      apply (Href _ _ Hs3); try done.
      intros Hne. rewrite list_lookup_insert_ne by done. by apply Hkeep2.
    + intros q o Hq Ho. rewrite list_lookup_insert_ne by done. by apply Hkeep2.
  - unfold hret. eexists _, so, so'. split; [reflexivity|].
    cbn [doc spec objects Schemas].
    split; [|split; [done|split; [done|split; [done|]]]].
    + exists schemaRef. split; [apply formMediaSchema_set|]. split; [|by eexists].
      apply (Href _ _ Hs2); try done. intros Hne. by apply Hkeep2.
    + exact Hkeep2.
Qed.

(** X23.  Form fields accumulate: after [PostForm] with one literal name and
    then [PostForm] with another, the form schema of the request body has a
    string property for each, the first one as the first call made it. *)
Theorem form_fields_accumulate
    (call1 call2 : Expr) (kind1 kind2 : Token) (lit1 lit2 : string) (rest1 rest2 : list Expr)
    (s : State)
    (Hargs1 : callArgs call1 = BasicLit kind1 lit1 :: rest1)
    (Hargs2 : callArgs call2 = BasicLit kind2 lit2 :: rest2)
    (Hnames : Trim dquote lit1 <> Trim dquote lit2)
    (Hready : formReady s) :
  exists s1 s2,
    Parse Unquote tagParse ToCamel ctx call1 "PostForm" s = Returned tt s1
    /\ Parse Unquote tagParse ToCamel ctx call2 "PostForm" s1 = Returned tt s2
    /\ hasFormProperty s2 (Trim dquote lit1) (formProperty ctx call1 (Trim dquote lit1))
    /\ hasFormProperty s2 (Trim dquote lit2) (formProperty ctx call2 (Trim dquote lit2)).
Proof.
  change (Parse Unquote tagParse ToCamel ctx call1 "PostForm")
    with (parseFormData ToCamel ctx call1 "string" []).
  change (Parse Unquote tagParse ToCamel ctx call2 "PostForm")
    with (parseFormData ToCamel ctx call2 "string" []).
  assert (exists s1, parseFormData ToCamel ctx call1 "string" [] s = Returned tt s1
                     /\ hasFormProperty s1 (Trim dquote lit1)
                          (formProperty ctx call1 (Trim dquote lit1)))
    as (s1 & Hrun1 & Hfirst).
  { destruct Hready as [Hnone|[schema Hschema]].
    - by apply (parseFormData_first ToCamel ctx call1 kind1 lit1 rest1).
    - by apply (parseFormData_next ToCamel ctx call1 kind1 lit1 rest1 s schema). }
  destruct Hfirst as (schema & so & p & Hform & Hso & Hprop & Hp).
  destruct (parseFormData_keeps call2 kind2 lit2 rest2 s1 schema Hargs2 Hform)
    as (s2 & so1 & so2 & Hrun2 & Hform2 & Hso1 & Hso2 & Hprops & Hkeep).
  rewrite Hso in Hso1. injection Hso1 as <-.
  destruct (parseFormData_next ToCamel ctx call2 kind2 lit2 rest2 s1 schema Hargs2 Hform)
    as (s2' & Hrun2' & Hsecond).
  rewrite Hrun2 in Hrun2'. injection Hrun2' as <-.
  exists s1, s2. split; [done|]. split; [done|]. split; [|done].
  exists schema, so2, p. split; [done|]. split; [done|]. split.
  - rewrite Hprops, lookupKey_setKey_ne by done. done.
  - apply Hkeep; [|done]. intros ->. rewrite Hso in Hp. injection Hp as ->.
    by cbn in Hprop.
Qed.

(** ** Bindings with a content type *)

Lemma parseBindWith_returns (call arg0 arg1 : Expr) (rest : list Expr) (s : State)
    (d : Store) (schema : ptr) (o : Schema) :
  callArgs call = arg0 :: arg1 :: rest ->
  getContentTypeFromBinding arg1 <> EmptyString ->
  ctx.(GetSchemaByExpr) arg0 (getContentTypeFromBinding arg1) s.(doc) = Some (Some schema, d) ->
  d.(objects) !! schema = Some o ->
  let contentType := getContentTypeFromBinding arg1 in
  let d' := match ctx.(headingComment) call with
            | Some comment =>
                {| objects := <[schema := withDescription comment.(Text) o]> d.(objects);
                   Schemas := d.(Schemas) |}
            | None => d
            end in
  parseBindWith ctx call s
  = Returned tt
      {| doc := d';
         spec := {| Parameters_ := s.(spec).(Parameters_);
                    RequestBody_ := Some (requestBodyWithSchemaRef (Some schema) [contentType]);
                    OperationID := s.(spec).(OperationID) |};
         logger := s.(logger);
         logged := (logState LogLevelDebug (InferredContentType contentType) s).(logged) |}.
Proof.
  intros Hargs Hct Hschema Ho. cbn zeta. unfold parseBindWith. rewrite Hargs.
  apply EapiFacts.nonempty_true in Hct. rewrite Hct.
  unfold hbind at 1. cbn [hret]. unfold hbind at 1. unfold LogDebug, logAt.
  unfold hbind at 1. unfold onDoc at 1.
  replace (doc (logState LogLevelDebug (InferredContentType (getContentTypeFromBinding arg1)) s))
    with (doc s) by (unfold logState; by case_bool_decide).
  rewrite Hschema. unfold hbind at 1. cbn [hret]. unfold hbind at 1.
  destruct (headingComment ctx call) as [comment|].
  - unfold onDoc, update. cbn [doc]. rewrite Ho.
    unfold hbind, getSpec, setSpec. cbn [doc spec logger logged].
    unfold logState. by case_bool_decide.
  - cbn [hret]. unfold hbind, getSpec, setSpec. cbn [doc spec logger logged].
    unfold logState. by case_bool_decide.
Qed.

Lemma parseBindWithContentType_returns (call arg0 : Expr) (contentType : string) (s : State)
    (d : Store) (schema : ptr) (o : Schema) :
  callArgs call = [arg0] ->
  ctx.(GetSchemaByExpr) arg0 contentType s.(doc) = Some (Some schema, d) ->
  d.(objects) !! schema = Some o ->
  let d' := match ctx.(headingComment) call with
            | Some comment =>
                {| objects := <[schema := withDescription comment.(Text) o]> d.(objects);
                   Schemas := d.(Schemas) |}
            | None => d
            end in
  parseBindWithContentType ctx call contentType s
  = Returned tt
      {| doc := d';
         spec := {| Parameters_ := s.(spec).(Parameters_);
                    RequestBody_ := Some (requestBodyWithSchemaRef (Some schema) [contentType]);
                    OperationID := s.(spec).(OperationID) |};
         logger := s.(logger);
         logged := s.(logged) |}.
Proof.
  intros Hargs Hschema Ho. cbn zeta. unfold parseBindWithContentType. rewrite Hargs.
  unfold hbind at 1. unfold onDoc at 1. rewrite Hschema.
  unfold hbind at 1.
  destruct (headingComment ctx call) as [comment|].
  - unfold onDoc, update. cbn [doc]. rewrite Ho.
    unfold hbind, getSpec, setSpec. by cbn [doc spec logger logged].
  - cbn [hret]. unfold hbind, getSpec, setSpec. by cbn [doc spec logger logged].
Qed.

(** X24.  [ShouldBindWith] with a binding whose content type is known does
    what the binding method of that content type does: on calls that bind the
    same expression under the same heading comment, when the schema of the
    expression is found, [parseBindWith] and [parseBindWithContentType] leave
    the same document and the same operation, whose request body has that one
    content type with the schema, and whose parameters are untouched.  They
    differ in the log line of [parseBindWith] only. *)
Theorem parseBindWith_agrees_with_content_type
    (call1 call2 arg0 arg1 : Expr) (rest : list Expr) (s : State)
    (d : Store) (schema : ptr) (o : Schema)
    (Hargs1 : callArgs call1 = [arg0])
    (Hargs2 : callArgs call2 = arg0 :: arg1 :: rest)
    (Hcomment : ctx.(headingComment) call1 = ctx.(headingComment) call2)
    (Hbinding : getContentTypeFromBinding arg1 <> EmptyString)
    (Hschema : ctx.(GetSchemaByExpr) arg0 (getContentTypeFromBinding arg1) s.(doc)
               = Some (Some schema, d))
    (Hobject : d.(objects) !! schema = Some o) :
  let contentType := getContentTypeFromBinding arg1 in
  outcome (parseBindWith ctx call2 s)
  = outcome (parseBindWithContentType ctx call1 contentType s)
  /\ exists s', parseBindWith ctx call2 s = Returned tt s'
       /\ s'.(spec).(RequestBody_)
          = Some {| RequestBodyRef := EmptyString;
                    RequestBodyContent :=
                      [(contentType, Some {| MediaSchema := Some schema |})] |}
       /\ s'.(spec).(Parameters_) = s.(spec).(Parameters_).
Proof.
  cbn zeta.
  rewrite (parseBindWith_returns call2 arg0 arg1 rest s d schema o) by done.
  rewrite (parseBindWithContentType_returns call1 arg0 _ s d schema o) by done.
  rewrite Hcomment. split; [done|]. eexists. by split.
Qed.

(** ** [Bind] *)

Lemma forEachH_AddParameter (params : list Parameter_) :
  forall s : State,
  forEachH params (fun param => AddParameter (Some param)) s
  = Returned tt (withParameters (s.(spec).(Parameters_) ++ params) s).
Proof.
  induction params as [|param params IH]; intros s; cbn [forEachH].
  - unfold hret, withParameters. rewrite app_nil_r. by destruct s as [? [] ? ?].
  - unfold hbind at 1. cbn [AddParameter]. unfold hbind at 1, getSpec, setSpec.
    rewrite IH. unfold withParameters. cbn [doc spec logger logged Parameters_ RequestBody_
                                           OperationID].
    by rewrite <- app_assoc.
Qed.

(** X25.  [Bind] and [ShouldBind] read the struct as parameters or as the
    request body, never as both: in a handler of GET, HEAD, OPTIONS or DELETE
    they add the parameters of the struct and leave the request body as it
    is; in a handler of any other method they leave the parameters as they
    are, and the content type of the request body they set is the first one
    the operation consumes, or [application/json] when it names none. *)
Theorem parseBinding_parameters_or_body
    (method : string) (consumes : list string) (call : Expr) (s s' : State)
    (Hrun : parseBinding ctx paramParser method consumes call s = Returned tt s') :
  (method ∈ ["GET"; "HEAD"; "OPTIONS"; "DELETE"] ->
     s'.(spec).(RequestBody_) = s.(spec).(RequestBody_)
     /\ exists params, s'.(spec).(Parameters_) = s.(spec).(Parameters_) ++ params)
  /\ (method ∉ ["GET"; "HEAD"; "OPTIONS"; "DELETE"] ->
        s'.(spec).(Parameters_) = s.(spec).(Parameters_)
        /\ (s'.(spec).(RequestBody_) = s.(spec).(RequestBody_)
            \/ exists schema,
                 s'.(spec).(RequestBody_)
                 = Some (requestBodyWithSchemaRef schema
                           [match consumes with
                            | first :: _ => first
                            | [] => MimeTypeJson
                            end]))).
Proof.
  unfold parseBinding in Hrun.
  destruct (callArgs call) as [|arg0 [|]] eqn:Hargs.
  1,3: injection Hrun as <-; split; intros _; (split; [done|]);
       [by (exists []; rewrite app_nil_r)|by left].
  case_bool_decide as Hm; split; intros Hm'; try done.
  - unfold hbind at 1, onDoc at 1 in Hrun.
    destruct (paramParser paramNameParser arg0 (doc s)) as [[params d]|]; [|done].
    rewrite forEachH_AddParameter in Hrun. injection Hrun as <-.
    cbn [withParameters spec doc RequestBody_ Parameters_]. split; [done|]. by exists params.
  - unfold parseBindWithContentType in Hrun. rewrite Hargs in Hrun.
    unfold hbind at 1, onDoc at 1 in Hrun.
    destruct (GetSchemaByExpr ctx arg0 _ (doc s)) as [[[schema|] d]|]; [| |done].
    + unfold hbind at 1 in Hrun.
      assert (Hct : getDefaultContentType consumes method
                    = match consumes with first :: _ => first | [] => MimeTypeJson end).
      { unfold getDefaultContentType. destruct consumes; [|done].
        rewrite bool_decide_eq_false_2; [done|].
        intros Hin. apply Hm'. rewrite !elem_of_cons in Hin |- *.
        destruct Hin as [->|[->|Hin]]; auto. by apply elem_of_nil in Hin. }
      rewrite Hct in Hrun.
      destruct (headingComment ctx call) as [comment|].
      * unfold onDoc, update in Hrun. cbn [doc] in Hrun.
        destruct (objects d !! schema); [|done].
        unfold hbind, getSpec, setSpec in Hrun. injection Hrun as <-.
        cbn [spec Parameters_ RequestBody_]. split; [done|]. right. by exists (Some schema).
      * unfold hbind, hret, getSpec, setSpec in Hrun. injection Hrun as <-.
        cbn [spec Parameters_ RequestBody_]. split; [done|]. right. by exists (Some schema).
    + unfold hret in Hrun. injection Hrun as <-. cbn [spec]. split; [done|]. by left.
Qed.

End Analyzer.

Ltac apart :=
  let H := fresh in
  intros H; repeat (apply elem_of_cons in H as [H|H]; [discriminate|]);
  by apply elem_of_nil in H.


Lemma form_fields_accumulate_witness :
  exists s1 s2,
    Parse unquotePlain tagsOfGuid camelShop plainContext
      (accessorCall "PostForm" "name" "x") "PostForm" startState = Returned tt s1
    /\ Parse unquotePlain tagsOfGuid camelShop plainContext
         (accessorCall "PostForm" "price" "y") "PostForm" s1 = Returned tt s2
    /\ hasFormProperty s2 "name"
         (formProperty plainContext (accessorCall "PostForm" "name" "x") "name")
    /\ hasFormProperty s2 "price"
         (formProperty plainContext (accessorCall "PostForm" "price" "y") "price").
Proof.
  apply (form_fields_accumulate unquotePlain tagsOfGuid camelShop plainContext
           (accessorCall "PostForm" "name" "x") (accessorCall "PostForm" "price" "y")
           STRING STRING (quote "name") (quote "price")
           [BasicLit STRING (quote "x")] [BasicLit STRING (quote "y")] startState).
  - reflexivity.
  - reflexivity.
  - vm_compute. discriminate.
  - left. reflexivity.
Defined.

Lemma parseBindWith_agrees_with_content_type_witness :
  outcome (parseBindWith plainContext bindWithJSONCall reqState)
  = outcome (parseBindWithContentType plainContext bindJSONCall MimeTypeJson reqState)
  /\ exists s', parseBindWith plainContext bindWithJSONCall reqState = Returned tt s'
       /\ s'.(spec).(RequestBody_)
          = Some {| RequestBodyRef := EmptyString;
                    RequestBodyContent :=
                      [(MimeTypeJson, Some {| MediaSchema := Some 0 |})] |}
       /\ s'.(spec).(Parameters_) = reqState.(spec).(Parameters_).
Proof.
  apply (parseBindWith_agrees_with_content_type plainContext bindJSONCall bindWithJSONCall
           (UnaryExpr (Ident "req")) (SelectorExpr (Ident "binding") "JSON") [] reqState
           reqState.(doc) 0 NewObjectSchema).
  - reflexivity.
  - reflexivity.
  - reflexivity.
  - vm_compute. discriminate.
  - reflexivity.
  - reflexivity.
Defined.

Lemma parseBinding_parameters_or_body_witness :
  let s' := match parseBinding plainContext (fun _ _ => ret []) "POST" [] bindJSONCall reqState with
            | Returned _ t => t
            | _ => reqState
            end in
  s'.(spec).(Parameters_) = reqState.(spec).(Parameters_)
  /\ s'.(spec).(RequestBody_)
     = Some (requestBodyWithSchemaRef (Some 0) [MimeTypeJson]).
Proof.
  cbn zeta.
  destruct (parseBinding_parameters_or_body plainContext (fun _ _ => ret []) "POST" []
              bindJSONCall reqState _ eq_refl) as [_ Hbody].
  destruct Hbody as [Hparams _]; [apart|].
  split; [exact Hparams|reflexivity].
Defined.

End GinHandlerMore.

(* ===================================================================== *)
(** * Theorems: model keys                                                *)
(* ===================================================================== *)

Module TypeKeysFacts.
Import GoLib Ast Eapi Spec SpecBasics TypeKeys.

Lemma ReplaceAll_free (s : string) : slash ∉ Gin.bytes (ReplaceAll s).
Proof.
  induction s as [|c s IH]; [apply not_elem_of_nil|]. cbn [ReplaceAll Gin.bytes].
  apply not_elem_of_cons. split; [|done].
  destruct (Ascii.eqb c slash) eqn:Hc; [done|]. apply Ascii.eqb_neq in Hc. congruence.
Qed.

(** X26.  The key the normalizer gives the specialization of a generic type
    is the model key of the type with the arguments: for a schema that refers
    to the type by [RefKey] without arguments, [modelKey] on the schema's key
    and the arguments computes what [ModelKey] computes for them.  The part
    of the key that comes from the package path has no slash. *)
Theorem modelKey_agrees_with_ModelKey
    (t : TypeDefinition) (args : list (option ptr)) (ref : Schema) (r : string) (s : Store)
    (Hkey : RefKey t [] s = Some (r, s))
    (Href : ref.(Ref) = r) :
  modelKey (GetKey ref) args s = ModelKey t args s
  /\ GetKey ref = ReplaceAll t.(tpkg).(PkgPath) +:+ "." +:+ t.(Spec).(TypeName)
  /\ slash ∉ Gin.bytes (ReplaceAll t.(tpkg).(PkgPath)).
Proof.
  injection Hkey as <-.
  assert (Hget : GetKey ref = ReplaceAll t.(tpkg).(PkgPath) +:+ "." +:+ t.(Spec).(TypeName)).
  { unfold GetKey. rewrite Href.
    change (nonempty ("#/components/schemas/" +:+ _)) with true. cbn iota.
    change "#/components/schemas/" with componentsSchemasPrefix.
    by rewrite stripPrefix_append. }
  split; [|split; [done|apply ReplaceAll_free]].
  rewrite Hget. by destruct args.
Qed.

Lemma modelKey_agrees_with_ModelKey_witness :
  modelKey (GetKey (RefComponentSchemas "shop_model.Page")) [Some 7] pageDoc.(store)
  = ModelKey pageType [Some 7] pageDoc.(store)
  /\ ModelKey pageType [Some 7] pageDoc.(store)
     = Some ("shop_model.Page[Goods]", pageDoc.(store)).
Proof.
  split; [|reflexivity].
  by apply (modelKey_agrees_with_ModelKey pageType [Some 7]
              (RefComponentSchemas "shop_model.Page") "#/components/schemas/shop_model.Page"
              pageDoc.(store)).
Defined.

End TypeKeysFacts.

(* ===================================================================== *)
(** * Theorems: the OpenAPI settings                                      *)
(* ===================================================================== *)

Module OpenAPISettingsFacts.
Import GoLib OpenAPISettings.

Section Schemes.
Variable SecurityScheme : Type.

(** The loop over the configured schemes builds the map it ranges over. *)
Lemma schemes_copied (schemes : gmap string SecurityScheme) :
  map_fold (fun name scheme m => <[name := scheme]> m) ∅ schemes = schemes.
Proof.
  apply (map_fold_weak_ind (fun r m => r = m)); [done|].
  intros name scheme m r _ ->. done.
Qed.

Lemma orKeep_twice (v old : string) : orKeep v (orKeep v old) = orKeep v old.
Proof. unfold orKeep. by destruct (nonempty v). Qed.

Lemma applyInfo_twice (c : Info) (info info' : option Info) :
  applyInfo c info = Some info' -> applyInfo c info' = Some info'.
Proof.
  unfold applyInfo.
  destruct (nonempty (Version c) || nonempty (Title c) || nonempty (InfoDescription c)
            || nonempty (TermsOfService c)); [|by intros [= <-]].
  destruct info as [i|]; [|done]. intros [= <-].
  cbn [Version Title InfoDescription TermsOfService]. by rewrite !orKeep_twice.
Qed.

(** X27.  [ApplyToDoc] writes the settings that are given and keeps the rest
    of the document: applying a configuration a second time changes nothing,
    a configuration that gives nothing (no version string, no info, no
    security schemes) leaves the document as it is, configured security
    schemes replace the ones of the document, and on a document whose info is
    set, as [NewAnalyzer] makes it, [ApplyToDoc] does not panic. *)
Theorem ApplyToDoc_idempotent (c : OpenAPIConfig SecurityScheme)
    (doc doc' : DocHead SecurityScheme)
    (Hrun : ApplyToDoc c doc = Some doc') :
  ApplyToDoc c doc' = Some doc'
  /\ ApplyToDoc {| OpenAPI := EmptyString; ConfigInfo := None; SecuritySchemes := None |} doc
     = Some doc
  /\ (forall schemes, c.(SecuritySchemes) = Some schemes ->
        doc'.(DocSecuritySchemes) = Some schemes)
  /\ forall (c' : OpenAPIConfig SecurityScheme) (d : DocHead SecurityScheme),
       is_Some d.(DocInfo) -> is_Some (ApplyToDoc c' d).
Proof.
  split; [|split; [|split]].
  - unfold ApplyToDoc in *.
    destruct (match ConfigInfo c with
              | Some i => applyInfo i (DocInfo doc)
              | None => Some (DocInfo doc)
              end) as [info|] eqn:Hinfo; [|done].
    injection Hrun as <-. cbn [DocOpenAPI DocInfo DocSecuritySchemes].
    assert (Hagain : match ConfigInfo c with
                     | Some i => applyInfo i info
                     | None => Some info
                     end = Some info).
    { destruct (ConfigInfo c) as [i|]; [|done]. by apply (applyInfo_twice i (DocInfo doc)). }
    rewrite Hagain, orKeep_twice. by destruct (SecuritySchemes c).
  - by destruct doc.
  - intros schemes Hs. unfold ApplyToDoc in Hrun. rewrite Hs in Hrun.
    destruct (match ConfigInfo c with
              | Some i => applyInfo i (DocInfo doc)
              | None => Some (DocInfo doc)
              end) as [info|]; [|done].
    injection Hrun as <-. cbn [DocSecuritySchemes]. by rewrite schemes_copied.
  - intros c' d [i Hi]. unfold ApplyToDoc. rewrite Hi.
    destruct (ConfigInfo c') as [ci|]; [|by eexists].
    unfold applyInfo. by destruct (_ || _); eexists.
Qed.

End Schemes.

Lemma ApplyToDoc_idempotent_witness :
  exists doc', ApplyToDoc titleConfig newDocHead = Some doc'
    /\ (Title <$> doc'.(DocInfo)) = Some "Shop"
    /\ doc'.(DocOpenAPI) = "3.0.3"
    /\ ApplyToDoc titleConfig doc' = Some doc'.
Proof.
  eexists. split; [reflexivity|]. split; [reflexivity|]. split; [reflexivity|].
  by apply (ApplyToDoc_idempotent unit titleConfig newDocHead).
Defined.

End OpenAPISettingsFacts.

(* ===================================================================== *)
(** * Theorems: validation of arrays                                      *)
(* ===================================================================== *)

Module ArrayValidationFacts.
Import GoLib SchemaErrors ArrayValidation.

Section Visit.
Context {Item : Type}.
Variable uniqueItems : list Item -> bool.
Variable visitJSON : Settings -> Item -> option error.
Variable showInt : Z -> string.

Lemma report_grows (settings : Settings) (me me' : list error) (field reason : string) :
  report settings me field reason = inr me' -> length me < length me'.
Proof.
  unfold report. destruct (failfast settings); [done|].
  destruct (negb (multiError settings)); [done|]. intros [= <-].
  rewrite length_app. simpl. lia.
Qed.

Lemma visitItems_accepts (settings : Settings) (value : list Item) :
  forall (i : Z) (me : list error),
  Forall (fun item => visitJSON settings item = None) value ->
  visitItems visitJSON showInt settings i value me = inr me.
Proof.
  induction value as [|item rest IH]; intros i me Hall; [done|].
  apply Forall_cons in Hall as [Hitem Hrest]. cbn [visitItems]. rewrite Hitem. by apply IH.
Qed.

Lemma visitItems_grows (settings : Settings) (value : list Item) :
  (forall item, visitJSON settings item <> Some (Multi [])) ->
  forall (i : Z) (me me' : list error),
  visitItems visitJSON showInt settings i value me = inr me' ->
  length me <= length me'
  /\ (length me' = length me -> Forall (fun item => visitJSON settings item = None) value).
Proof.
  intros Hvisit. induction value as [|item rest IH]; intros i me me' H.
  - injection H as <-. split; [lia|]. constructor.
  - cbn [visitItems] in H. destruct (visitJSON settings item) as [err|] eqn:Hitem.
    + destruct (negb (multiError settings)); [done|].
      apply IH in H as [Hle _].
      assert (length me < length me'); [|split; lia].
      eapply Nat.lt_le_trans; [|exact Hle].
      destruct err as [|e|errs|text]; cbn [markSchemaErrorIndex];
        try (rewrite length_app; simpl; lia).
      destruct errs as [|e errs]; [by destruct (Hvisit item)|].
      rewrite length_app. simpl. lia.
    + apply IH in H as [Hle Hall]. split; [done|]. intros Hlen.
      constructor; [done|]. by apply Hall.
Qed.

(** X28.  [visitJSONArray] accepts an array exactly when the array meets the
    schema: the type is empty or [array], the length is not below
    [minItems] and not above [maxItems] (both taken as [int64], as the code
    does), the items are unique when [uniqueItems] is set, and every item is
    accepted when [items] is set.  The two switches [failfast] and
    [multiError] change which error is returned, never whether one is.  The
    visitor of the items is assumed not to return an empty [MultiError]. *)
Theorem visitJSONArray_accepts_valid
    (settings : Settings) (schema : ArraySchema) (value : list Item)
    (Hvisit : forall item, visitJSON settings item <> Some (Multi [])) :
  visitJSONArray uniqueItems visitJSON showInt settings schema value = None
  <-> valid uniqueItems visitJSON settings schema value.
Proof.
  unfold visitJSONArray, valid.
  destruct (nonempty (Type_ schema) && negb (bool_decide (Type_ schema = "array"))) eqn:Htype.
  { split; [done|]. intros ([Ht|Ht] & _); rewrite Ht in Htype; done. }
  assert (Htype' : Type_ schema = EmptyString \/ Type_ schema = "array").
  { apply andb_false_iff in Htype as [Ht|Ht].
    - left. by apply EapiFacts.nonempty_false.
    - right. apply negb_false_iff, bool_decide_eq_true in Ht. done. }
  set (len := Z.of_nat (length value)).
  destruct (negb (bool_decide (MinItems schema = 0%Z)) && (len <? toInt64 (MinItems schema))%Z)
    eqn:Hmin.
  { apply andb_true_iff in Hmin as [Hnz Hlt].
    apply negb_true_iff, bool_decide_eq_false in Hnz. apply Z.ltb_lt in Hlt.
    split; [|intros (_ & Hno & _); by destruct Hno].
    destruct (report settings [] "minItems" _) as [err|me] eqn:Hrep; [done|].
    apply report_grows in Hrep. intros Hnone.
    assert (Hfinal : forall me2 : list error,
              length me <= length me2 ->
              (if bool_decide (0 < length me2) then Some (Multi me2) else None)
              <> (None : option error)).
    { intros me2 Hle. rewrite bool_decide_eq_true_2; [done|]. simpl in Hrep. lia. }
    exfalso. revert Hnone.
    destruct (MaxItems schema) as [v|].
    - destruct (len >? toInt64 v)%Z.
      + destruct (report settings me "maxItems" _) as [err|me1] eqn:H1; [done|].
        apply report_grows in H1.
        destruct (UniqueItems schema && negb (uniqueItems value)).
        * destruct (report settings me1 "uniqueItems" _) as [err|me2] eqn:H2; [done|].
          apply report_grows in H2.
          destruct (HasItems schema).
          -- destruct (visitItems _ _ _ _ _ _) as [err|me3] eqn:H3; [done|].
             apply (visitItems_grows settings value Hvisit) in H3 as [H3 _].
             apply Hfinal. lia.
          -- apply Hfinal. lia.
        * destruct (HasItems schema).
          -- destruct (visitItems _ _ _ _ _ _) as [err|me3] eqn:H3; [done|].
             apply (visitItems_grows settings value Hvisit) in H3 as [H3 _].
             apply Hfinal. lia.
          -- apply Hfinal. lia.
      + destruct (UniqueItems schema && negb (uniqueItems value)).
        * destruct (report settings me "uniqueItems" _) as [err|me2] eqn:H2; [done|].
          apply report_grows in H2.
          destruct (HasItems schema).
          -- destruct (visitItems _ _ _ _ _ _) as [err|me3] eqn:H3; [done|].
             apply (visitItems_grows settings value Hvisit) in H3 as [H3 _].
             apply Hfinal. lia.
          -- apply Hfinal. lia.
        * destruct (HasItems schema).
          -- destruct (visitItems _ _ _ _ _ _) as [err|me3] eqn:H3; [done|].
             apply (visitItems_grows settings value Hvisit) in H3 as [H3 _].
             apply Hfinal. lia.
          -- apply Hfinal. lia.
    - destruct (UniqueItems schema && negb (uniqueItems value)).
      + destruct (report settings me "uniqueItems" _) as [err|me2] eqn:H2; [done|].
        apply report_grows in H2.
        destruct (HasItems schema).
        * destruct (visitItems _ _ _ _ _ _) as [err|me3] eqn:H3; [done|].
          apply (visitItems_grows settings value Hvisit) in H3 as [H3 _].
          apply Hfinal. lia.
        * apply Hfinal. lia.
      + destruct (HasItems schema).
        * destruct (visitItems _ _ _ _ _ _) as [err|me3] eqn:H3; [done|].
          apply (visitItems_grows settings value Hvisit) in H3 as [H3 _].
          apply Hfinal. lia.
        * apply Hfinal. lia. }
  assert (Hmin' : ~ (MinItems schema <> 0%Z /\ (len < toInt64 (MinItems schema))%Z)).
  { intros [Hnz Hlt]. apply andb_false_iff in Hmin as [H|H].
    - apply negb_false_iff, bool_decide_eq_true in H. done.
    - apply Z.ltb_ge in H. lia. }
  clear Htype Hmin.
  assert (Hfinal : forall me2 : list error,
            0 < length me2 ->
            (if bool_decide (0 < length me2) then Some (Multi me2) else None)
            <> (None : option error)).
  { intros me2 Hlt. by rewrite bool_decide_eq_true_2. }
  assert (Htail : forall me1 : list error,
            match (if UniqueItems schema && negb (uniqueItems value)
                   then report settings me1 "uniqueItems" "duplicate items found"
                   else inr me1) with
            | inl err => Some err
            | inr me =>
                match (if HasItems schema
                       then visitItems visitJSON showInt settings 0 value me
                       else inr me) with
                | inl err => Some err
                | inr me => if bool_decide (0 < length me) then Some (Multi me) else None
                end
            end = None
            <-> me1 = []
                /\ (UniqueItems schema = true -> uniqueItems value = true)
                /\ (HasItems schema = true ->
                    Forall (fun item => visitJSON settings item = None) value)).
  { intros me1. destruct (UniqueItems schema && negb (uniqueItems value)) eqn:Hu.
    - apply andb_true_iff in Hu as [Hu1 Hu2]. apply negb_true_iff in Hu2.
      split; [|intros (_ & Hno & _); rewrite Hno in Hu2; done].
      destruct (report settings me1 "uniqueItems" _) as [err|me2] eqn:H2; [done|].
      apply report_grows in H2. intros Hnone. exfalso. revert Hnone.
      destruct (HasItems schema).
      + destruct (visitItems _ _ _ _ _ _) as [err|me3] eqn:H3; [done|].
        apply (visitItems_grows settings value Hvisit) in H3 as [H3 _].
        apply Hfinal. lia.
      + apply Hfinal. lia.
    - assert (Hu' : UniqueItems schema = true -> uniqueItems value = true).
      { intros Hs. rewrite Hs in Hu. by apply negb_false_iff in Hu. }
      destruct (HasItems schema) eqn:Hitems.
      + destruct (visitItems _ _ _ _ _ _) as [err|me3] eqn:H3.
        * split; [done|]. intros (-> & _ & Hall).
          rewrite visitItems_accepts in H3 by auto. done.
        * pose proof (visitItems_grows settings value Hvisit _ _ _ H3) as [Hle Hall].
          case_bool_decide as Hlen.
          -- split; [done|]. intros (-> & _ & Hall').
             rewrite visitItems_accepts in H3 by auto. injection H3 as <-. simpl in Hlen. lia.
          -- split; [|done]. intros _.
             assert (length me3 = 0) by lia. assert (length me1 = 0) by lia.
             split; [by destruct me1|]. split; [done|]. intros _. apply Hall. lia.
      + case_bool_decide as Hlen.
        * split; [done|]. intros (-> & _). simpl in Hlen. lia.
        * split; [|done]. intros _. split; [destruct me1; [done|simpl in Hlen; lia]|].
          split; [done|]. done. }
  destruct (MaxItems schema) as [v|] eqn:Hmax.
  - destruct (len >? toInt64 v)%Z eqn:Hgt.
    + apply Z.gtb_lt in Hgt.
      split; [|intros (_ & _ & Hno & _); specialize (Hno v eq_refl); fold len in Hno; lia].
      destruct (report settings [] "maxItems" _) as [err|me1] eqn:H1; [done|].
      apply report_grows in H1. intros Hnone. apply Htail in Hnone as [-> _].
      simpl in H1. lia.
    + rewrite Htail. split.
      * intros (_ & Hu & Hi). split; [done|]. split; [done|]. split; [|done].
        intros v' [= <-]. fold len. rewrite Z.gtb_ltb in Hgt. by apply Z.ltb_ge in Hgt.
      * intros (_ & _ & _ & Hu & Hi). done.
  - rewrite Htail. split.
    + intros (_ & Hu & Hi). done.
    + intros (_ & _ & _ & Hu & Hi). done.
Qed.

End Visit.

Lemma visitJSONArray_accepts_valid_witness :
  visitJSONArray (isSliceOfUniqueItems id) acceptAll (fun _ => EmptyString)
    {| failfast := false; multiError := true |} twoUnique ["a"; "b"] = None.
Proof.
  apply (visitJSONArray_accepts_valid (isSliceOfUniqueItems id) acceptAll
           (fun _ => EmptyString) {| failfast := false; multiError := true |}
           twoUnique ["a"; "b"]); [done|].
  split; [by right|]. split; [intros [_ H]; vm_compute in H; done|].
  split; [done|]. split; [intros _; by vm_compute|].
  intros _. by repeat constructor.
Defined.

End ArrayValidationFacts.
